(** * Metric-boosted signature optimizer: feedback memory, candidate store
    and token-budgeted rendering

  Shallow embedding of [dspy/teleprompt/signature_opt_metric_boosted.py],
  with the metric of [dspy/datasets/gsm8k.py] and the reading of a prompt
  by the clients of [dsp/modules].

  Python values are modelled as follows.
  - [str] is [string] (the text is taken to be ASCII; a digit is one of
    the ten characters 0..9).
  - A pandas [DataFrame] is the list of its rows in positional order,
    each row paired with its index label; a row is the list of its cell
    values after [astype(str)].
  - A Python [list] is a [list]; a [dict] is an association list in
    insertion order (the order [dict.values()] iterates in).
  - [int] is [Z] where it can be negative (budgets), [nat] where it
    counts or indexes; a quotient of two of them is a rational.
  - An exception is the [Raise] alternative of [result].
  - Object identity ([id(obj)]) is a field [oid] filled by an allocation
    counter.
  The collaborators the file calls but does not define (the tiktoken
  encoder, [Series.to_markdown], the language model behind
  [dspy.Predict], the evaluator, the iteration order of a [set], the
  pandas [Index] printer, numpy's standard deviation, the chat model of
  the metric, the service behind a client) are variables of the section
  [Optimizer]. *)

From Stdlib Require Import List String Ascii ZArith Arith Bool Lia.
From Stdlib Require Import Sorting.Sorted Sorting.Permutation.
From Stdlib Require Import Numbers.DecimalString Numbers.DecimalNat.
From Stdlib Require QArith.QArith_base.
Import ListNotations.

Local Open Scope string_scope.
Local Open Scope nat_scope.
Local Open Scope list_scope.

(** ** Exceptions *)

Inductive exn : Type :=
| IndexError
| KeyError
| AttributeError
| UnboundLocalError
| ZeroDivisionError
| ValueError (msg : string).

Inductive result (A : Type) : Type :=
| Ok (a : A)
| Raise (e : exn).

Arguments Ok {A} a.
Arguments Raise {A} e.

Definition bind {A B : Type} (m : result A) (k : A -> result B) : result B :=
  match m with
  | Ok a => k a
  | Raise e => Raise e
  end.

Notation "x <- m ;; k" := (bind m (fun x => k))
  (at level 61, m at next level, right associativity).

(** [for x in xs: st = body(st, x)], stopping at the first exception. *)
Fixpoint for_each {S X : Type} (body : S -> X -> result S) (xs : list X) (st : S)
  : result S :=
  match xs with
  | [] => Ok st
  | x :: rest => st' <- body st x ;; for_each body rest st'
  end.

(** ** Text *)

(** The line feed of the Python literals. *)
Definition nl : string := String (ascii_of_nat 10) EmptyString.

Module Text.

(** [str(n)] for a non-negative [int]. *)
Definition str_of_nat (n : nat) : string :=
  NilEmpty.string_of_uint (Nat.to_uint n).

(** [' '.join(cells)]. *)
Definition join (sep : string) (cells : list string) : string :=
  String.concat sep cells.

(** [needle in hay]. *)
Definition contains (needle hay : string) : bool :=
  match String.index 0 needle hay with
  | Some _ => true
  | None => false
  end.

Definition is_digit (c : ascii) : bool :=
  (48 <=? nat_of_ascii c) && (nat_of_ascii c <=? 57).

(** [re.findall(r'\d+', s)]: the maximal runs of digits of [s], left to
    right.  [run] is the run being read, in reverse. *)
Fixpoint findall_digits_from (s : string) (run : list ascii) : list string :=
  match s with
  | EmptyString =>
      match run with
      | [] => []
      | _ => [string_of_list_ascii (rev run)]
      end
  | String c s' =>
      if is_digit c then findall_digits_from s' (c :: run)
      else match run with
           | [] => findall_digits_from s' []
           | _ => string_of_list_ascii (rev run) :: findall_digits_from s' []
           end
  end.

Definition findall_digits (s : string) : list string :=
  findall_digits_from s [].

(** [int(match)] on a run of digits. *)
Fixpoint int_of_digits_from (s : string) (acc : nat) : nat :=
  match s with
  | EmptyString => acc
  | String c s' => int_of_digits_from s' (10 * acc + (nat_of_ascii c - 48))
  end.

Definition int_of_digits (s : string) : nat := int_of_digits_from s 0.

End Text.

(** ** Values a completion field can hold *)

(** A completion field is the text the model produced; line 255 replaces
    the index field by the Python list [[]]. *)
Inductive field_value : Type :=
| PyStr (s : string)
| PyEmptyList.

(** [str(text)]. *)
Definition py_str (v : field_value) : string :=
  match v with
  | PyStr s => s
  | PyEmptyList => "[]"
  end.

(** [safe_strip(text)] *)
Definition safe_strip (text : field_value) : list nat :=
  let matches := Text.findall_digits (py_str text) in
  let indices := map Text.int_of_digits matches in
  indices.

(** ** Tables *)

Definition Row : Type := list string.

(** Rows in positional order, each with its index label. *)
Definition DataFrame : Type := list (nat * Row).

(** [df.index] *)
Definition df_index (df : DataFrame) : list nat := map fst df.

(** [' '.join(row.astype(str))] *)
Definition row_text (row : Row) : string := Text.join " " row.

(** [exemplars_to_df(devset)]: the frame of a list of examples carries the
    default index 0, 1, ... *)
Definition exemplars_to_df (exemplars : list Row) : DataFrame :=
  combine (seq 0 (List.length exemplars)) exemplars.

(** [df.loc[labels]] on a frame with unique labels: the rows with these
    labels in the order asked for; a label the frame lacks raises
    [KeyError]. *)
Definition loc_row (df : DataFrame) (label : nat) : result (nat * Row) :=
  match find (fun r => fst r =? label) df with
  | Some r => Ok r
  | None => Raise KeyError
  end.

Fixpoint loc (df : DataFrame) (labels : list nat) : result DataFrame :=
  match labels with
  | [] => Ok []
  | l :: rest =>
      r <- loc_row df l ;;
      rs <- loc df rest ;;
      Ok (r :: rs)
  end.

(** The text returned when no row can be shown. *)
Definition none_shown (nrows : nat) : string :=
  "None Shown - " ++ Text.str_of_nat nrows ++ " present, too long to show".

(** ** Programs and predictors *)

(** Modelled from the spec: the predictor and signature classes are not
    among the files at hand.  The spec gives a predictor a mutable
    instruction and a mutable output-field name, possibly duplicated across
    two signature slots; the code reaches them as
    [extended_signature.instructions] and [extended_signature.fields[-1]]
    (or [extended_signature1], [extended_signature2]).  A field is a named
    tuple, of which the code reads and replaces only [name]; the other
    components are kept as they are. *)
Record Field : Type := mkField {
  name : string;
  other_components : list string
}.

Record Signature : Type := mkSignature {
  instructions : string;
  fields : list Field
}.

Inductive Predictor : Type :=
| OneSignature (extended_signature : Signature)
| TwoSignatures (extended_signature1 extended_signature2 : Signature).

(** [module.predictors()], in the program's fixed order. *)
Definition Program : Type := list Predictor.

(** ** Evaluation records and the per-predictor store *)

(** The evaluator's score is a finite float that this file compares
    ([>=], [==], [max], [min], [sort]) and, for the statistics, adds up;
    it is held as an integer (the score in hundredths). *)
Definition Score : Type := Z.

Record EvaluationRecord : Type := mkRecord {
  score : Score;
  program : Program;
  instruction : string;
  prefix : string;
  depth : nat
}.

(** [evaluated_candidates[id(p)]]: a dict keyed by [(instruction, prefix)],
    kept in insertion order. *)
Definition CandidateKey : Type := (string * string)%type.
Definition CandidateStore : Type := list (CandidateKey * EvaluationRecord).

Definition key_eqb (k1 k2 : CandidateKey) : bool :=
  String.eqb (fst k1) (fst k2) && String.eqb (snd k1) (snd k2).

(** [key in d] and [d[key]] *)
Fixpoint dict_get (k : CandidateKey) (d : CandidateStore) : option EvaluationRecord :=
  match d with
  | [] => None
  | (k', v) :: rest => if key_eqb k k' then Some v else dict_get k rest
  end.

(** [d[key] = value]: an existing key keeps its place, a new key goes last. *)
Fixpoint dict_set (k : CandidateKey) (v : EvaluationRecord) (d : CandidateStore)
  : CandidateStore :=
  match d with
  | [] => [(k, v)]
  | (k', v') :: rest =>
      if key_eqb k k' then (k', v) :: rest else (k', v') :: dict_set k v rest
  end.

(** [d.values()] *)
Definition dict_values (d : CandidateStore) : list EvaluationRecord := map snd d.

(** Lines 403-416 of [compile]: store the evaluation of a candidate. *)
Definition record_candidate (store : CandidateStore) (instruction prefix : string)
           (score_ : Score) (module_clone : Program) (d : nat) : CandidateStore :=
  let replace_entry :=
    match dict_get (instruction, prefix) store with
    | Some stored => if (score stored >=? score_)%Z then false else true
    | None => true
    end in
  if replace_entry then
    dict_set (instruction, prefix)
      {| score := score_; program := module_clone; instruction := instruction;
         prefix := prefix; depth := d |} store
  else store.

(** [max(xs, key=...)]: the first element whose key no other element
    exceeds; [ValueError] on an empty sequence. *)
Definition py_max {A : Type} (key : A -> Z) (xs : list A) : result A :=
  match xs with
  | [] => Raise (ValueError "max() arg is an empty sequence")
  | x :: rest =>
      Ok (fold_left (fun best y => if (key y >? key best)%Z then y else best) rest x)
  end.

(** [min(xs, key=...)]: the first element that no other element is below;
    [ValueError] on an empty sequence. *)
Definition py_min {A : Type} (key : A -> Z) (xs : list A) : result A :=
  match xs with
  | [] => Raise (ValueError "min() arg is an empty sequence")
  | x :: rest =>
      Ok (fold_left (fun best y => if (key y <? key best)%Z then y else best) rest x)
  end.

(** [sum(xs) / len(xs)] *)
Definition mean (xs : list Score) : result QArith_base.Q :=
  match List.length xs with
  | 0 => Raise ZeroDivisionError
  | S n => Ok (QArith_base.Qmake (fold_left Z.add xs 0%Z) (Pos.of_succ_nat n))
  end.

(** [results_best[id(p)]] and [results_latest[id(p)]] (lines 321-322): the
    lists kept under the keys "depth", "max", "average", "min" and
    "std". *)
Record Stats : Type := mkStats {
  stats_depth : list nat;
  stats_max : list Score;
  stats_average : list QArith_base.Q;
  stats_min : list Score;
  stats_std : list QArith_base.Q
}.

Definition no_stats : Stats :=
  {| stats_depth := []; stats_max := []; stats_average := [];
     stats_min := []; stats_std := [] |}.

(** Line 428 of [compile]. *)
Definition best_candidate (store : CandidateStore) : result EvaluationRecord :=
  py_max score (dict_values store).

(** [xs.sort(key=..., reverse=True)]: stable, largest key first. *)
Fixpoint insert_desc {A : Type} (key : A -> Z) (x : A) (sorted : list A) : list A :=
  match sorted with
  | [] => [x]
  | y :: rest =>
      if (key y <=? key x)%Z then x :: y :: rest
      else y :: insert_desc key x rest
  end.

Fixpoint sort_desc {A : Type} (key : A -> Z) (xs : list A) : list A :=
  match xs with
  | [] => []
  | x :: rest => insert_desc key x (sort_desc key rest)
  end.

(** [sorted(xs, key=..., reverse=True)[:k]] *)
Definition top_k (k : nat) (store : CandidateStore) : list EvaluationRecord :=
  firstn (Nat.min k (List.length (dict_values store)))
         (sort_desc score (dict_values store)).

(** ** Duplicate removal *)

(** [xs[-1]] *)
Definition last_item {A : Type} (xs : list A) : result A :=
  match rev xs with
  | [] => Raise IndexError
  | x :: _ => Ok x
  end.

Definition field_eqb (f1 f2 : Field) : bool :=
  String.eqb (name f1) (name f2)
  && if list_eq_dec string_dec (other_components f1) (other_components f2)
     then true else false.

(** The body of the loop of [_check_candidates_equal] for one pair of
    predictors: [Ok false] is the early [return False], [Ok true] lets the
    loop go on.  Reading [extended_signature] on a predictor that has two
    signatures raises. *)
Definition predictors_equal (p1 p2 : Predictor) : result bool :=
  match p1, p2 with
  | OneSignature s1, OneSignature s2 =>
      if negb (String.eqb (instructions s1) (instructions s2)) then Ok false
      else
        f1 <- last_item (fields s1) ;;
        f2 <- last_item (fields s2) ;;
        if negb (field_eqb f1 f2) then Ok false else Ok true
  | _, _ => Raise AttributeError
  end.

(** [_check_candidates_equal(candidate1, candidate2)]; [zip] stops at the
    shorter program. *)
Fixpoint programs_equal (ps1 ps2 : Program) : result bool :=
  match ps1, ps2 with
  | p1 :: rest1, p2 :: rest2 =>
      same <- predictors_equal p1 p2 ;;
      if same then programs_equal rest1 rest2 else Ok false
  | _, _ => Ok true
  end.

Definition _check_candidates_equal (candidate1 candidate2 : EvaluationRecord)
  : result bool :=
  programs_equal (program candidate1) (program candidate2).

(** The inner loop of [_drop_duplicates]: is [c] a repeat of a member of
    [last_batch]? *)
Fixpoint repeated_in (c : EvaluationRecord) (last_batch : list EvaluationRecord)
  : result bool :=
  match last_batch with
  | [] => Ok false
  | c2 :: rest =>
      same <- _check_candidates_equal c c2 ;;
      if same then Ok true else repeated_in c rest
  end.

Record dedup_state : Type := mkDedup {
  final_candidates : list EvaluationRecord;
  last_batch : list EvaluationRecord;
  last_batch_score : Score
}.

(** One turn of the outer loop of [_drop_duplicates]. *)
Definition drop_duplicates_step (st : dedup_state) (c : EvaluationRecord)
  : result dedup_state :=
  if (score c =? last_batch_score st)%Z then
    repeat_ <- repeated_in c (last_batch st) ;;
    if repeat_ then Ok st
    else Ok {| final_candidates := final_candidates st ++ [c];
               last_batch := last_batch st ++ [c];
               last_batch_score := last_batch_score st |}
  else
    Ok {| final_candidates := final_candidates st ++ [c];
          last_batch := [c];
          last_batch_score := score c |}.

(** [_drop_duplicates(candidates)]; the initial batch score is the float
    [-1]. *)
Definition _drop_duplicates (candidates : list EvaluationRecord)
  : result (list EvaluationRecord) :=
  st <- for_each drop_duplicates_step candidates
        {| final_candidates := []; last_batch := []; last_batch_score := (-100)%Z |} ;;
  Ok (final_candidates st).

(** ** Metric observations and their history *)

Record MetricObservation : Type := mkObservation {
  oid : nat;
  summary : string;
  failure_exemplars : DataFrame;
  example_token_budget : Z
}.

(** [MetricObservation.__init__]; [oid] is the identity of the new object. *)
Definition MetricObservation_init (oid_ : nat) (summary_ : string)
           (failure_exemplars_ : DataFrame) : MetricObservation :=
  {| oid := oid_; summary := summary_; failure_exemplars := failure_exemplars_;
     example_token_budget := 300%Z |}.

Record MetricObservationHistory : Type := mkHistory {
  max_metric_observations : nat;
  current_generation_metric_observations : list MetricObservation;
  previous_generations_metric_observations_used : list MetricObservation;
  previous_generations_metric_observations_unused : list MetricObservation;
  devset : list Row;
  devset_df : DataFrame;
  evalset : list Row;
  evalset_df : DataFrame;
  tokens_incorrect_example : Z;
  tokens_correct_example : Z;
  metric : string
}.

(** [exemplars_to_df] reads [exemplars[0]] and so raises on an empty
    list. *)
Definition checked_exemplars_to_df (exemplars : list Row) : result DataFrame :=
  match exemplars with
  | [] => Raise IndexError
  | _ => Ok (exemplars_to_df exemplars)
  end.

(** [MetricObservationHistory.__init__]; [metric_] stands for the metric
    function, of which only the source text is used. *)
Definition MetricObservationHistory_init (devset_ evalset_ : list Row)
           (metric_ : string) : result MetricObservationHistory :=
  devset_df_ <- checked_exemplars_to_df devset_ ;;
  evalset_df_ <- checked_exemplars_to_df evalset_ ;;
  Ok {| max_metric_observations := 15;
        current_generation_metric_observations := [];
        previous_generations_metric_observations_used := [];
        previous_generations_metric_observations_unused := [];
        devset := devset_;
        devset_df := devset_df_;
        evalset := evalset_;
        evalset_df := evalset_df_;
        tokens_incorrect_example := 2000%Z;
        tokens_correct_example := 600%Z;
        metric := metric_ |}.

(** What [print] wrote. *)
Inductive printed : Type :=
| PrintStr (s : string)
| PrintList (items : list string).

Definition invalid_indices_warning : printed :=
  PrintStr "Warning: Exemplar parsing yielded invalid indices".

(** The part of the process the observation code works on: the history
    object, standard output, the number of objects allocated so far and the
    number of requests sent to the language model so far. *)
Record World : Type := mkWorld {
  metric_observation_history : MetricObservationHistory;
  stdout : list printed;
  next_oid : nat;
  lm_calls : nat
}.

(** ** Requests to the language model and the completions it returns *)

(** The input fields of the signature [ProposeMetricObservation] and the
    number of completions asked for. *)
Record ProposeMetricObservation : Type := mkProposeRequest {
  current_instructions : string;
  sample_questions_the_current_instructions_succeed_on : string;
  sample_questions_the_current_instructions_fail_on : string;
  historical_instructions : list EvaluationRecord;
  ai_metric : string;
  historical_metric_observations : list string;
  propose_n : Z
}.

(** Modelled from the spec: the [Completions] class is not among the files
    at hand.  The spec gives a response as an ordered list of completions,
    each a mapping from output field to text; the code reaches it as one
    list per output field ([completions.field[i]], [completions.field.append])
    and takes its length and iterates it.  This record and the two other
    completion records hold one list per output field; the length is that
    of the first list. *)
Record ProposeCompletions : Type := mkProposeCompletions {
  proposed_metric_observation_summary : list string;
  indices_in_provided_failed_examples_that_exemplify_proposed_metric_observation :
    list field_value
}.

(** The input field of the signature [ReconcileMetric_Observations]. *)
Record ReconcileMetric_Observations : Type := mkReconcileRequest {
  reconcile_historical_metric_observations : string;
  reconcile_n : Z
}.

Record ReconcileCompletions : Type := mkReconcileCompletions {
  reconciled_metric_observation_summaries : list string;
  reconciled_metric_observation_failure_exemplars : list field_value
}.

(** The output fields of [BasicGenerateInstruction] and of
    [GenerateInstructionGivenAttempts]. *)
Record InstructionCompletions : Type := mkInstructionCompletions {
  proposed_instruction : list string;
  proposed_prefix_for_output_field : list string
}.

(** The input fields of the signature [GenerateInstructionGivenAttempts]. *)
Record GenerateInstructionGivenAttempts : Type := mkAttemptsRequest {
  attempted_instructions : list string;
  current_metric_observations_data_boosted : list string;
  historical_metric_observation_summaries : list string;
  attempts_n : Z
}.

(** [xs[i]] *)
Definition item {A : Type} (xs : list A) (i : nat) : result A :=
  match nth_error xs i with
  | Some x => Ok x
  | None => Raise IndexError
  end.

(** [[xs[i] for i in indices]] *)
Fixpoint items {A : Type} (xs : list A) (indices : list nat) : result (list A) :=
  match indices with
  | [] => Ok []
  | i :: rest =>
      x <- item xs i ;;
      more <- items xs rest ;;
      Ok (x :: more)
  end.

(** [for c in completions]: iterating yields, for [i] = 0, 1, ..., the
    completion made of the fields at [i], as long as every list has an
    entry there. *)
Definition candidates_of (c : InstructionCompletions) : list (string * string) :=
  combine (proposed_instruction c) (proposed_prefix_for_output_field c).

(** [len(completions)]: the length of its first list (the lists of a
    completions object have one length when the object is made). *)
Definition completions_len (c : InstructionCompletions) : nat :=
  List.length (proposed_instruction c).

(** ** What a call of a language-model client ends in

    The clients raise [AssertionError] and the plain [Exception]. *)

Inductive client_exn : Type :=
| AssertionError (msg : string)
| Exception (msg : string).

Inductive outcome (A : Type) : Type :=
| Returns (a : A)
| Raises (e : client_exn).

Arguments Returns {A} a.
Arguments Raises {A} e.

(** ** Sample collaborators and data

    Stand-ins for the collaborators, used where a statement is run on a
    concrete input: an encoder that makes one token of every byte (as
    tiktoken does before any merge; both give no token for the empty
    text), a row printer that joins the cells, the first-seen order for
    [list(set(...))], and a comma-separated index printer. *)

Definition byte_tokens (s : string) : list nat :=
  map nat_of_ascii (list_ascii_of_string s).

Definition plain_markdown (row : Row) : option string := Some (row_text row).

Definition first_seen (xs : list nat) : list nat := nodup Nat.eq_dec xs.

Definition comma_index (labels : list nat) : string :=
  Text.join ", " (map Text.str_of_nat labels).

Definition sample_devset : list Row :=
  [["q0"; "a0"]; ["q1"; "a1"]; ["q2"; "a2"]].

(** An observation with two exemplar rows, far below its budget. *)
Definition two_row_observation : MetricObservation :=
  MetricObservation_init 0 "units" [(0, ["q0"; "a0"]); (1, ["q1"; "a1"])].

(** A history over the sample dataset, as [MetricObservationHistory.__init__]
    builds it, holding the observations [current] and [used]. *)
Definition sample_history (current used : list MetricObservation)
  : MetricObservationHistory :=
  {| max_metric_observations := 15;
     current_generation_metric_observations := current;
     previous_generations_metric_observations_used := used;
     previous_generations_metric_observations_unused := [];
     devset := sample_devset;
     devset_df := exemplars_to_df sample_devset;
     evalset := sample_devset;
     evalset_df := exemplars_to_df sample_devset;
     tokens_incorrect_example := 2000%Z;
     tokens_correct_example := 600%Z;
     metric := "def metric(gold, pred): return gold.answer == pred.answer" |}.

(** A fresh world, and the evaluation of a candidate that gets row 1 wrong. *)
Definition sample_world : World :=
  {| metric_observation_history := sample_history [] [];
     stdout := []; next_oid := 0; lm_calls := 0 |}.

Definition sample_failed : DataFrame := [(1, ["q1"; "a1"])].

Definition sample_succeeded : DataFrame := [(0, ["q0"; "a0"]); (2, ["q2"; "a2"])].

(** A model that answers every request for observations with these three;
    the first cites row 0, which the candidate got right, the second cites
    an index beyond the dataset. *)
Definition sample_predict_propose (calls : nat) (request : ProposeMetricObservation)
  : ProposeCompletions :=
  {| proposed_metric_observation_summary :=
       ["gives up early"; "wrong units"; "skips a step"];
     indices_in_provided_failed_examples_that_exemplify_proposed_metric_observation :=
       [PyStr "[0]"; PyStr "[1, 7]"; PyStr "Indices: 1"] |}.

(** Sixteen used observations, one more than the limit. *)
Definition crowded_used : list MetricObservation :=
  map (fun i => MetricObservation_init i ("tip " ++ Text.str_of_nat i)
                  [(i mod 3, nth (i mod 3) sample_devset [])])
      (seq 0 16).

Definition crowded_world : World :=
  {| metric_observation_history := sample_history [] crowded_used;
     stdout := []; next_oid := 16; lm_calls := 0 |}.

(** A model that answers the consolidation request with seven completions. *)
Definition sample_predict_reconcile (calls : nat) (request : ReconcileMetric_Observations)
  : ReconcileCompletions :=
  {| reconciled_metric_observation_summaries :=
       ["merged 0"; "merged 1"; "merged 2"; "merged 3"; "merged 4"; "merged 5";
        "merged 6"];
     reconciled_metric_observation_failure_exemplars :=
       [PyStr "[0, 1]"; PyStr "[2]"; PyStr "[3, 4, 5]"; PyStr "[6, 99]"; PyStr "[7, 8]";
        PyStr "[9]"; PyStr "[10, 11]"] |}.

(** A model whose consolidated observations cite no parent in range. *)
Definition sample_predict_orphans (calls : nat) (request : ReconcileMetric_Observations)
  : ReconcileCompletions :=
  {| reconciled_metric_observation_summaries := ["orphan 0"; "orphan 1"];
     reconciled_metric_observation_failure_exemplars :=
       [PyStr "[]"; PyStr "[40, 41]"] |}.

(** A model whose second consolidated observation cites position 16, the
    place the first one is put at when sixteen observations are in use. *)
Definition sample_predict_echo (calls : nat) (request : ReconcileMetric_Observations)
  : ReconcileCompletions :=
  {| reconciled_metric_observation_summaries := ["merged"; "merged again"];
     reconciled_metric_observation_failure_exemplars := [PyStr "[0, 1]"; PyStr "[16]"] |}.

(** A one-predictor program and records of three evaluations of it, the
    second and third with the same score and texts. *)
Definition sample_predictor (instruction_ prefix_ : string) : Predictor :=
  OneSignature {| instructions := instruction_;
                  fields := [{| name := "question"; other_components := ["in"] |};
                             {| name := prefix_; other_components := ["out"] |}] |}.

Definition sample_record (score_ : Score) (instruction_ prefix_ : string) (d : nat)
  : EvaluationRecord :=
  {| score := score_; program := [sample_predictor instruction_ prefix_];
     instruction := instruction_; prefix := prefix_; depth := d |}.

Definition sample_evaluations : list EvaluationRecord :=
  [sample_record 3333%Z "Answer." "Answer:" 0;
   sample_record 6667%Z "Think, then answer." "Answer:" 0;
   sample_record 6667%Z "Think, then answer." "Answer:" 1].

(** A model that answers the first request for instructions with two. *)
Definition sample_predict_basic (calls : nat) (basic_instruction : string) (n : Z)
  : InstructionCompletions :=
  {| proposed_instruction := ["Think, then answer."; "Answer briefly."];
     proposed_prefix_for_output_field := ["Answer:"; "Result:"] |}.



(** A two-predictor student, an evaluator whose score depends on the
    instruction of the first predictor only and that finds row 1 wrong, a
    model for later rounds, and a printer of scores. *)
Definition sample_student : Program :=
  [sample_predictor "Answer." "Answer:"; sample_predictor "Check." "Verdict:"].

Definition sample_evaluate (calls : nat) (module : Program)
  : Score * list ((nat * Row) * bool) :=
  let score_ :=
    match module with
    | OneSignature s :: _ =>
        if String.eqb (instructions s) "Think, then answer." then 6667%Z else 3333%Z
    | _ => 0%Z
    end in
  (score_,
   [((0, ["q0"; "a0"; "True"]), true);
    ((1, ["q1"; "a1"; "False"]), false);
    ((2, ["q2"; "a2"; "True"]), true)]).

Definition sample_predict_attempts (calls : nat)
           (request : GenerateInstructionGivenAttempts) : InstructionCompletions :=
  {| proposed_instruction := ["Think twice."; "Answer."; "Be exact."];
     proposed_prefix_for_output_field := ["Answer:"; "Answer:"; "Answer:"] |}.

Definition hundredths_repr (s : Score) : string :=
  Text.str_of_nat (Z.to_nat (s / 100)) ++ "." ++ Text.str_of_nat (Z.to_nat (s mod 100)).

(** A stand-in for [np.std]: the whole part of the standard deviation. *)
Definition sample_np_std (scores : list Score) : QArith_base.Q :=
  match scores with
  | [] => QArith_base.Qmake 0 1
  | _ :: _ =>
      let n := Z.of_nat (List.length scores) in
      let total := fold_left Z.add scores 0%Z in
      let squares := fold_left (fun acc x => (acc + (n * x - total) * (n * x - total))%Z)
                               scores 0%Z in
      QArith_base.Qmake (Z.sqrt (squares / (n * n * n))) 1
  end.

(** The source text of the metric of the sample history. *)
Definition sample_metric_source : string :=
  "def metric(gold, pred): return gold.answer == pred.answer".

(** ** The optimizer's functions

    The collaborators are the variables of this section. *)

Section Optimizer.

(** [encoder.encode], tiktoken's encoder for gpt-3.5-turbo. *)
Variable encode : string -> list nat.

(** [row.to_markdown()]; [None] when it raises. *)
Variable to_markdown : Row -> option string.

Definition token_count (row : Row) : Z :=
  Z.of_nat (List.length (encode (row_text row))).

(** [safely_markdownify(df)]: the loop body appends two pieces per row; any
    exception inside the [try] gives the fixed text. *)
Fixpoint markdown_rows (df : DataFrame) (markdown_str : string) : option string :=
  match df with
  | [] => Some markdown_str
  | (index, row) :: rest =>
      match to_markdown row with
      | Some md =>
          markdown_rows rest
            (markdown_str ++ ("EXAMPLE AT INDEX " ++ Text.str_of_nat index ++ nl) ++ (md ++ nl ++ nl))
      | None => None
      end
  end.

Definition safely_markdownify (df : DataFrame) : string :=
  match markdown_rows df "" with
  | Some markdown_str => markdown_str
  | None => "None Shown - Too Long"
  end.

(** The [while] loop of [budgeted_df_stringify] (lines 231-236).  [rows]
    is [df.iloc[nrows_to_keep:]]: the loop runs while a row is left, and
    reads the row at position [nrows_to_keep]. *)
Fixpoint rows_to_keep (rows : DataFrame) (nrows_to_keep : nat)
         (budget_remaining : Z) : nat :=
  match rows with
  | [] => nrows_to_keep
  | (_, row) :: rest =>
      if (token_count row >? budget_remaining)%Z then nrows_to_keep
      else rows_to_keep rest (S nrows_to_keep) (budget_remaining - token_count row)%Z
  end.

(** [budgeted_df_stringify(df, budget)] *)
Definition budgeted_df_stringify (df : DataFrame) (budget : Z) : string :=
  let nrows_to_keep := rows_to_keep df 0 budget in
  if nrows_to_keep =? 0 then none_shown (List.length df)
  else safely_markdownify (firstn nrows_to_keep df).


(** The [while True] loop of [MetricObservation.__str__] (lines 187-194).
    [rows] is [failure_exemplars.iloc[nrows_to_keep:]] and [len] is
    [len(failure_exemplars)]; reading [iloc[nrows_to_keep]] when no row is
    left raises [IndexError]. *)
Fixpoint str_rows_to_keep (rows : DataFrame) (len : nat) (nrows_to_keep : nat)
         (budget_remaining : Z) : result nat :=
  match rows with
  | [] => Raise IndexError
  | (_, row) :: rest =>
      if (token_count row >? budget_remaining)%Z then Ok nrows_to_keep
      else
        let nrows_to_keep := S nrows_to_keep in
        if (Z.of_nat nrows_to_keep >=? Z.of_nat len - 1)%Z then Ok nrows_to_keep
        else str_rows_to_keep rest len nrows_to_keep
                              (budget_remaining - token_count row)%Z
  end.

(** [MetricObservation.__str__] *)
Definition MetricObservation_str (self : MetricObservation) : result string :=
  let budget_remaining := example_token_budget self in
  nrows_to_keep <- str_rows_to_keep (failure_exemplars self)
                     (List.length (failure_exemplars self)) 0 budget_remaining ;;
  if nrows_to_keep =? 0 then
    Ok ("Summary: " ++ summary self ++ nl ++ "Failure Exemplars: "
        ++ none_shown (List.length (failure_exemplars self)))%string
  else
    Ok ("Summary: " ++ summary self ++ nl ++ "Failure Exemplars: "
        ++ safely_markdownify (firstn nrows_to_keep (failure_exemplars self)))%string.

(** [list(set(xs))]: the distinct members of [xs], in the order the set
    iterates, which the language leaves open. *)
Variable list_of_set : list nat -> list nat.

(** [str(df.index)], pandas' printed form of an index. *)
Variable index_repr : list nat -> string.

(** [dspy.Predict(Signature, n=...)(...)].completions for the four request
    shapes; the first argument is the number of requests sent before this
    one (the service need not answer the same request the same way twice).
    The temperature is handed on unread and is left out. *)
Variable predict_propose : nat -> ProposeMetricObservation -> ProposeCompletions.
Variable predict_reconcile : nat -> ReconcileMetric_Observations -> ReconcileCompletions.
Variable predict_basic : nat -> string -> Z -> InstructionCompletions.
Variable predict_attempts : nat -> GenerateInstructionGivenAttempts -> InstructionCompletions.

Definition set_history (w : World) (h : MetricObservationHistory) : World :=
  {| metric_observation_history := h; stdout := stdout w;
     next_oid := next_oid w; lm_calls := lm_calls w |}.

Definition print (w : World) (p : printed) : World :=
  {| metric_observation_history := metric_observation_history w;
     stdout := stdout w ++ [p];
     next_oid := next_oid w; lm_calls := lm_calls w |}.

Definition count_lm_call (w : World) : World :=
  {| metric_observation_history := metric_observation_history w;
     stdout := stdout w;
     next_oid := next_oid w; lm_calls := S (lm_calls w) |}.

(** Creating an object: the observation and the world with one more object. *)
Definition new_MetricObservation (w : World) (summary_ : string) (df : DataFrame)
  : MetricObservation * World :=
  (MetricObservation_init (next_oid w) summary_ df,
   {| metric_observation_history := metric_observation_history w;
      stdout := stdout w;
      next_oid := S (next_oid w); lm_calls := lm_calls w |}).

Definition set_current (h : MetricObservationHistory) (xs : list MetricObservation)
  : MetricObservationHistory :=
  {| max_metric_observations := max_metric_observations h;
     current_generation_metric_observations := xs;
     previous_generations_metric_observations_used :=
       previous_generations_metric_observations_used h;
     previous_generations_metric_observations_unused :=
       previous_generations_metric_observations_unused h;
     devset := devset h; devset_df := devset_df h;
     evalset := evalset h; evalset_df := evalset_df h;
     tokens_incorrect_example := tokens_incorrect_example h;
     tokens_correct_example := tokens_correct_example h;
     metric := metric h |}.

Definition set_used (h : MetricObservationHistory) (xs : list MetricObservation)
  : MetricObservationHistory :=
  {| max_metric_observations := max_metric_observations h;
     current_generation_metric_observations :=
       current_generation_metric_observations h;
     previous_generations_metric_observations_used := xs;
     previous_generations_metric_observations_unused :=
       previous_generations_metric_observations_unused h;
     devset := devset h; devset_df := devset_df h;
     evalset := evalset h; evalset_df := evalset_df h;
     tokens_incorrect_example := tokens_incorrect_example h;
     tokens_correct_example := tokens_correct_example h;
     metric := metric h |}.

Definition set_unused (h : MetricObservationHistory) (xs : list MetricObservation)
  : MetricObservationHistory :=
  {| max_metric_observations := max_metric_observations h;
     current_generation_metric_observations :=
       current_generation_metric_observations h;
     previous_generations_metric_observations_used :=
       previous_generations_metric_observations_used h;
     previous_generations_metric_observations_unused := xs;
     devset := devset h; devset_df := devset_df h;
     evalset := evalset h; evalset_df := evalset_df h;
     tokens_incorrect_example := tokens_incorrect_example h;
     tokens_correct_example := tokens_correct_example h;
     metric := metric h |}.

(** Line 255: every entry of the index field becomes the empty list. *)
Definition force_empty_citations (gens : ProposeCompletions) : ProposeCompletions :=
  {| proposed_metric_observation_summary := proposed_metric_observation_summary gens;
     indices_in_provided_failed_examples_that_exemplify_proposed_metric_observation :=
       map (fun _ => PyEmptyList)
           (seq 0 (List.length
              (indices_in_provided_failed_examples_that_exemplify_proposed_metric_observation
                 gens))) |}.

(** The body of the loop of lines 257-264; the state is the world and
    [new_metric_observations]. *)
Definition propose_step (gens : ProposeCompletions)
           (st : World * list MetricObservation) (i : nat)
  : result (World * list MetricObservation) :=
  let '(w, new_metric_observations) := st in
  let h := metric_observation_history w in
  text <- item (indices_in_provided_failed_examples_that_exemplify_proposed_metric_observation
                  gens) i ;;
  let safe_citations := safe_strip text in
  if List.length safe_citations =? 0 then Raise (ValueError "Exemplar parsing failed")
  else
    let w :=
      if List.length (filter (fun index => index <? List.length (devset h)) safe_citations)
         <? List.length safe_citations
      then print w invalid_indices_warning else w in
    let safe_citations :=
      filter (fun index => index <? List.length (devset h)) safe_citations in
    summary_ <- item (proposed_metric_observation_summary gens) i ;;
    rows <- loc (devset_df h) safe_citations ;;
    let '(mo, w) := new_MetricObservation w summary_ rows in
    Ok (w, new_metric_observations ++ [mo]).

(** The request of lines 242-252. *)
Definition propose_request (w : World) (current_instructions_ : string)
           (current_instructions_failed_on current_instructions_succeeded_on : DataFrame)
           (historical_instructions_ : list EvaluationRecord)
  : ProposeMetricObservation :=
  let h := metric_observation_history w in
  let historical_metric_observations_ :=
    map summary (previous_generations_metric_observations_used h) in
  let success_stringified :=
    budgeted_df_stringify current_instructions_succeeded_on (tokens_correct_example h) in
  let failure_stringified :=
    budgeted_df_stringify current_instructions_failed_on (tokens_incorrect_example h) in
  {| current_instructions := current_instructions_;
     sample_questions_the_current_instructions_succeed_on := success_stringified;
     sample_questions_the_current_instructions_fail_on := failure_stringified;
     historical_instructions := historical_instructions_;
     ai_metric := ("```" ++ metric h ++ "```")%string;
     historical_metric_observations := historical_metric_observations_;
     propose_n := 3%Z |}.

(** [propose_metric_observations] *)
Definition propose_metric_observations (w : World) (current_instructions_ : string)
           (current_instructions_failed_on current_instructions_succeeded_on : DataFrame)
           (historical_instructions_ : list EvaluationRecord) : result World :=
  let request :=
    propose_request w current_instructions_ current_instructions_failed_on
                    current_instructions_succeeded_on historical_instructions_ in
  let failure_stringified := sample_questions_the_current_instructions_fail_on request in
  let new_metric_observation_generations := predict_propose (lm_calls w) request in
  let w := count_lm_call w in
  let new_metric_observation_generations :=
    if Text.contains "None Shown" failure_stringified
    then force_empty_citations new_metric_observation_generations
    else new_metric_observation_generations in
  st <- for_each (propose_step new_metric_observation_generations)
          (seq 0 (List.length
             (proposed_metric_observation_summary new_metric_observation_generations)))
          (w, []) ;;
  let '(w, new_metric_observations) := st in
  let h := metric_observation_history w in
  let h := set_used h (previous_generations_metric_observations_used h
                       ++ current_generation_metric_observations h) in
  let h := set_current h new_metric_observations in
  Ok (print (set_history w h)
        (PrintList (map summary (previous_generations_metric_observations_used h)))).

(** The prompt of lines 271-274: one entry per used observation, with its
    position. *)
Fixpoint enumerate_from {A : Type} (i : nat) (xs : list A) : list (nat * A) :=
  match xs with
  | [] => []
  | x :: rest => (i, x) :: enumerate_from (S i) rest
  end.

Definition historical_metric_observations_with_indices
           (used : list MetricObservation) : string :=
  fold_left
    (fun acc (entry : nat * MetricObservation) =>
       let '(i, metric_observation) := entry in
       (acc ++ ("Tip at Index " ++ Text.str_of_nat i ++ ": "
                ++ summary metric_observation ++ nl)
            ++ ("Related Data Indices Where System Failed: "
                ++ index_repr (df_index (failure_exemplars metric_observation)) ++ nl))%string)
    (enumerate_from 0 used) ""%string.

(** The body of the loop of lines 277-284. *)
Definition reconcile_step (gens : ReconcileCompletions) (w : World) (i : nat)
  : result World :=
  let h := metric_observation_history w in
  text <- item (reconciled_metric_observation_failure_exemplars gens) i ;;
  let safe_parent_indices := safe_strip text in
  let invalid :=
    List.length
      (filter (fun safe_parent_index =>
                 safe_parent_index
                 <? List.length (previous_generations_metric_observations_used h))
              safe_parent_indices)
    <? List.length safe_parent_indices in
  let w := if invalid then print w invalid_indices_warning else w in
  let safe_parent_indices :=
    if invalid then
      filter (fun safe_parent_index =>
                safe_parent_index
                <? List.length (previous_generations_metric_observations_used h))
             safe_parent_indices
    else safe_parent_indices in
  corresponding_parent_metric_observations <-
    items (previous_generations_metric_observations_used h) safe_parent_indices ;;
  let corresponding_parent_indices :=
    list_of_set
      (flat_map (fun metric_observation => df_index (failure_exemplars metric_observation))
                corresponding_parent_metric_observations) in
  summary_ <- item (reconciled_metric_observation_summaries gens) i ;;
  rows <- loc (devset_df h) corresponding_parent_indices ;;
  let '(mo, w) := new_MetricObservation w summary_ rows in
  let h := metric_observation_history w in
  Ok (set_history w
        (set_used h (previous_generations_metric_observations_used h ++ [mo]))).

(** The request of lines 271-275. *)
Definition reconcile_request (h : MetricObservationHistory)
  : ReconcileMetric_Observations :=
  {| reconcile_historical_metric_observations :=
       historical_metric_observations_with_indices
         (previous_generations_metric_observations_used h);
     reconcile_n := Z.of_nat (max_metric_observations h / 2) |}.

(** [update_metric_observations] *)
Definition update_metric_observations (w : World) : result World :=
  let h := metric_observation_history w in
  if max_metric_observations h
     <? List.length (previous_generations_metric_observations_used h)
  then
    let reconciled_metric_observations_generation :=
      predict_reconcile (lm_calls w) (reconcile_request h) in
    let w := count_lm_call w in
    let h := set_unused h (previous_generations_metric_observations_unused h
                           ++ previous_generations_metric_observations_used h) in
    let w := set_history w h in
    for_each (reconcile_step reconciled_metric_observations_generation)
      (seq 0 (List.length
         (reconciled_metric_observation_summaries
            reconciled_metric_observations_generation)))
      w
  else Ok w.

(** *** [compile]

    The optimizer's attributes [self.breadth], [self.depth] and
    [self.track_stats], the source text of its metric, the evaluator
    ([evaluate(...)] gives the score and leaves the annotated table in
    [evaluate.dataset]; its first argument here is the number of
    evaluations made before), [str] of a score and numpy's [np.std] (the
    module is taken to be installed, so that line 325 imports it).
    [verbose] is taken to be off: the tracing only prints. *)
Variable self_breadth : Z.
Variable self_depth : nat.
Variable self_track_stats : bool.
Variable metric_source : string.
Variable evaluate : nat -> Program -> Score * list ((nat * Row) * bool).
Variable score_repr : Score -> string.
Variable np_std : list Score -> QArith_base.Q.

(** [s.strip(q).strip()] with [q] the double-quote character: quotes are
    stripped from both ends, then white space. *)
Definition is_space (c : ascii) : bool :=
  let n := nat_of_ascii c in
  ((9 <=? n) && (n <=? 13)) || ((28 <=? n) && (n <=? 32)).

Definition is_quote (c : ascii) : bool := nat_of_ascii c =? 34.

Fixpoint lstrip (drop : ascii -> bool) (s : list ascii) : list ascii :=
  match s with
  | [] => []
  | c :: rest => if drop c then lstrip drop rest else s
  end.

Definition strip (drop : ascii -> bool) (s : string) : string :=
  string_of_list_ascii
    (rev (lstrip drop (rev (lstrip drop (list_ascii_of_string s))))).

Definition clean (s : string) : string := strip is_space (strip is_quote s).

(** [xs[i] = x] *)
Fixpoint list_set {A : Type} (xs : list A) (i : nat) (x : A) : result (list A) :=
  match xs, i with
  | [], _ => Raise IndexError
  | _ :: rest, 0 => Ok (x :: rest)
  | y :: rest, S i' => rest' <- list_set rest i' x ;; Ok (y :: rest')
  end.

(** [fields[-1] = fields[-1]._replace(name=prefix)] *)
Definition replace_last_name (fs : list Field) (prefix_ : string) : result (list Field) :=
  last <- last_item fs ;;
  Ok (removelast fs ++ [{| name := prefix_; other_components := other_components last |}]).

Definition with_candidate (s : Signature) (instruction_ prefix_ : string)
  : result Signature :=
  fs <- replace_last_name (fields s) prefix_ ;;
  Ok {| instructions := instruction_; fields := fs |}.

(** Lines 370-377 and 429-436: write a candidate into a predictor. *)
Definition set_predictor (p_new : Predictor) (instruction_ prefix_ : string)
  : result Predictor :=
  match p_new with
  | OneSignature s =>
      s' <- with_candidate s instruction_ prefix_ ;;
      Ok (OneSignature s')
  | TwoSignatures s1 s2 =>
      s1' <- with_candidate s1 instruction_ prefix_ ;;
      s2' <- with_candidate s2 instruction_ prefix_ ;;
      Ok (TwoSignatures s1' s2')
  end.

(** Lines 332-339. *)
Definition basic_of (predictor : Predictor) : result (string * string) :=
  match predictor with
  | OneSignature s =>
      f <- last_item (fields s) ;; Ok (instructions s, name f)
  | TwoSignatures s1 _ =>
      f <- last_item (fields s1) ;; Ok (instructions s1, name f)
  end.

(** Lines 340-347: the pool a predictor starts with. *)
Definition initial_candidates (calls : nat) (predictor : Predictor)
  : result InstructionCompletions :=
  basic <- basic_of predictor ;;
  let '(basic_instruction, basic_prefix) := basic in
  let instruct := predict_basic calls basic_instruction (self_breadth - 1)%Z in
  Ok {| proposed_instruction := proposed_instruction instruct ++ [basic_instruction];
        proposed_prefix_for_output_field :=
          proposed_prefix_for_output_field instruct ++ [basic_prefix] |}.

(** Lines 422-426, 463-467 and 499-503: one more entry in each of the
    lists kept for the predictor at position [p_i]. *)
Definition append_stats (results : list Stats) (p_i d : nat) (scores : list Score)
  : result (list Stats) :=
  entry <- item results p_i ;;
  max_ <- py_max (fun s => s) scores ;;
  average_ <- mean scores ;;
  min_ <- py_min (fun s => s) scores ;;
  list_set results p_i
    {| stats_depth := stats_depth entry ++ [d];
       stats_max := stats_max entry ++ [max_];
       stats_average := stats_average entry ++ [average_];
       stats_min := stats_min entry ++ [min_];
       stats_std := stats_std entry ++ [np_std scores] |}.

(** The local variables of [compile] that change during the search.  The
    dicts keyed by [id(p)] are lists indexed by the position of the
    predictor. *)
Record SearchState : Type := mkSearch {
  world : World;
  module_clone : Program;
  evaluated_candidates : list CandidateStore;
  latest_candidates : list InstructionCompletions;
  all_candidates : list InstructionCompletions;
  total_calls : nat;
  latest_scores : list Score;
  results_best : list Stats;
  results_latest : list Stats
}.

(** The loop of lines 331-348 over the predictors. *)
Fixpoint seed_candidates (w : World) (predictors : list Predictor)
  : result (World * list InstructionCompletions) :=
  match predictors with
  | [] => Ok (w, [])
  | predictor :: rest =>
      pool <- initial_candidates (lm_calls w) predictor ;;
      more <- seed_candidates (count_lm_call w) rest ;;
      Ok (fst more, pool :: snd more)
  end.

(** Lines 367-419: the candidate at position [c_i] of the [ncandidates]
    candidates of predictor [p_i], at depth [d]. *)
Definition evaluate_candidate (d p_i ncandidates : nat) (st : SearchState)
           (entry : nat * (string * string)) : result SearchState :=
  let '(c_i, c) := entry in
  let instruction_ := clean (fst c) in
  let prefix_ := clean (snd c) in
  p_new <- item (module_clone st) p_i ;;
  p_new <- set_predictor p_new instruction_ prefix_ ;;
  module_clone_ <- list_set (module_clone st) p_i p_new ;;
  let '(score_, devset_annotated) := evaluate (total_calls st) module_clone_ in
  let devset_failed := map fst (filter (fun r => negb (snd r)) devset_annotated) in
  let devset_succeeded := map fst (filter (fun r => snd r) devset_annotated) in
  store <- item (evaluated_candidates st) p_i ;;
  let historical_instructions_ := top_k 5 store in
  w <- propose_metric_observations (world st) instruction_ devset_failed
         devset_succeeded historical_instructions_ ;;
  w <- update_metric_observations w ;;
  stores <- list_set (evaluated_candidates st) p_i
              (record_candidate store instruction_ prefix_ score_ module_clone_ d) ;;
  Ok {| world := w; module_clone := module_clone_;
        evaluated_candidates := stores;
        latest_candidates := latest_candidates st;
        all_candidates := all_candidates st;
        total_calls := S (total_calls st);
        latest_scores :=
          if (Z.of_nat ncandidates - self_breadth <=? Z.of_nat c_i)%Z
          then latest_scores st ++ [score_] else latest_scores st;
        results_best := results_best st;
        results_latest := results_latest st |}.

(** Lines 362-436: all candidates of predictor [p_i], the statistics of
    the scores noted so far in this round, then the best candidate found
    so far is written into the working clone. *)
Definition search_predictor (d npredictors : nat) (st : SearchState) (p_i : nat)
  : result SearchState :=
  candidates_ <- item (if 1 <? npredictors then all_candidates st
                       else latest_candidates st) p_i ;;
  st <- for_each (evaluate_candidate d p_i (completions_len candidates_))
          (enumerate_from 0 (candidates_of candidates_)) st ;;
  results_latest_ <-
    (if self_track_stats
     then append_stats (results_latest st) p_i d (latest_scores st)
     else Ok (results_latest st)) ;;
  store <- item (evaluated_candidates st) p_i ;;
  best <- best_candidate store ;;
  p_new <- item (module_clone st) p_i ;;
  p_new <- set_predictor p_new (instruction best) (prefix best) ;;
  module_clone_ <- list_set (module_clone st) p_i p_new ;;
  Ok {| world := world st; module_clone := module_clone_;
        evaluated_candidates := evaluated_candidates st;
        latest_candidates := latest_candidates st;
        all_candidates := all_candidates st;
        total_calls := total_calls st;
        latest_scores := latest_scores st;
        results_best := results_best st;
        results_latest := results_latest_ |}.

(** Lines 469-472: [i] runs from [shortest_len - 1] down to 0 over the
    records sorted best first. *)
Definition attempts_text (shortest_len : nat) (best_predictors : list EvaluationRecord)
  : list string :=
  flat_map
    (fun (entry : nat * EvaluationRecord) =>
       let '(i, r) := entry in
       [("Instruction #" ++ Text.str_of_nat (shortest_len - i) ++ ": "
         ++ instruction r)%string;
        ("Prefix #" ++ Text.str_of_nat (shortest_len - i) ++ ": "
         ++ prefix r)%string;
        ("Resulting Score #" ++ Text.str_of_nat (shortest_len - i) ++ ": "
         ++ score_repr (score r))%string])
    (rev (enumerate_from 0 (firstn shortest_len best_predictors))).

(** [[mo.__str__() for mo in current]] *)
Fixpoint render_all (mos : list MetricObservation) : result (list string) :=
  match mos with
  | [] => Ok []
  | mo :: rest =>
      s <- MetricObservation_str mo ;;
      more <- render_all rest ;;
      Ok (s :: more)
  end.

(** Lines 454-485 for the predictor at position [p_i], at depth [d]. *)
Definition propose_candidates (d : nat) (st : SearchState)
           (new_candidates : list InstructionCompletions) (p_i : nat)
  : result (SearchState * list InstructionCompletions) :=
  store <- item (evaluated_candidates st) p_i ;;
  let shortest_len := Z.to_nat (Z.min (Z.of_nat (List.length store)) self_breadth) in
  let best_predictors := sort_desc score (dict_values store) in
  results_best_ <-
    (if self_track_stats
     then append_stats (results_best st) p_i d (firstn 10 (map score best_predictors))
     else Ok (results_best st)) ;;
  let attempts := attempts_text shortest_len (firstn shortest_len best_predictors) in
  let h := metric_observation_history (world st) in
  boosted <- render_all (current_generation_metric_observations h) ;;
  let summaries := map summary (previous_generations_metric_observations_used h) in
  let instr :=
    predict_attempts (lm_calls (world st))
      {| attempted_instructions := attempts;
         current_metric_observations_data_boosted := boosted;
         historical_metric_observation_summaries := summaries;
         attempts_n := self_breadth |} in
  pool <- item (all_candidates st) p_i ;;
  pools <- list_set (all_candidates st) p_i
             {| proposed_instruction :=
                  proposed_instruction pool ++ proposed_instruction instr;
                proposed_prefix_for_output_field :=
                  proposed_prefix_for_output_field pool
                  ++ proposed_prefix_for_output_field instr |} ;;
  Ok ({| world := count_lm_call (world st); module_clone := module_clone st;
         evaluated_candidates := evaluated_candidates st;
         latest_candidates := latest_candidates st;
         all_candidates := pools;
         total_calls := total_calls st;
         latest_scores := latest_scores st;
         results_best := results_best_;
         results_latest := results_latest st |},
      new_candidates ++ [instr]).

(** Line 360: a round starts with no score noted. *)
Definition start_round (st : SearchState) : SearchState :=
  {| world := world st; module_clone := module_clone st;
     evaluated_candidates := evaluated_candidates st;
     latest_candidates := latest_candidates st;
     all_candidates := all_candidates st;
     total_calls := total_calls st;
     latest_scores := [];
     results_best := results_best st;
     results_latest := results_latest st |}.

(** One turn of the loop over the depths (lines 357-488). *)
Definition search_round (npredictors : nat) (st : SearchState) (d : nat)
  : result SearchState :=
  st <- for_each (search_predictor d npredictors) (seq 0 npredictors)
          (start_round st) ;;
  if d =? self_depth - 1 then Ok st
  else
    r <- for_each (fun acc p_i => propose_candidates d (fst acc) (snd acc) p_i)
           (seq 0 npredictors) (st, []) ;;
    let '(st, new_candidates) := r in
    Ok {| world := world st; module_clone := module_clone st;
          evaluated_candidates := evaluated_candidates st;
          latest_candidates := new_candidates;
          all_candidates := all_candidates st;
          total_calls := total_calls st;
          latest_scores := latest_scores st;
          results_best := results_best st;
          results_latest := results_latest st |}.

(** What [compile] returns: the best program and the attributes set on it;
    the two statistics are set only when [track_stats] is on. *)
Record CompiledProgram : Type := mkCompiled {
  best_program : Program;
  candidate_programs : list EvaluationRecord;
  compiled_total_calls : nat;
  compiled_results_best : option (list Stats);
  compiled_results_latest : option (list Stats)
}.

(** The loop variable [d] once the loop over the depths is over: the last
    value it took; the name was never bound if the loop had no turn. *)
Definition loop_variable_d : result nat :=
  match self_depth with
  | 0 => Raise UnboundLocalError
  | S d => Ok d
  end.

(** Lines 490-503: the loop over the predictors that gathers the records
    of every store, [stores] being the stores of the predictors from
    position [p_i] on. *)
Fixpoint gather_candidates (stores : list CandidateStore) (p_i : nat)
         (candidates : list EvaluationRecord) (results_best_ : list Stats)
  : result (list EvaluationRecord * list Stats) :=
  match stores with
  | [] => Ok (candidates, results_best_)
  | store :: rest =>
      let candidates := candidates ++ dict_values store in
      results_best_ <-
        (if self_track_stats then
           let best_predictors := sort_desc score (dict_values store) in
           let scores := firstn 10 (map score best_predictors) in
           d <- loop_variable_d ;;
           append_stats results_best_ p_i d scores
         else Ok results_best_) ;;
      gather_candidates rest (S p_i) candidates results_best_
  end.

(** Lines 490-516: gather, sort, remove duplicates, take the first. *)
Definition select_best (st : SearchState) : result CompiledProgram :=
  gathered <- gather_candidates (evaluated_candidates st) 0 [] (results_best st) ;;
  let '(candidates, results_best_) := gathered in
  let candidates := sort_desc score candidates in
  candidates <- _drop_duplicates candidates ;;
  first <- item candidates 0 ;;
  Ok {| best_program := program first;
        candidate_programs := candidates;
        compiled_total_calls := total_calls st;
        compiled_results_best :=
          if self_track_stats then Some results_best_ else None;
        compiled_results_latest :=
          if self_track_stats then Some (results_latest st) else None |}.

(** Lines 316-488 of [compile]: everything before the final selection. *)
Definition search (student : Program) (devset_ evalset_ : list Row)
  : result SearchState :=
  h <- MetricObservationHistory_init devset_ evalset_ metric_source ;;
  let w := {| metric_observation_history := h; stdout := [];
              next_oid := 0; lm_calls := 0 |} in
  let module := student in
  seeded <- seed_candidates w module ;;
  let '(w, candidates) := seeded in
  let st := {| world := w; module_clone := module;
               evaluated_candidates := map (fun _ => []) module;
               latest_candidates := candidates;
               all_candidates := candidates;
               total_calls := 0;
               latest_scores := [];
               results_best := map (fun _ => no_stats) module;
               results_latest := map (fun _ => no_stats) module |} in
  for_each (search_round (List.length module)) (seq 0 self_depth) st.

(** [compile(student, devset=..., evalset=..., eval_kwargs=...)] *)
Definition compile (student : Program) (devset_ evalset_ : list Row)
  : result CompiledProgram :=
  st <- search student devset_ evalset_ ;;
  select_best st.

(** *** The text the prompts ask for *)

(** The form the output-field descriptions ask the model for (lines 120
    and 152: a stringified list of integers in the form '[i1, i2, i3]'),
    which is Python's [str] of a list of non-negative integers. *)
Definition stringified_list (indices : list nat) : string :=
  ("[" ++ Text.join ", " (map Text.str_of_nat indices) ++ "]")%string.

(** *** The metric of the GSM8K task ([dspy/datasets/gsm8k.py])

    The metric is the function the optimizer is given as [metric].  Its
    arguments are read through [str(gold.answer)] and [str(pred.answer)]
    only, and are given here as these two texts.  [int] is unbounded; the
    limit some interpreters put on the number of digits [int] reads is
    taken not to be reached. *)

(** [answer.split()]: the maximal runs of characters that are not white
    space, left to right.  [word] is the run being read, in reverse. *)
Fixpoint split_from (s : string) (word : list ascii) : list string :=
  match s with
  | EmptyString =>
      match word with
      | [] => []
      | _ => [string_of_list_ascii (rev word)]
      end
  | String c s' =>
      if is_space c then
        match word with
        | [] => split_from s' []
        | _ => string_of_list_ascii (rev word) :: split_from s' []
        end
      else split_from s' (c :: word)
  end.

Definition split (s : string) : list string := split_from s [].

(** [any(c.isdigit() for c in token)] *)
Definition has_digit (token : string) : bool :=
  existsb Text.is_digit (list_ascii_of_string token).

Definition is_dot (c : ascii) : bool := nat_of_ascii c =? 46.

(** [answer.split('.')[0]]: the text before the first full stop. *)
Fixpoint before_dot (s : string) : string :=
  match s with
  | EmptyString => EmptyString
  | String c s' => if is_dot c then EmptyString else String c (before_dot s')
  end.

(** [''.join([c for c in answer if c.isdigit()])] *)
Definition digits_of (s : string) : string :=
  string_of_list_ascii (filter Text.is_digit (list_ascii_of_string s)).

(** [int(answer)] on a text made of digits only: the empty text is not a
    number. *)
Definition int_of_text (s : string) : result nat :=
  match s with
  | EmptyString => Raise (ValueError "invalid literal for int() with base 10: ''")
  | _ => Ok (Text.int_of_digits s)
  end.

(** [parse_integer_answer(answer)]; the [try] catches [ValueError] and
    [IndexError] and nothing else. *)
Definition parse_integer_answer (answer : string) : result nat :=
  let attempt :=
    answer <- last_item (filter has_digit (split answer)) ;;
    let answer := before_dot answer in
    let answer := digits_of answer in
    int_of_text answer in
  match attempt with
  | Ok answer => Ok answer
  | Raise (ValueError _) => Ok 0
  | Raise IndexError => Ok 0
  | Raise e => Raise e
  end.

(** [llm_check(gold, pred)]: the verdict of the chat model, T or F. *)
Variable llm_check : string -> string -> bool.

(** [gsm8k_metric(gold, pred)]: the verdict, and the questions put to the
    chat model on the way. *)
Definition gsm8k_metric (gold_answer pred_answer : string)
  : result (bool * list (string * string)) :=
  gold_int <- parse_integer_answer gold_answer ;;
  pred_int <- parse_integer_answer pred_answer ;;
  let obviously_correct := gold_int =? pred_int in
  let correct := obviously_correct in
  if negb obviously_correct && Text.contains gold_answer pred_answer then
    Ok (llm_check gold_answer pred_answer, [(gold_answer, pred_answer)])
  else Ok (correct, []).

(** *** The clients of the language-model services
    ([dsp/modules/anyscale.py], [deepinfra.py], [tgi.py])

    The three classes read a prompt the same way: the text after the last
    separator is the user's part, the text before it the system's. *)

Definition is_dash (c : ascii) : bool := nat_of_ascii c =? 45.

(** Putting a character in front of the first piece. *)
Definition cons_first (c : ascii) (pieces : list string) : list string :=
  match pieces with
  | piece :: rest => String c piece :: rest
  | [] => [String c EmptyString]
  end.

(** [prompt.split(sep)] with [sep] the three dashes: the separator is
    looked for from the left, and the search goes on behind each
    separator found; there is always one piece at least. *)
Fixpoint split_dashes (s : string) : list string :=
  match s with
  | EmptyString => [EmptyString]
  | String c rest =>
      match rest with
      | String c2 (String c3 rest') =>
          if is_dash c && is_dash c2 && is_dash c3
          then EmptyString :: split_dashes rest'
          else cons_first c (split_dashes rest)
      | _ => cons_first c (split_dashes rest)
      end
  end.

(** [self.basic_request(system_prompt, user_prompt)]: the answer of the
    service. *)
Variable basic_request : string -> string -> outcome string.

(** The lines the three [__call__] methods share, from the two
    assertions to the request. *)
Definition request_of_prompt (prompt : string) (only_completed return_sorted : bool)
  : outcome string :=
  if negb only_completed then Raises (AssertionError "for now")
  else if return_sorted then Raises (AssertionError "for now")
  else if negb (Text.contains "---" prompt) then Raises (Exception "Invalid prompt")
  else
    let system_prompt := Text.join "---" (removelast (split_dashes prompt)) in
    let user_prompt := last (split_dashes prompt) EmptyString in
    basic_request system_prompt user_prompt.

(** [AnyScaleApi.__call__] and [DeepInfraApi.__call__] return the answer. *)
Definition AnyScaleApi_call (prompt : string) (only_completed return_sorted : bool)
  : outcome string :=
  request_of_prompt prompt only_completed return_sorted.

Definition DeepInfraApi_call (prompt : string) (only_completed return_sorted : bool)
  : outcome string :=
  request_of_prompt prompt only_completed return_sorted.

(** [TogetherApi.__call__] returns the answer in a list of one. *)
Definition TogetherApi_call (prompt : string) (only_completed return_sorted : bool)
  : outcome (list string) :=
  match request_of_prompt prompt only_completed return_sorted with
  | Returns response => Returns [response]
  | Raises e => Raises e
  end.

(** ** Notions the statements use *)

(** Tokens of a run of rows. *)
Definition tokens_sum (rows : DataFrame) : Z :=
  fold_right (fun r acc => (token_count (snd r) + acc)%Z) 0%Z rows.

(** The row at position [j] fits in what the rows before it leave of
    [budget]. *)
Definition fits (df : DataFrame) (budget : Z) (j : nat) : Prop :=
  match nth_error df j with
  | Some r => (token_count (snd r) <= budget - tokens_sum (firstn j df))%Z
  | None => False
  end.

(** [k] is the greedy choice: every row before [k] fits, and the row at
    [k], if there is one, does not. *)
Definition greedy_choice (df : DataFrame) (budget : Z) (k : nat) : Prop :=
  k <= List.length df
  /\ (forall j, j < k -> fits df budget j)
  /\ (k < List.length df -> ~ fits df budget k).

(** The text of a run of rows: every row in turn under its heading;
    nothing when some row has no table form. *)
Fixpoint rows_text (rows : DataFrame) : option string :=
  match rows with
  | [] => Some EmptyString
  | (index, row) :: rest =>
      match to_markdown row, rows_text rest with
      | Some md, Some more =>
          Some ("EXAMPLE AT INDEX " ++ Text.str_of_nat index ++ nl
                ++ md ++ nl ++ nl ++ more)%string
      | _, _ => None
      end
  end.

(** Some parsed index of [text] is not below [bound]. *)
Definition cites_out_of_range (bound : nat) (text : field_value) : Prop :=
  exists j, In j (safe_strip text) /\ bound <= j.

(** The indices of [text] that are below [bound], in the order written. *)
Definition citations_below (bound : nat) (text : field_value) : list nat :=
  filter (fun index => index <? bound) (safe_strip text).

(** The identities of the observations in the three sets of the history. *)
Definition history_oids (h : MetricObservationHistory) : list nat :=
  map oid (current_generation_metric_observations h
           ++ previous_generations_metric_observations_used h
           ++ previous_generations_metric_observations_unused h).

(** The three sets hold different objects, each once, all of them
    allocated: every observation belongs to exactly one set. *)
Definition sets_disjoint (w : World) : Prop :=
  NoDup (history_oids (metric_observation_history w))
  /\ (forall o, In o (history_oids (metric_observation_history w)) -> o < next_oid w).

(** [best] is the first member of [xs] with the largest key. *)
Definition first_max {A : Type} (key : A -> Z) (xs : list A) (best : A) : Prop :=
  exists before after,
    xs = before ++ best :: after
    /\ (forall y, In y before -> (key y < key best)%Z)
    /\ (forall y, In y after -> (key y <= key best)%Z).

(** A run of the lines 403-416, one turn per evaluation, each evaluation
    given as the record it would store. *)
Definition record_all (evaluations : list EvaluationRecord) (store : CandidateStore)
  : CandidateStore :=
  fold_left
    (fun st r => record_candidate st (instruction r) (prefix r) (score r)
                                  (program r) (depth r))
    evaluations store.

(** The instruction and the output-field name of a signature. *)
Definition signature_texts (s : Signature) : string * option string :=
  (instructions s,
   match last_item (fields s) with
   | Ok f => Some (name f)
   | Raise _ => None
   end).

(** The texts at a predictor position, one pair per signature slot. *)
Definition predictor_texts (p : Predictor) : list (string * option string) :=
  match p with
  | OneSignature s => [signature_texts s]
  | TwoSignatures s1 s2 => [signature_texts s1; signature_texts s2]
  end.

(** The instruction and output-field name at every predictor position. *)
Definition texts (c : EvaluationRecord) : list (list (string * option string)) :=
  map predictor_texts (program c).

(** Two records with the same score and, at every predictor position, the
    same instruction and the same output-field name. *)
Definition duplicate (c1 c2 : EvaluationRecord) : Prop :=
  score c1 = score c2 /\ texts c1 = texts c2.

(** What the clones of a program have in common: at each position either
    one signature, whose last field holds [rest] beside its name, or two
    signatures. *)
Inductive slot : Type :=
| OneSlot (rest : list string)
| TwoSlots.

Definition fills (p : Predictor) (sl : slot) : Prop :=
  match p, sl with
  | OneSignature s, OneSlot rest =>
      exists f, last_item (fields s) = Ok f /\ other_components f = rest
  | TwoSignatures _ _, TwoSlots => True
  | _, _ => False
  end.

Definition shaped (shape : list slot) (ps : Program) : Prop := Forall2 fills ps shape.

(** The snapshot of [c] is a clone of a program of that shape: what
    [compile] stores, since it only ever rewrites the instruction and the
    name of the last field of a clone of the student. *)
Definition snapshot_of (shape : list slot) (c : EvaluationRecord) : Prop :=
  shaped shape (program c).

Definition one_signature_only (shape : list slot) : Prop :=
  Forall (fun sl => sl <> TwoSlots) shape.

Definition by_score_desc (a b : EvaluationRecord) : Prop := (score b <= score a)%Z.

(** The store of the predictor at position [p_i] holds a record for the
    candidate [k]: the candidate has been evaluated for that predictor. *)
Definition recorded (st : SearchState) (p_i : nat) (k : CandidateKey) : Prop :=
  exists store r,
    nth_error (evaluated_candidates st) p_i = Some store /\ dict_get k store = Some r.


(** The pools the next turn of the search reads for a program of
    [npredictors] predictors. *)
Definition active_pools (npredictors : nat) (st : SearchState)
  : list InstructionCompletions :=
  if 1 <? npredictors then all_candidates st else latest_candidates st.

(** The state in which the statistics of the last loop can be noted:
    some round has run, every store holds a record and every predictor has
    its entry in the statistics. *)
Definition stats_ready (st : SearchState) : Prop :=
  1 <= self_depth
  /\ Forall (fun store : CandidateStore => store <> []) (evaluated_candidates st)
  /\ List.length (results_best st) = List.length (evaluated_candidates st).

(** The working clone and every stored snapshot have the shape of the
    student. *)
Definition search_invariant (shape : list slot) (st : SearchState) : Prop :=
  shaped shape (module_clone st)
  /\ forall store c, In store (evaluated_candidates st) ->
                     In c (dict_values store) -> snapshot_of shape c.

(** What holds of the state of [_drop_duplicates] after the records
    [processed] of a list sorted by score, largest first. *)
Definition dedup_invariant (processed : list EvaluationRecord) (st : dedup_state)
  : Prop :=
  incl (final_candidates st) processed
  /\ (forall c, In c processed ->
        exists c', In c' (final_candidates st) /\ duplicate c c')
  /\ (forall a b, In a (final_candidates st) -> In b (final_candidates st) ->
                  duplicate a b -> a = b)
  /\ NoDup (final_candidates st)
  /\ StronglySorted by_score_desc (final_candidates st)
  /\ last_batch st
      = filter (fun c => (score c =? last_batch_score st)%Z) (final_candidates st)
  /\ (forall c, In c processed -> (last_batch_score st <= score c)%Z)
  /\ (processed <> [] -> exists c0, In c0 processed /\ score c0 = last_batch_score st)
  /\ hd_error (final_candidates st) = hd_error processed.

(** A text made of digits only, and a text with no digit. *)
Definition all_digits (s : string) : Prop :=
  Forall (fun c => Text.is_digit c = true) (list_ascii_of_string s).

Definition no_digit (s : string) : Prop :=
  Forall (fun c => Text.is_digit c = false) (list_ascii_of_string s).

(** Every exemplar row of [mo] carries the label of a row of the dataset
    of [h]. *)
Definition exemplars_in_devset (h : MetricObservationHistory) (mo : MetricObservation)
  : Prop :=
  Forall (fun label => label < List.length (devset h)) (df_index (failure_exemplars mo)).

(** The dataset frame is the frame of the dataset, and the observations of
    the three sets cite rows of the dataset only. *)
Definition history_backed (h : MetricObservationHistory) : Prop :=
  devset_df h = exemplars_to_df (devset h)
  /\ Forall (exemplars_in_devset h)
       (current_generation_metric_observations h
        ++ previous_generations_metric_observations_used h
        ++ previous_generations_metric_observations_unused h).

(** The index fields as the loop of [propose_metric_observations] reads
    them: replaced by empty lists when the rendering of the failing rows
    holds the words of the sentinel. *)
Definition citations_read (failure_stringified : string) (texts : list field_value)
  : list field_value :=
  if Text.contains "None Shown" failure_stringified
  then map (fun _ => PyEmptyList) texts
  else texts.

(** [kept] is made of members of [l] in the order they have in [l]. *)
Inductive subsequence {A : Type} : list A -> list A -> Prop :=
| subsequence_nil : subsequence [] []
| subsequence_keep (x : A) (kept l : list A) :
    subsequence kept l -> subsequence (x :: kept) (x :: l)
| subsequence_drop (x : A) (kept l : list A) :
    subsequence kept l -> subsequence kept (x :: l).

(** No two neighbours of the list have the same score. *)
Fixpoint scores_change (candidates : list EvaluationRecord) : Prop :=
  match candidates with
  | a :: (b :: _) as rest => score a <> score b /\ scores_change rest
  | _ => True
  end.

(** A program [_check_candidates_equal] can read: every predictor has one
    signature, with a field. *)
Definition comparable (ps : Program) : Prop :=
  Forall (fun p => exists s f, p = OneSignature s /\ last_item (fields s) = Ok f) ps.

(** The first and the last character of a text. *)
Definition outer_characters (s : string) : list ascii :=
  match list_ascii_of_string s with
  | [] => []
  | c :: rest => [c; last rest c]
  end.

(** The three lines of the prompt about the attempt numbered [k]. *)
Definition attempt_entry (k : nat) (r : EvaluationRecord) : list string :=
  [("Instruction #" ++ Text.str_of_nat k ++ ": " ++ instruction r)%string;
   ("Prefix #" ++ Text.str_of_nat k ++ ": " ++ prefix r)%string;
   ("Resulting Score #" ++ Text.str_of_nat k ++ ": " ++ score_repr (score r))%string].

Definition by_score_asc (a b : EvaluationRecord) : Prop := (score a <= score b)%Z.

(** A text without white space, and a text without a full stop. *)
Definition no_space (s : string) : Prop :=
  Forall (fun c => is_space c = false) (list_ascii_of_string s).

Definition no_dot (s : string) : Prop :=
  Forall (fun c => is_dot c = false) (list_ascii_of_string s).

(** The predictor [p] carries the instruction and the output-field name
    given, in each of its signatures. *)
Definition carries (p : Predictor) (instruction_ prefix_ : string) : Prop :=
  Forall (fun t => t = (instruction_, Some prefix_)) (predictor_texts p).

(** Each entry of the store of the predictor at position [i] is filed
    under its own instruction and output-field name, which are cleaned
    texts, and its snapshot carries them at position [i]; no key comes
    twice. *)
Definition store_describes_snapshots (i : nat) (store : CandidateStore) : Prop :=
  NoDup (map fst store)
  /\ forall k r, In (k, r) store ->
       k = (instruction r, prefix r)
       /\ (exists c, instruction r = clean (fst c) /\ prefix r = clean (snd c))
       /\ exists p, nth_error (program r) i = Some p
                    /\ carries p (instruction r) (prefix r).

(** Both lists of a pool of candidates have [n] entries. *)
Definition pool_has (n : nat) (pool : InstructionCompletions) : Prop :=
  List.length (proposed_instruction pool) = n
  /\ List.length (proposed_prefix_for_output_field pool) = n.

(** The evaluations made in the first [d] rounds of the search on a
    program of [npredictors] predictors when every request for candidates
    is answered with [breadth] of them: a program of one predictor
    evaluates the latest candidates, a program of several evaluates all
    the candidates made so far. *)
Fixpoint evaluations_after (npredictors breadth d : nat) : nat :=
  match d with
  | 0 => 0
  | S d' =>
      evaluations_after npredictors breadth d'
      + npredictors * (if 1 <? npredictors then breadth * d else breadth)
  end.

(** The statistics of a predictor hold one value for each of the depths
    0 .. [n - 1], in this order. *)
Definition tracked (n : nat) (s : Stats) : Prop :=
  stats_depth s = seq 0 n
  /\ List.length (stats_max s) = n
  /\ List.length (stats_average s) = n
  /\ List.length (stats_min s) = n
  /\ List.length (stats_std s) = n.

(** Taking apart a run that did not raise. *)
Ltac inv_bind H :=
  match type of H with
  | bind ?m _ = Ok _ =>
      let E := fresh "E" in
      destruct m eqn:E; cbn [bind] in H; [|discriminate]
  end.

(** * Properties *)

(** ** Parsing and sorting on small inputs *)

Example safe_strip_stringified_list : safe_strip (PyStr "[0, 19]") = [0; 19].
Proof. reflexivity. Qed.

Example safe_strip_prose : safe_strip (PyStr "Indices: 3 and 12.") = [3; 12].
Proof. reflexivity. Qed.

Example safe_strip_no_digit : safe_strip (PyStr "none") = [].
Proof. reflexivity. Qed.

Example safe_strip_forced_empty : safe_strip PyEmptyList = [].
Proof. reflexivity. Qed.

Example none_shown_three :
  none_shown 3 = "None Shown - 3 present, too long to show"%string.
Proof. reflexivity. Qed.

Example clean_spaces : clean "  Answer the question. " = "Answer the question."%string.
Proof. reflexivity. Qed.

Example sort_desc_is_stable :
  map (fun c => (score c, depth c))
      (sort_desc score [sample_record 1%Z "a" "p" 0; sample_record 2%Z "b" "p" 1;
                        sample_record 1%Z "c" "p" 2; sample_record 2%Z "d" "p" 3])
  = [(2%Z, 1); (2%Z, 3); (1%Z, 0); (1%Z, 2)].
Proof. reflexivity. Qed.

Example best_candidate_first_of_ties :
  best_candidate (record_all [sample_record 5%Z "a" "p" 0; sample_record 7%Z "b" "p" 1;
                              sample_record 7%Z "c" "p" 2] [])
  = Ok (sample_record 7%Z "b" "p" 1).
Proof. reflexivity. Qed.

(** ** Token-budgeted rendering *)

Lemma string_app_assoc (a b c : string) :
  ((a ++ b) ++ c = a ++ (b ++ c))%string.
Proof. induction a as [|x a IH]; simpl; [reflexivity | rewrite IH; reflexivity]. Qed.

Lemma string_app_nil_r (s : string) : (s ++ "")%string = s.
Proof. induction s as [|c s IH]; cbn; [reflexivity | rewrite IH; reflexivity]. Qed.

(** The loop of [safely_markdownify] writes the text of the rows after
    what it has written before, and gives up as soon as a row has no table
    form. *)
Lemma markdown_rows_text (df : DataFrame) :
  forall acc : string,
  markdown_rows df acc
  = match rows_text df with
    | Some text => Some (acc ++ text)%string
    | None => None
    end.
Proof.
  induction df as [|[index row] rest IH]; intros acc; cbn [markdown_rows rows_text].
  - rewrite string_app_nil_r. reflexivity.
  - destruct (to_markdown row) as [md|]; [|reflexivity].
    rewrite IH. destruct (rows_text rest) as [more|]; [|reflexivity].
    f_equal. rewrite !string_app_assoc. reflexivity.
Qed.

Lemma safely_markdownify_text (df : DataFrame) :
  safely_markdownify df
  = match rows_text df with
    | Some text => text
    | None => "None Shown - Too Long"
    end.
Proof.
  unfold safely_markdownify. rewrite markdown_rows_text.
  destruct (rows_text df); reflexivity.
Qed.

Lemma rows_to_keep_shift (rows : DataFrame) (n : nat) (b : Z) :
  rows_to_keep rows n b = n + rows_to_keep rows 0 b.
Proof.
  revert n b. induction rows as [|[l row] rest IH]; intros n b; simpl.
  - lia.
  - destruct (token_count row >? b)%Z; [lia|].
    rewrite (IH (S n)), (IH 1). lia.
Qed.

Lemma rows_to_keep_cons (l : nat) (row : Row) (rest : DataFrame) (b : Z) :
  rows_to_keep ((l, row) :: rest) 0 b
  = if (token_count row >? b)%Z then 0
    else S (rows_to_keep rest 0 (b - token_count row)%Z).
Proof.
  simpl. destruct (token_count row >? b)%Z; [reflexivity|].
  rewrite rows_to_keep_shift. reflexivity.
Qed.

Lemma rows_to_keep_monotone (df : DataFrame) (b1 b2 : Z) :
  (b1 <= b2)%Z -> rows_to_keep df 0 b1 <= rows_to_keep df 0 b2.
Proof.
  revert b1 b2. induction df as [|[l row] rest IH]; intros b1 b2 Hle.
  - simpl. lia.
  - rewrite !rows_to_keep_cons.
    destruct (Z.gtb_spec (token_count row) b1) as [H1|H1];
      destruct (Z.gtb_spec (token_count row) b2) as [H2|H2]; try lia.
    apply le_n_S, IH. lia.
Qed.

Lemma fits_head (r : nat * Row) (rest : DataFrame) (b : Z) :
  fits (r :: rest) b 0 <-> (token_count (snd r) <= b)%Z.
Proof. unfold fits. simpl. split; lia. Qed.

Lemma fits_tail (r : nat * Row) (rest : DataFrame) (b : Z) (j : nat) :
  fits (r :: rest) b (S j) <-> fits rest (b - token_count (snd r))%Z j.
Proof.
  unfold fits. simpl. destruct (nth_error rest j); [|split; intros []]. split; lia.
Qed.

Lemma rows_to_keep_greedy (df : DataFrame) (b : Z) :
  greedy_choice df b (rows_to_keep df 0 b).
Proof.
  revert b. induction df as [|[l row] rest IH]; intros b.
  - simpl. repeat split; simpl; intros; lia.
  - rewrite rows_to_keep_cons.
    destruct (Z.gtb_spec (token_count row) b) as [Hgt|Hle].
    + repeat split; simpl; [lia | intros; lia |].
      intros _ Hfit. apply fits_head in Hfit. simpl in Hfit. lia.
    + destruct (IH (b - token_count row)%Z) as (Hlen & Hbefore & Hstop).
      repeat split; simpl.
      * lia.
      * intros [|j] Hj.
        -- apply fits_head. simpl. lia.
        -- apply fits_tail. simpl. apply Hbefore. lia.
      * intros Hlt Hfit. apply fits_tail in Hfit. simpl in Hfit.
        apply Hstop; [lia | exact Hfit].
Qed.

Lemma greedy_choice_unique (df : DataFrame) (b : Z) (k1 k2 : nat) :
  greedy_choice df b k1 -> greedy_choice df b k2 -> k1 = k2.
Proof.
  intros (L1 & B1 & S1) (L2 & B2 & S2).
  destruct (Nat.lt_trichotomy k1 k2) as [Hlt|[Heq|Hgt]]; [|exact Heq|].
  - exfalso. apply S1; [lia | apply B2; exact Hlt].
  - exfalso. apply S2; [lia | apply B1; exact Hgt].
Qed.

Lemma stringify_first_row_too_long (df : DataFrame) (l : nat) (row : Row)
      (rest : DataFrame) (b : Z) :
  df = (l, row) :: rest -> (b < token_count row)%Z ->
  budgeted_df_stringify df b = none_shown (List.length df).
Proof.
  intros -> Hlt. unfold budgeted_df_stringify. rewrite rows_to_keep_cons.
  destruct (Z.gtb_spec (token_count row) b); [reflexivity | lia].
Qed.

Lemma stringify_no_rows (b : Z) : budgeted_df_stringify [] b = none_shown 0.
Proof. reflexivity. Qed.

(** A first row that costs no token is kept at budget 0. *)
Lemma stringify_free_first_row (l : nat) (row : Row) (rest : DataFrame) :
  token_count row = 0%Z ->
  1 <= rows_to_keep ((l, row) :: rest) 0 0.
Proof.
  intros H0. rewrite rows_to_keep_cons, H0. simpl. lia.
Qed.

(** C8 (as amended).  The greedy renderer keeps at least as many rows at a
    larger budget; the number of rows it keeps is the greedy choice (rows
    are taken in order while each fits in what is left, and the first that
    does not fit ends the run); what it returns is the text of exactly the
    rows of the greedy choice, each under its heading and in the order of
    the table (the fixed text if one of them has no table form), or the
    sentinel with the row count when the greedy choice is no row; and the
    sentinel is what it returns when the budget is smaller than the cost
    of the first row, when the budget is 0 and the first row costs at
    least one token, and when the table has no row. *)
Theorem budgeted_df_stringify_monotone_greedy (df : DataFrame) (b1 b2 : Z) :
  (b1 <= b2)%Z ->
  rows_to_keep df 0 b1 <= rows_to_keep df 0 b2
  /\ greedy_choice df b1 (rows_to_keep df 0 b1)
  /\ (forall k1 k2, greedy_choice df b1 k1 -> greedy_choice df b2 k2 -> k1 <= k2)
  /\ (forall b k, greedy_choice df b k ->
        budgeted_df_stringify df b
        = if k =? 0 then none_shown (List.length df)
          else match rows_text (firstn k df) with
               | Some text => text
               | None => "None Shown - Too Long"
               end)
  /\ (forall l row rest, df = (l, row) :: rest -> (b1 < token_count row)%Z ->
      budgeted_df_stringify df b1 = none_shown (List.length df))
  /\ (forall l row rest, df = (l, row) :: rest -> (1 <= token_count row)%Z ->
      budgeted_df_stringify df 0 = none_shown (List.length df))
  /\ (df = [] -> budgeted_df_stringify df b1 = none_shown 0).
Proof.
  intros Hle. split; [|split; [|split; [|split; [|split; [|split]]]]].
  - apply rows_to_keep_monotone, Hle.
  - apply rows_to_keep_greedy.
  - intros k1 k2 H1 H2.
    rewrite (greedy_choice_unique df b1 k1 _ H1 (rows_to_keep_greedy df b1)).
    rewrite (greedy_choice_unique df b2 k2 _ H2 (rows_to_keep_greedy df b2)).
    apply rows_to_keep_monotone, Hle.
  - intros b k Hk.
    rewrite (greedy_choice_unique df b k _ Hk (rows_to_keep_greedy df b)).
    unfold budgeted_df_stringify.
    destruct (rows_to_keep df 0 b =? 0); [reflexivity|].
    apply safely_markdownify_text.
  - intros l row rest Hdf Hlt. eapply stringify_first_row_too_long; eauto.
  - intros l row rest Hdf Hpos. eapply stringify_first_row_too_long; eauto. lia.
  - intros ->. apply stringify_no_rows.
Qed.

(** ** Rendering of an observation *)

Lemma str_rows_to_keep_total (rows : DataFrame) (len n0 : nat) (b : Z) :
  rows <> [] -> len = n0 + List.length rows ->
  exists n, str_rows_to_keep rows len n0 b = Ok n.
Proof.
  revert n0 b. induction rows as [|[l row] rest IH]; intros n0 b Hne Hlen.
  - congruence.
  - cbn [str_rows_to_keep]. destruct (token_count row >? b)%Z; [eauto|].
    destruct (Z.geb_spec (Z.of_nat (S n0)) (Z.of_nat len - 1)) as [Hge|Hlt]; [eauto|].
    apply IH.
    + destruct rest; [simpl in Hlen; lia | discriminate].
    + simpl in Hlen. lia.
Qed.

(** With two rows or more the loop leaves before the last row. *)
Lemma str_rows_to_keep_skips_last (rows : DataFrame) (len n0 n : nat) (b : Z) :
  n0 + 1 < len ->
  str_rows_to_keep rows len n0 b = Ok n -> n < len.
Proof.
  revert n0 b. induction rows as [|[l row] rest IH]; intros n0 b Hn0 Hrun.
  - discriminate.
  - cbn [str_rows_to_keep] in Hrun. destruct (token_count row >? b)%Z.
    + inversion Hrun. lia.
    + destruct (Z.geb_spec (Z.of_nat (S n0)) (Z.of_nat len - 1)) as [Hge|Hlt].
      * inversion Hrun. lia.
      * apply IH in Hrun; [exact Hrun | lia].
Qed.

Lemma MetricObservation_str_nonempty (self : MetricObservation) :
  failure_exemplars self <> [] -> exists s, MetricObservation_str self = Ok s.
Proof.
  intros Hne. unfold MetricObservation_str.
  destruct (str_rows_to_keep_total (failure_exemplars self)
              (List.length (failure_exemplars self)) 0
              (example_token_budget self) Hne eq_refl) as [n Hn].
  rewrite Hn. simpl. destruct (n =? 0); eauto.
Qed.

Lemma MetricObservation_str_empty (self : MetricObservation) :
  failure_exemplars self = [] -> MetricObservation_str self = Raise IndexError.
Proof. intros H. unfold MetricObservation_str. rewrite H. reflexivity. Qed.

Lemma MetricObservation_str_never_all (self : MetricObservation) (n : nat) :
  2 <= List.length (failure_exemplars self) ->
  str_rows_to_keep (failure_exemplars self) (List.length (failure_exemplars self)) 0
                   (example_token_budget self) = Ok n ->
  n < List.length (failure_exemplars self).
Proof. intros H2. apply str_rows_to_keep_skips_last. lia. Qed.

Lemma str_rows_to_keep_all_fit (rows : DataFrame) :
  forall (len n0 : nat) (b : Z),
  2 <= List.length rows -> len = n0 + List.length rows ->
  rows_to_keep rows n0 b = len ->
  str_rows_to_keep rows len n0 b = Ok (len - 1).
Proof.
  induction rows as [|[l row] rest IH]; intros len n0 b H2 Hlen Hall.
  - cbn in H2. lia.
  - cbn [List.length] in H2, Hlen. cbn [rows_to_keep] in Hall.
    cbn [str_rows_to_keep].
    destruct (token_count row >? b)%Z; [lia|].
    destruct (Z.geb_spec (Z.of_nat (S n0)) (Z.of_nat len - 1)) as [Hge|Hlt].
    + f_equal. lia.
    + apply IH; [lia | lia | exact Hall].
Qed.

(** C6.  For an observation with two exemplar rows or more that all fit
    in its budget, the greedy rule keeps every row, and so does
    [budgeted_df_stringify], but [__str__] leaves its loop before the last
    row: it renders all the rows but the last. *)
Theorem MetricObservation_str_leaves_out_last_row (self : MetricObservation) :
  let rows := failure_exemplars self in
  let budget := example_token_budget self in
  2 <= List.length rows ->
  rows_to_keep rows 0 budget = List.length rows ->
  greedy_choice rows budget (List.length rows)
  /\ budgeted_df_stringify rows budget = safely_markdownify rows
  /\ MetricObservation_str self
     = Ok ("Summary: " ++ summary self ++ nl ++ "Failure Exemplars: "
           ++ safely_markdownify (removelast rows))%string.
Proof.
  intros rows budget H2 Hall. split; [|split].
  - rewrite <- Hall. apply rows_to_keep_greedy.
  - unfold budgeted_df_stringify. rewrite Hall.
    destruct (List.length rows =? 0) eqn:H0; [apply Nat.eqb_eq in H0; lia|].
    rewrite firstn_all. reflexivity.
  - unfold MetricObservation_str. fold rows. fold budget.
    rewrite (str_rows_to_keep_all_fit rows (List.length rows) 0 budget H2 eq_refl Hall).
    cbn [bind].
    destruct (List.length rows - 1 =? 0) eqn:H0; [apply Nat.eqb_eq in H0; lia|].
    rewrite removelast_firstn_len. replace (Nat.pred (List.length rows))
      with (List.length rows - 1) by lia. reflexivity.
Qed.

(** ** Lists, tables and loops *)

Lemma filter_length_lt {A : Type} (f : A -> bool) (l : list A) :
  List.length (filter f l) < List.length l <-> exists x, In x l /\ f x = false.
Proof.
  induction l as [|a l IH]; simpl.
  - split; [lia | intros (x & [] & _)].
  - pose proof (filter_length_le f l) as Hle.
    destruct (f a) eqn:Hfa; simpl.
    + rewrite <- Nat.succ_lt_mono, IH. split.
      * intros (x & Hin & Hx). eauto.
      * intros (x & [->|Hin] & Hx); [congruence | eauto].
    + split; [intros _; eauto | intros _; lia].
Qed.

Lemma find_combine_seq (l : list Row) (s label : nat) (x : Row) :
  s <= label -> nth_error l (label - s) = Some x ->
  find (fun r : nat * Row => fst r =? label) (combine (seq s (List.length l)) l)
  = Some (label, x).
Proof.
  revert s. induction l as [|y l IH]; intros s Hle Hnth.
  - destruct (label - s); discriminate.
  - simpl. destruct (Nat.eqb_spec s label) as [->|Hne].
    + rewrite Nat.sub_diag in Hnth. simpl in Hnth. congruence.
    + apply IH; [lia|].
      replace (label - s) with (S (label - S s)) in Hnth by lia. exact Hnth.
Qed.

Lemma loc_row_exemplars_to_df (rows : list Row) (label : nat) :
  label < List.length rows ->
  exists x, loc_row (exemplars_to_df rows) label = Ok (label, x).
Proof.
  intros Hlt. destruct (nth_error rows label) as [x|] eqn:Hnth.
  - exists x. unfold loc_row, exemplars_to_df.
    rewrite (find_combine_seq rows 0 label x); [reflexivity | lia |].
    rewrite Nat.sub_0_r. exact Hnth.
  - apply nth_error_None in Hnth. lia.
Qed.

Lemma loc_row_spec (df : DataFrame) (label : nat) (r : nat * Row) :
  loc_row df label = Ok r -> In r df /\ fst r = label.
Proof.
  unfold loc_row. destruct (find _ df) as [r'|] eqn:Hfind; [|discriminate].
  intros H. inversion H; subst r'. apply find_some in Hfind.
  destruct Hfind as [Hin Heq]. apply Nat.eqb_eq in Heq. auto.
Qed.

Lemma loc_spec (df : DataFrame) (labels : list nat) (rows : DataFrame) :
  loc df labels = Ok rows -> df_index rows = labels /\ incl rows df.
Proof.
  revert rows. induction labels as [|l labels IH]; intros rows; simpl.
  - intros H. inversion H. split; [reflexivity | intros x []].
  - destruct (loc_row df l) as [r|e] eqn:Hr; simpl; [|discriminate].
    destruct (loc df labels) as [rs|e] eqn:Hrs; simpl; [|discriminate].
    intros H. inversion H; subst rows.
    apply loc_row_spec in Hr. destruct Hr as [Hin Hfst].
    destruct (IH rs eq_refl) as [Hidx Hincl]. split.
    + unfold df_index in *. simpl. rewrite Hfst, Hidx. reflexivity.
    + intros x [<-|Hx]; [exact Hin | apply Hincl, Hx].
Qed.

Lemma loc_exemplars_to_df (rows : list Row) (labels : list nat) :
  (forall j, In j labels -> j < List.length rows) ->
  exists found, loc (exemplars_to_df rows) labels = Ok found.
Proof.
  induction labels as [|l labels IH]; intros Hall; simpl.
  - eauto.
  - destruct (loc_row_exemplars_to_df rows l) as [x Hx]; [apply Hall; simpl; auto|].
    destruct IH as [found Hfound]; [intros j Hj; apply Hall; simpl; auto|].
    rewrite Hx, Hfound. simpl. eauto.
Qed.

Lemma loc_no_label (df : DataFrame) : loc df [] = Ok [].
Proof. reflexivity. Qed.

Lemma item_app_old {A : Type} (xs ys : list A) (i : nat) (x : A) :
  item xs i = Ok x -> item (xs ++ ys) i = Ok x.
Proof.
  unfold item. destruct (nth_error xs i) as [a|] eqn:Hnth; [|discriminate].
  intros H. rewrite nth_error_app1; [rewrite Hnth; exact H|].
  apply nth_error_Some. congruence.
Qed.

Lemma item_Ok {A : Type} (xs : list A) (i : nat) (x : A) :
  item xs i = Ok x <-> nth_error xs i = Some x.
Proof.
  unfold item. destruct (nth_error xs i); split; intros H;
    inversion H; reflexivity.
Qed.

Lemma for_each_app {S X : Type} (body : S -> X -> result S) (xs ys : list X) (st : S) :
  for_each body (xs ++ ys) st = (st' <- for_each body xs st ;; for_each body ys st').
Proof.
  revert st. induction xs as [|x xs IH]; intros st; simpl; [reflexivity|].
  destruct (body st x); simpl; [apply IH | reflexivity].
Qed.

(** ** Proposing observations *)

Lemma propose_step_ok (gens : ProposeCompletions) (w : World)
      (acc : list MetricObservation) (i : nat) (text : field_value) (s : string) :
  let h := metric_observation_history w in
  devset_df h = exemplars_to_df (devset h) ->
  nth_error (indices_in_provided_failed_examples_that_exemplify_proposed_metric_observation
               gens) i = Some text ->
  safe_strip text <> [] ->
  nth_error (proposed_metric_observation_summary gens) i = Some s ->
  exists rows outs,
    loc (devset_df h) (citations_below (List.length (devset h)) text) = Ok rows
    /\ propose_step gens (w, acc) i
        = Ok ({| metric_observation_history := h; stdout := stdout w ++ outs;
                 next_oid := S (next_oid w); lm_calls := lm_calls w |},
              acc ++ [MetricObservation_init (next_oid w) s rows])
    /\ (outs = [] \/ outs = [invalid_indices_warning])
    /\ (In invalid_indices_warning outs
         <-> cites_out_of_range (List.length (devset h)) text).
Proof.
  intros h Hwf Htext Hne Hs.
  destruct (loc_exemplars_to_df (devset h)
              (citations_below (List.length (devset h)) text)) as [rows Hrows].
  { intros j Hj. unfold citations_below in Hj. apply filter_In in Hj.
    destruct Hj as [_ Hj]. apply Nat.ltb_lt in Hj. exact Hj. }
  rewrite <- Hwf in Hrows.
  assert (Hdrop :
    List.length (filter (fun index => index <? List.length (devset h)) (safe_strip text))
    < List.length (safe_strip text)
    <-> cites_out_of_range (List.length (devset h)) text).
  { rewrite filter_length_lt. unfold cites_out_of_range.
    split; intros (j & Hin & Hj); exists j; split; auto.
    - apply Nat.ltb_ge in Hj. exact Hj.
    - apply Nat.ltb_ge. exact Hj. }
  unfold propose_step. fold h.
  apply item_Ok in Htext. apply item_Ok in Hs.
  rewrite Htext. cbn [bind].
  destruct (List.length (safe_strip text) =? 0) eqn:Hlen.
  { apply Nat.eqb_eq, length_zero_iff_nil in Hlen. contradiction. }
  destruct (List.length (filter (fun index => index <? List.length (devset h))
                                (safe_strip text))
            <? List.length (safe_strip text)) eqn:Hwarn.
  - exists rows, [invalid_indices_warning].
    split; [exact Hrows|]. split; [|split].
    + cbn [print metric_observation_history]. fold h.
      rewrite Hs. cbn [bind]. unfold citations_below in Hrows. rewrite Hrows.
      reflexivity.
    + right. reflexivity.
    + apply Nat.ltb_lt in Hwarn. split; [intros _; apply Hdrop, Hwarn|].
      intros _. simpl. auto.
  - exists rows, [].
    split; [exact Hrows|]. split; [|split].
    + fold h. rewrite Hs. cbn [bind]. unfold citations_below in Hrows. rewrite Hrows.
      cbn [bind new_MetricObservation]. rewrite app_nil_r. reflexivity.
    + left. reflexivity.
    + apply Nat.ltb_ge in Hwarn. split; [intros []|].
      intros Hc. apply Hdrop in Hc. lia.
Qed.

Lemma propose_loop_ok (gens : ProposeCompletions) (h : MetricObservationHistory)
      (n : nat) :
  forall (k : nat) (w : World) (acc : list MetricObservation),
  metric_observation_history w = h ->
  devset_df h = exemplars_to_df (devset h) ->
  (forall i, k <= i < k + n ->
     exists text s,
       nth_error (indices_in_provided_failed_examples_that_exemplify_proposed_metric_observation
                    gens) i = Some text
       /\ safe_strip text <> []
       /\ nth_error (proposed_metric_observation_summary gens) i = Some s) ->
  exists news outs,
    for_each (propose_step gens) (seq k n) (w, acc)
    = Ok ({| metric_observation_history := h; stdout := stdout w ++ outs;
             next_oid := next_oid w + n; lm_calls := lm_calls w |},
          acc ++ news)
    /\ map oid news = seq (next_oid w) n
    /\ (forall j mo, nth_error news j = Some mo ->
         exists text,
           nth_error (indices_in_provided_failed_examples_that_exemplify_proposed_metric_observation
                        gens) (k + j) = Some text
           /\ nth_error (proposed_metric_observation_summary gens) (k + j)
               = Some (summary mo)
           /\ df_index (failure_exemplars mo)
               = citations_below (List.length (devset h)) text
           /\ incl (failure_exemplars mo) (devset_df h))
    /\ Forall (eq invalid_indices_warning) outs
    /\ (In invalid_indices_warning outs
         <-> exists i text,
               k <= i < k + n
               /\ nth_error (indices_in_provided_failed_examples_that_exemplify_proposed_metric_observation
                               gens) i = Some text
               /\ cites_out_of_range (List.length (devset h)) text).
Proof.
  induction n as [|n IH]; intros k w acc Hh Hwf Hall.
  - exists [], []. cbn [seq for_each]. rewrite !app_nil_r, Nat.add_0_r.
    destruct w; simpl in *; subst. repeat split; auto.
    + intros j mo Hj. destruct j; discriminate.
    + intros [].
    + intros (i & text & Hi & _). lia.
  - destruct (Hall k) as (text & s & Htext & Hne & Hs); [lia|].
    subst h.
    destruct (propose_step_ok gens w acc k text s Hwf Htext Hne Hs)
      as (rows & outs1 & Hrows & Hstep & Houts1 & Hwarn1).
    cbn [seq for_each]. rewrite Hstep. cbn [bind].
    set (w1 := {| metric_observation_history := metric_observation_history w;
                  stdout := stdout w ++ outs1;
                  next_oid := S (next_oid w); lm_calls := lm_calls w |}).
    destruct (IH (S k) w1 (acc ++ [MetricObservation_init (next_oid w) s rows]))
      as (news & outs & Hloop & Hoids & Hnews & Houts & Hwarn).
    { reflexivity. }
    { exact Hwf. }
    { intros i Hi. apply Hall. lia. }
    exists (MetricObservation_init (next_oid w) s rows :: news), (outs1 ++ outs).
    split; [|split; [|split; [|split]]].
    + rewrite Hloop. subst w1. cbn [stdout next_oid lm_calls metric_observation_history].
      rewrite <- !app_assoc. cbn [app].
      replace (S (next_oid w) + n) with (next_oid w + S n) by lia. reflexivity.
    + cbn [map seq oid MetricObservation_init]. f_equal. exact Hoids.
    + intros [|j] mo Hj.
      * cbn [nth_error] in Hj. inversion Hj; subst mo. exists text.
        rewrite Nat.add_0_r. cbn [summary failure_exemplars MetricObservation_init].
        apply loc_spec in Hrows. destruct Hrows as [Hidx Hincl]. auto.
      * cbn [nth_error] in Hj. destruct (Hnews j mo Hj) as (text' & H1 & H2 & H3 & H4).
        exists text'. replace (k + S j) with (S k + j) by lia. auto.
    + apply Forall_app. split; [|exact Houts].
      destruct Houts1 as [->| ->]; constructor; auto.
    + rewrite in_app_iff, Hwarn1, Hwarn. split.
      * intros [Hc|(i & text' & Hi & Ht & Hc)].
        -- exists k, text. split; [lia|]. auto.
        -- exists i, text'. split; [lia|]. auto.
      * intros (i & text' & Hi & Ht & Hc).
        destruct (Nat.eq_dec i k) as [->|Hik].
        -- left. congruence.
        -- right. exists i, text'. split; [lia|]. auto.
Qed.

Lemma contains_none_shown_sentinel (n : nat) :
  Text.contains "None Shown" (none_shown n) = true.
Proof. reflexivity. Qed.


(** C4.  When the rendering of the failing rows is the sentinel and the
    model returned a completion, line 255 replaces the index fields by empty
    lists, which parse to no index, and the call raises the validation
    error instead of making observations without exemplars. *)
Theorem propose_metric_observations_raises_on_sentinel (w : World) (instructions_ : string)
      (failed_on succeeded_on : DataFrame) (history_ : list EvaluationRecord) :
  let request := propose_request w instructions_ failed_on succeeded_on history_ in
  let gens := predict_propose (lm_calls w) request in
  Text.contains "None Shown"
    (sample_questions_the_current_instructions_fail_on request) = true ->
  proposed_metric_observation_summary gens <> [] ->
  indices_in_provided_failed_examples_that_exemplify_proposed_metric_observation gens
    <> [] ->
  propose_metric_observations w instructions_ failed_on succeeded_on history_
  = Raise (ValueError "Exemplar parsing failed").
Proof.
  intros request gens Hshown Hsum Hidx.
  unfold propose_metric_observations. fold request. rewrite Hshown. fold gens.
  cbn [force_empty_citations proposed_metric_observation_summary].
  destruct (proposed_metric_observation_summary gens) as [|s0 rest]; [congruence|].
  cbn [List.length seq for_each]. unfold propose_step at 1.
  cbn [indices_in_provided_failed_examples_that_exemplify_proposed_metric_observation
       force_empty_citations].
  destruct (indices_in_provided_failed_examples_that_exemplify_proposed_metric_observation
              gens) as [|t0 ts]; [congruence|].
  reflexivity.
Qed.

(** A completion without a digit run in its index field makes the call
    raise, also when the rendering is not the sentinel. *)
Lemma propose_loop_raises (gens : ProposeCompletions) (n : nat) :
  forall (k : nat) (w : World) (acc : list MetricObservation),
  let h := metric_observation_history w in
  devset_df h = exemplars_to_df (devset h) ->
  (forall i, k <= i < k + n ->
     exists text s,
       nth_error (indices_in_provided_failed_examples_that_exemplify_proposed_metric_observation
                    gens) i = Some text
       /\ nth_error (proposed_metric_observation_summary gens) i = Some s) ->
  (exists i text,
     k <= i < k + n
     /\ nth_error (indices_in_provided_failed_examples_that_exemplify_proposed_metric_observation
                     gens) i = Some text
     /\ safe_strip text = []) ->
  for_each (propose_step gens) (seq k n) (w, acc)
  = Raise (ValueError "Exemplar parsing failed").
Proof.
  induction n as [|n IH]; intros k w acc h Hwf Hall (i & text & Hi & Ht & Hempty).
  - lia.
  - cbn [seq for_each].
    destruct (Hall k) as (text0 & s0 & Ht0 & Hs0); [lia|].
    destruct (safe_strip text0) as [|j js] eqn:Hparse.
    + unfold propose_step at 1. apply item_Ok in Ht0. rewrite Ht0. cbn [bind].
      rewrite Hparse. reflexivity.
    + destruct (propose_step_ok gens w acc k text0 s0 Hwf Ht0) as
        (rows & outs & _ & Hstep & _); [rewrite Hparse; discriminate | exact Hs0 |].
      rewrite Hstep. cbn [bind]. apply IH.
      * exact Hwf.
      * intros i' Hi'. apply Hall. lia.
      * exists i, text. split; [|auto].
        destruct (Nat.eq_dec i k) as [->|Hne]; [|lia].
        rewrite Ht in Ht0. inversion Ht0; subst text0. congruence.
Qed.

Lemma propose_raises_on_empty_citation (w : World) (instructions_ : string)
      (failed_on succeeded_on : DataFrame) (history_ : list EvaluationRecord) :
  let h := metric_observation_history w in
  let request := propose_request w instructions_ failed_on succeeded_on history_ in
  let gens := predict_propose (lm_calls w) request in
  let texts :=
    indices_in_provided_failed_examples_that_exemplify_proposed_metric_observation gens in
  devset_df h = exemplars_to_df (devset h) ->
  Text.contains "None Shown"
    (sample_questions_the_current_instructions_fail_on request) = false ->
  List.length texts = List.length (proposed_metric_observation_summary gens) ->
  (exists text, In text texts /\ safe_strip text = []) ->
  propose_metric_observations w instructions_ failed_on succeeded_on history_
  = Raise (ValueError "Exemplar parsing failed").
Proof.
  intros h request gens texts Hwf Hshown Hlen (text & Hin & Hempty).
  unfold propose_metric_observations. fold request. rewrite Hshown. fold gens.
  rewrite (propose_loop_raises gens
             (List.length (proposed_metric_observation_summary gens)) 0
             (count_lm_call w) []); [reflexivity | exact Hwf | |].
  - intros i Hi. fold texts.
    destruct (nth_error texts i) as [t|] eqn:Ht; [|apply nth_error_None in Ht; lia].
    destruct (nth_error (proposed_metric_observation_summary gens) i) as [s0|] eqn:Hs;
      [|apply nth_error_None in Hs; lia].
    eauto.
  - apply In_nth_error in Hin. destruct Hin as [i Hi]. exists i, text.
    split; [|auto]. split; [lia|]. rewrite <- Hlen. apply nth_error_Some.
    fold texts. congruence.
Qed.

(** ** Consolidating observations *)

Lemma filter_all {A : Type} (f : A -> bool) (l : list A) :
  ~ List.length (filter f l) < List.length l -> filter f l = l.
Proof.
  induction l as [|a l IH]; simpl; [reflexivity|].
  pose proof (filter_length_le f l) as Hle.
  destruct (f a); simpl; intros H.
  - f_equal. apply IH. lia.
  - lia.
Qed.

Lemma filter_none {A : Type} (f : A -> bool) (l : list A) :
  (forall x, In x l -> f x = false) -> filter f l = [].
Proof.
  induction l as [|a l IH]; simpl; intros H; [reflexivity|].
  rewrite (H a) by auto. apply IH. auto.
Qed.

(** What one turn of the loop of lines 277-284 does when it does not
    raise. *)
Lemma reconcile_step_inv (gens : ReconcileCompletions) (w w' : World) (i : nat) :
  let h := metric_observation_history w in
  let used := previous_generations_metric_observations_used h in
  reconcile_step gens w i = Ok w' ->
  exists text s parents rows outs,
    nth_error (reconciled_metric_observation_failure_exemplars gens) i = Some text
    /\ nth_error (reconciled_metric_observation_summaries gens) i = Some s
    /\ items used (citations_below (List.length used) text) = Ok parents
    /\ loc (devset_df h)
           (list_of_set (flat_map (fun mo => df_index (failure_exemplars mo)) parents))
        = Ok rows
    /\ w' = {| metric_observation_history :=
                 set_used h (used ++ [MetricObservation_init (next_oid w) s rows]);
               stdout := stdout w ++ outs;
               next_oid := S (next_oid w);
               lm_calls := lm_calls w |}.
Proof.
  intros h used. unfold reconcile_step. fold h. fold used.
  destruct (item (reconciled_metric_observation_failure_exemplars gens) i)
    as [text|e] eqn:Htext; cbn [bind]; [|discriminate].
  set (invalid := List.length (filter (fun j => j <? List.length used) (safe_strip text))
                  <? List.length (safe_strip text)).
  assert (Hsame : (if invalid
                   then filter (fun j => j <? List.length used) (safe_strip text)
                   else safe_strip text)
                  = citations_below (List.length used) text).
  { unfold citations_below. destruct invalid eqn:Hinv; [reflexivity|].
    symmetry. apply filter_all. apply Nat.ltb_ge in Hinv. lia. }
  rewrite Hsame.
  destruct (items used (citations_below (List.length used) text))
    as [parents|e] eqn:Hparents; cbn [bind]; [|discriminate].
  destruct (item (reconciled_metric_observation_summaries gens) i)
    as [s|e] eqn:Hs; cbn [bind]; [|discriminate].
  destruct (loc (devset_df h) _) as [rows|e] eqn:Hrows; cbn [bind]; [|discriminate].
  intros H. inversion H; subst w'; clear H.
  apply item_Ok in Htext. apply item_Ok in Hs.
  exists text, s, parents, rows, (if invalid then [invalid_indices_warning] else []).
  repeat split; auto.
  destruct invalid; cbn; [reflexivity|]. rewrite app_nil_r. reflexivity.
Qed.

(** The exemplar rows of an observation made by consolidation are the rows
    whose labels are those of the exemplars of the parents cited, each label
    once. *)
Lemma reconcile_step_union (gens : ReconcileCompletions) (w w' : World) (i : nat) :
  let h := metric_observation_history w in
  let used := previous_generations_metric_observations_used h in
  (forall xs x, In x (list_of_set xs) <-> In x xs) ->
  reconcile_step gens w i = Ok w' ->
  exists text parents mo,
    nth_error (reconciled_metric_observation_failure_exemplars gens) i = Some text
    /\ items used (citations_below (List.length used) text) = Ok parents
    /\ previous_generations_metric_observations_used (metric_observation_history w')
        = used ++ [mo]
    /\ forall label,
          In label (df_index (failure_exemplars mo))
          <-> exists parent, In parent parents
                             /\ In label (df_index (failure_exemplars parent)).
Proof.
  intros h used Hset Hrun. apply reconcile_step_inv in Hrun.
  destruct Hrun as (text & s & parents & rows & outs & Ht & _ & Hparents & Hrows & ->).
  exists text, parents, (MetricObservation_init (next_oid w) s rows).
  split; [exact Ht|]. split; [exact Hparents|]. split; [reflexivity|].
  intros label. cbn [failure_exemplars MetricObservation_init].
  apply loc_spec in Hrows. destruct Hrows as [-> _].
  rewrite Hset, in_flat_map. reflexivity.
Qed.

Lemma reconcile_loop_inv (gens : ReconcileCompletions) (n : nat) :
  forall (k : nat) (w w' : World),
  for_each (reconcile_step gens) (seq k n) w = Ok w' ->
  let h := metric_observation_history w in
  let h' := metric_observation_history w' in
  exists news,
    previous_generations_metric_observations_used h'
    = previous_generations_metric_observations_used h ++ news
    /\ map oid news = seq (next_oid w) n
    /\ previous_generations_metric_observations_unused h'
        = previous_generations_metric_observations_unused h
    /\ current_generation_metric_observations h'
        = current_generation_metric_observations h
    /\ next_oid w' = next_oid w + n.
Proof.
  induction n as [|n IH]; intros k w w' Hrun; cbn [seq for_each] in Hrun.
  - inversion Hrun; subst w'. exists []. rewrite app_nil_r, Nat.add_0_r. auto.
  - destruct (reconcile_step gens w k) as [w1|e] eqn:Hstep; cbn [bind] in Hrun;
      [|discriminate].
    apply reconcile_step_inv in Hstep.
    destruct Hstep as (text & s & parents & rows & outs & _ & _ & _ & _ & Hw1).
    apply IH in Hrun. destruct Hrun as (news & Hused & Hoids & Hunused & Hcur & Hnext).
    subst w1. cbn in Hused, Hoids, Hunused, Hcur, Hnext.
    exists (MetricObservation_init (next_oid w) s rows :: news).
    cbn [map seq oid MetricObservation_init].
    rewrite Hused, Hoids, Hunused, Hcur, Hnext, <- app_assoc.
    repeat split; auto; lia.
Qed.

(** What [update_metric_observations] does when it is triggered and does
    not raise: the observations used before stay in [used], in front of the
    new ones, and are also appended to [unused]. *)
Lemma update_triggered (w w' : World) :
  let h := metric_observation_history w in
  let h' := metric_observation_history w' in
  max_metric_observations h
  < List.length (previous_generations_metric_observations_used h) ->
  update_metric_observations w = Ok w' ->
  exists news,
    previous_generations_metric_observations_used h'
    = previous_generations_metric_observations_used h ++ news
    /\ NoDup (map oid news)
    /\ (forall mo, In mo news -> next_oid w <= oid mo < next_oid w')
    /\ previous_generations_metric_observations_unused h'
        = previous_generations_metric_observations_unused h
          ++ previous_generations_metric_observations_used h
    /\ current_generation_metric_observations h'
        = current_generation_metric_observations h
    /\ List.length news
        = List.length (reconciled_metric_observation_summaries
                         (predict_reconcile (lm_calls w) (reconcile_request h))).
Proof.
  intros h h' Hmax. unfold update_metric_observations. fold h.
  apply Nat.ltb_lt in Hmax. rewrite Hmax. intros Hrun.
  apply reconcile_loop_inv in Hrun.
  destruct Hrun as (news & Hused & Hoids & Hunused & Hcur & Hnext).
  cbn in Hused, Hoids, Hunused, Hcur, Hnext. exists news.
  split; [exact Hused|]. split; [rewrite Hoids; apply seq_NoDup|].
  split; [|split; [exact Hunused | split; [exact Hcur|]]].
  - intros mo Hin. apply (in_map oid) in Hin. rewrite Hoids in Hin.
    apply in_seq in Hin. fold h' in Hnext. lia.
  - apply (f_equal (@List.length nat)) in Hoids.
    rewrite length_map, length_seq in Hoids. exact Hoids.
Qed.

Lemma update_idle (w : World) :
  let h := metric_observation_history w in
  List.length (previous_generations_metric_observations_used h)
  <= max_metric_observations h ->
  update_metric_observations w = Ok w.
Proof.
  intros h Hle. unfold update_metric_observations. fold h.
  apply Nat.ltb_ge in Hle. rewrite Hle. reflexivity.
Qed.

(** C1.  In every state over the limit in which
    [update_metric_observations] returns, the observations used before are
    all still in [used], in front of one new observation per completion
    (they were copied to [unused], not moved), so [used] ends longer than
    it was, and longer than half the limit. *)
Theorem update_metric_observations_keeps_used (w w' : World) :
  let h := metric_observation_history w in
  let h' := metric_observation_history w' in
  let used := previous_generations_metric_observations_used h in
  let used' := previous_generations_metric_observations_used h' in
  max_metric_observations h < List.length used ->
  update_metric_observations w = Ok w' ->
  exists news,
    used' = used ++ news
    /\ List.length news
        = List.length (reconciled_metric_observation_summaries
                         (predict_reconcile (lm_calls w) (reconcile_request h)))
    /\ previous_generations_metric_observations_unused h'
        = previous_generations_metric_observations_unused h ++ used
    /\ (forall mo, In mo used -> In mo used')
    /\ max_metric_observations h / 2 < List.length used'.
Proof.
  intros h h' used used' Hmax Hrun.
  destruct (update_triggered w w' Hmax Hrun)
    as (news & Hused & _ & _ & Hunused & _ & Hlen).
  exists news. fold h h' in Hused, Hunused. fold used used' in Hused, Hunused.
  split; [exact Hused|]. split; [exact Hlen|]. split; [exact Hunused|]. split.
  - intros mo Hmo. rewrite Hused. apply in_or_app. left. exact Hmo.
  - rewrite Hused, length_app.
    pose proof (Nat.Div0.div_le_upper_bound (max_metric_observations h) 2
                  (max_metric_observations h)) as Hdiv.
    assert (max_metric_observations h / 2 <= max_metric_observations h).
    { apply Nat.Div0.div_le_upper_bound. lia. }
    lia.
Qed.

Lemma reconcile_step_no_parent (gens : ReconcileCompletions) (w : World) (i : nat)
      (text : field_value) (s : string) :
  let h := metric_observation_history w in
  let used := previous_generations_metric_observations_used h in
  list_of_set [] = [] ->
  nth_error (reconciled_metric_observation_failure_exemplars gens) i = Some text ->
  nth_error (reconciled_metric_observation_summaries gens) i = Some s ->
  (forall j, In j (safe_strip text) -> List.length used <= j) ->
  exists outs,
    reconcile_step gens w i
    = Ok {| metric_observation_history :=
              set_used h (used ++ [MetricObservation_init (next_oid w) s []]);
            stdout := stdout w ++ outs;
            next_oid := S (next_oid w);
            lm_calls := lm_calls w |}.
Proof.
  intros h used Hset Htext Hs Hout.
  assert (Hnone : filter (fun j => j <? List.length used) (safe_strip text) = []).
  { apply filter_none. intros j Hj. apply Nat.ltb_ge. apply Hout, Hj. }
  unfold reconcile_step. fold h. fold used.
  apply item_Ok in Htext. apply item_Ok in Hs.
  rewrite Htext. cbn [bind]. rewrite Hnone. cbn [List.length].
  destruct (0 <? List.length (safe_strip text)) eqn:Hinv.
  - cbn [items bind flat_map]. rewrite Hs, Hset. cbn.
    exists [invalid_indices_warning]. reflexivity.
  - apply Nat.ltb_ge in Hinv.
    assert (Hnil : safe_strip text = []).
    { apply length_zero_iff_nil. lia. }
    rewrite Hnil. cbn [items bind flat_map]. rewrite Hs, Hset. cbn.
    exists []. rewrite app_nil_r. reflexivity.
Qed.

Lemma reconcile_loop_no_parent (gens : ReconcileCompletions) (n : nat) :
  forall (k : nat) (w : World),
  list_of_set [] = [] ->
  (forall i, k <= i < k + n ->
     exists text s,
       nth_error (reconciled_metric_observation_failure_exemplars gens) i = Some text
       /\ nth_error (reconciled_metric_observation_summaries gens) i = Some s
       /\ forall j, In j (safe_strip text) ->
             List.length (previous_generations_metric_observations_used
                            (metric_observation_history w)) + n <= j) ->
  exists w' news,
    for_each (reconcile_step gens) (seq k n) w = Ok w'
    /\ previous_generations_metric_observations_used (metric_observation_history w')
        = previous_generations_metric_observations_used (metric_observation_history w)
          ++ news
    /\ List.length news = n
    /\ Forall (fun mo => failure_exemplars mo = []) news.
Proof.
  induction n as [|n IH]; intros k w Hset Hall; cbn [seq for_each].
  - exists w, []. rewrite app_nil_r. auto.
  - destruct (Hall k) as (text & s & Htext & Hs & Hout); [lia|].
    destruct (reconcile_step_no_parent gens w k text s Hset Htext Hs) as [outs Hstep].
    { intros j Hj. apply Hout in Hj. lia. }
    rewrite Hstep. cbn [bind].
    match goal with |- context [for_each _ _ ?w1] => set (w1' := w1) end.
    destruct (IH (S k) w1' Hset) as (w' & news & Hrun & Hused & Hlen & Hempty).
    { intros i Hi. destruct (Hall i) as (t & s' & Ht & Hs' & Ho); [lia|].
      exists t, s'. repeat split; auto. intros j Hj. apply Ho in Hj.
      subst w1'. cbn. rewrite length_app. cbn. lia. }
    exists w', (MetricObservation_init (next_oid w) s [] :: news).
    split; [exact Hrun|]. split; [|split].
    + rewrite Hused. subst w1'. cbn. rewrite <- app_assoc. reflexivity.
    + cbn. lia.
    + constructor; [reflexivity | exact Hempty].
Qed.

(** C10.  [__str__] reads the first exemplar row before it looks at the
    number of rows: it returns a text for every observation with at least
    one exemplar row and raises [IndexError] for an observation with none.
    Such an observation is made by consolidation: when the history is over
    its limit and no completion cites a parent in range, the call returns
    and every observation it appends to [used] has no exemplar row, so that
    rendering it raises. *)
Theorem MetricObservation_str_needs_a_row :
  list_of_set [] = [] ->
  (forall self, failure_exemplars self <> [] ->
                exists s, MetricObservation_str self = Ok s)
  /\ (forall self, failure_exemplars self = [] ->
                   MetricObservation_str self = Raise IndexError)
  /\ (forall w,
        let h := metric_observation_history w in
        let used := previous_generations_metric_observations_used h in
        let gens := predict_reconcile (lm_calls w) (reconcile_request h) in
        max_metric_observations h < List.length used ->
        List.length (reconciled_metric_observation_failure_exemplars gens)
        = List.length (reconciled_metric_observation_summaries gens) ->
        (forall text j,
            In text (reconciled_metric_observation_failure_exemplars gens) ->
            In j (safe_strip text) ->
            List.length used
            + List.length (reconciled_metric_observation_summaries gens) <= j) ->
        exists w' news,
          update_metric_observations w = Ok w'
          /\ previous_generations_metric_observations_used
               (metric_observation_history w') = used ++ news
          /\ List.length news
              = List.length (reconciled_metric_observation_summaries gens)
          /\ forall mo, In mo news ->
                failure_exemplars mo = []
                /\ MetricObservation_str mo = Raise IndexError).
Proof.
  intros Hset. split; [|split].
  - apply MetricObservation_str_nonempty.
  - apply MetricObservation_str_empty.
  - intros w h used gens Hmax Hlen Hout.
    unfold update_metric_observations. fold h. fold used.
    apply Nat.ltb_lt in Hmax. rewrite Hmax. fold gens.
    match goal with |- context [for_each _ _ ?w1] => set (w1' := w1) end.
    destruct (reconcile_loop_no_parent gens
                (List.length (reconciled_metric_observation_summaries gens)) 0 w1' Hset)
      as (w' & news & Hrun & Hused & Hn & Hempty).
    { intros i Hi.
      destruct (nth_error (reconciled_metric_observation_failure_exemplars gens) i)
        as [text|] eqn:Ht; [|apply nth_error_None in Ht; lia].
      destruct (nth_error (reconciled_metric_observation_summaries gens) i)
        as [s0|] eqn:Hs; [|apply nth_error_None in Hs; lia].
      exists text, s0. repeat split; auto.
      intros j Hj. subst w1'. cbn. fold used. eapply Hout; eauto.
      eapply nth_error_In; eauto. }
    exists w', news. split; [exact Hrun|]. split; [exact Hused|]. split; [exact Hn|].
    intros mo Hin. rewrite Forall_forall in Hempty. specialize (Hempty mo Hin).
    split; [exact Hempty | apply MetricObservation_str_empty, Hempty].
Qed.

(** ** The three sets of the history *)

Lemma propose_step_inv (gens : ProposeCompletions) (w w' : World)
      (acc acc' : list MetricObservation) (i : nat) :
  propose_step gens (w, acc) i = Ok (w', acc') ->
  metric_observation_history w' = metric_observation_history w
  /\ next_oid w' = S (next_oid w)
  /\ exists mo, acc' = acc ++ [mo] /\ oid mo = next_oid w.
Proof.
  unfold propose_step.
  destruct (item _ i) as [text|e]; cbn [bind]; [|discriminate].
  destruct (List.length (safe_strip text) =? 0); [discriminate|].
  destruct (item (proposed_metric_observation_summary gens) i) as [s|e];
    cbn [bind]; [|discriminate].
  match goal with
  | |- context [loc ?df ?ls] => destruct (loc df ls) as [rows|e]
  end; cbn [bind]; [|discriminate].
  intros H. inversion H; subst w' acc'; clear H.
  destruct (_ <? _); cbn; eauto.
Qed.

Lemma propose_loop_inv (gens : ProposeCompletions) (n : nat) :
  forall (k : nat) (w w' : World) (acc acc' : list MetricObservation),
  for_each (propose_step gens) (seq k n) (w, acc) = Ok (w', acc') ->
  metric_observation_history w' = metric_observation_history w
  /\ next_oid w' = next_oid w + n
  /\ exists news, acc' = acc ++ news /\ map oid news = seq (next_oid w) n.
Proof.
  induction n as [|n IH]; intros k w w' acc acc' Hrun; cbn [seq for_each] in Hrun.
  - inversion Hrun; subst. rewrite Nat.add_0_r. repeat split; auto.
    exists []. rewrite app_nil_r. auto.
  - destruct (propose_step gens (w, acc) k) as [[w1 acc1]|e] eqn:Hstep;
      cbn [bind] in Hrun; [|discriminate].
    apply propose_step_inv in Hstep. destruct Hstep as (Hh & Hnext & mo & -> & Hoid).
    apply IH in Hrun. destruct Hrun as (Hh' & Hnext' & news & -> & Hoids).
    rewrite Hh', Hh, Hnext', Hnext. split; [reflexivity|]. split; [lia|].
    exists (mo :: news). rewrite <- app_assoc. split; [reflexivity|].
    cbn [map seq]. rewrite Hoid, Hoids, Hnext. reflexivity.
Qed.

(** [propose_metric_observations] keeps the three sets apart: the new
    observations are new objects, and the former [current] ones move to
    [used]. *)
Lemma propose_keeps_sets_disjoint (w w' : World) (instructions_ : string)
      (failed_on succeeded_on : DataFrame) (history_ : list EvaluationRecord) :
  sets_disjoint w ->
  propose_metric_observations w instructions_ failed_on succeeded_on history_ = Ok w' ->
  sets_disjoint w'.
Proof.
  intros [Hnodup Hbound]. unfold propose_metric_observations.
  match goal with
  | |- context [for_each ?f ?xs ?st] => destruct (for_each f xs st) as [[w1 news]|e] eqn:Hrun
  end; cbn [bind]; [|discriminate].
  apply propose_loop_inv in Hrun.
  destruct Hrun as (Hh & Hnext & news' & Hnews & Hoids). cbn [app] in Hnews. subst news'.
  cbn [count_lm_call metric_observation_history next_oid] in Hh, Hnext, Hoids.
  intros H. inversion H; subst w'; clear H.
  unfold sets_disjoint, history_oids in *.
  cbn [print set_history set_current set_used metric_observation_history next_oid
       current_generation_metric_observations
       previous_generations_metric_observations_used
       previous_generations_metric_observations_unused].
  rewrite Hh, Hnext.
  set (cur := current_generation_metric_observations (metric_observation_history w)) in *.
  set (used := previous_generations_metric_observations_used
                 (metric_observation_history w)) in *.
  set (unused := previous_generations_metric_observations_unused
                   (metric_observation_history w)) in *.
  assert (Hperm : Permutation (map oid (cur ++ used ++ unused))
                              (map oid ((used ++ cur) ++ unused))).
  { apply Permutation_map. rewrite app_assoc. apply Permutation_app_tail.
    apply Permutation_app_comm. }
  split.
  - rewrite map_app. apply NoDup_app.
    + rewrite Hoids. apply seq_NoDup.
    + eapply Permutation_NoDup; eauto.
    + intros o Hnew Hold. rewrite Hoids in Hnew. apply in_seq in Hnew.
      apply (Permutation_in _ (Permutation_sym Hperm)) in Hold.
      apply Hbound in Hold. lia.
  - intros o Hin. rewrite map_app in Hin. apply in_app_or in Hin.
    destruct Hin as [Hnew|Hold].
    + rewrite Hoids in Hnew. apply in_seq in Hnew. lia.
    + apply (Permutation_in _ (Permutation_sym Hperm)) in Hold.
      apply Hbound in Hold. lia.
Qed.

(** When [used] holds an observation and consolidation is triggered, the
    sets are no longer apart after it. *)
Lemma update_breaks_sets_disjoint (w w' : World) :
  let h := metric_observation_history w in
  max_metric_observations h
  < List.length (previous_generations_metric_observations_used h) ->
  update_metric_observations w = Ok w' ->
  ~ sets_disjoint w'.
Proof.
  intros h Hmax Hrun [Hnodup _].
  destruct (update_triggered w w' Hmax Hrun) as (news & Hused & _ & _ & Hunused & _).
  unfold history_oids in Hnodup. rewrite Hused, Hunused in Hnodup. fold h in Hnodup.
  destruct (previous_generations_metric_observations_used h) as [|mo used] eqn:Hu.
  { cbn in Hmax. lia. }
  rewrite map_app in Hnodup. apply NoDup_app_remove_l in Hnodup.
  rewrite !map_app in Hnodup. cbn [map app] in Hnodup.
  inversion Hnodup as [|? ? Hnotin _]; subst. apply Hnotin.
  rewrite !in_app_iff. right. right. simpl. auto.
Qed.

(** C2.  [update_metric_observations], when it is triggered and returns,
    does not keep the three sets apart: from a state in which every
    observation belongs to exactly one set it leads to a state in which
    every observation that was in [used] is in [used] and in [unused]. *)
Theorem update_metric_observations_overlaps_sets (w w' : World) :
  let h := metric_observation_history w in
  let h' := metric_observation_history w' in
  sets_disjoint w ->
  max_metric_observations h
  < List.length (previous_generations_metric_observations_used h) ->
  update_metric_observations w = Ok w' ->
  ~ sets_disjoint w'
  /\ forall mo, In mo (previous_generations_metric_observations_used h) ->
        In mo (previous_generations_metric_observations_used h')
        /\ In mo (previous_generations_metric_observations_unused h').
Proof.
  intros h h' _ Hmax Hrun. split.
  - apply (update_breaks_sets_disjoint w w' Hmax Hrun).
  - destruct (update_triggered w w' Hmax Hrun) as (news & Hused & _ & _ & Hunused & _).
    fold h h' in Hused, Hunused.
    intros mo Hmo. rewrite Hused, Hunused. split; apply in_or_app.
    + left. exact Hmo.
    + right. exact Hmo.
Qed.

(** ** The candidate store *)

Lemma key_eqb_eq (k1 k2 : CandidateKey) : key_eqb k1 k2 = true <-> k1 = k2.
Proof.
  destruct k1 as [i1 p1], k2 as [i2 p2]. unfold key_eqb. cbn [fst snd].
  rewrite andb_true_iff, !String.eqb_eq. split.
  - intros [-> ->]. reflexivity.
  - intros H. inversion H. auto.
Qed.

Lemma key_eqb_refl (k : CandidateKey) : key_eqb k k = true.
Proof. apply key_eqb_eq. reflexivity. Qed.

Lemma key_eqb_neq (k1 k2 : CandidateKey) : k1 <> k2 -> key_eqb k1 k2 = false.
Proof.
  intros Hne. destruct (key_eqb k1 k2) eqn:H; [|reflexivity].
  apply key_eqb_eq in H. contradiction.
Qed.

Lemma dict_get_set_same (k : CandidateKey) (v : EvaluationRecord) (d : CandidateStore) :
  dict_get k (dict_set k v d) = Some v.
Proof.
  induction d as [|[k' v'] d IH]; cbn [dict_set dict_get].
  - rewrite key_eqb_refl. reflexivity.
  - destruct (key_eqb k k') eqn:Hk; cbn [dict_get]; rewrite Hk; auto.
Qed.

Lemma dict_get_set_other (k k' : CandidateKey) (v : EvaluationRecord)
      (d : CandidateStore) :
  k' <> k -> dict_get k' (dict_set k v d) = dict_get k' d.
Proof.
  intros Hne. induction d as [|[k0 v0] d IH]; cbn [dict_set dict_get].
  - rewrite key_eqb_neq by exact Hne. reflexivity.
  - destruct (key_eqb k k0) eqn:Hk; cbn [dict_get].
    + apply key_eqb_eq in Hk. subst k0. rewrite key_eqb_neq by exact Hne. reflexivity.
    + destruct (key_eqb k' k0); auto.
Qed.

Lemma dict_set_absent (k : CandidateKey) (v : EvaluationRecord) (d : CandidateStore) :
  dict_get k d = None -> dict_set k v d = d ++ [(k, v)].
Proof.
  induction d as [|[k' v'] d IH]; cbn [dict_set dict_get app]; [reflexivity|].
  destruct (key_eqb k k'); [discriminate|]. intros H. rewrite IH by exact H. reflexivity.
Qed.

Lemma dict_set_present_keys (k : CandidateKey) (v v0 : EvaluationRecord)
      (d : CandidateStore) :
  dict_get k d = Some v0 -> map fst (dict_set k v d) = map fst d.
Proof.
  induction d as [|[k' v'] d IH]; cbn [dict_set dict_get]; [discriminate|].
  destruct (key_eqb k k'); cbn [map fst]; [reflexivity|].
  intros H. rewrite IH by exact H. reflexivity.
Qed.

Lemma dict_get_In (k : CandidateKey) (v : EvaluationRecord) (d : CandidateStore) :
  dict_get k d = Some v -> In v (dict_values d).
Proof.
  induction d as [|[k' v'] d IH]; cbn [dict_get dict_values map snd]; [discriminate|].
  destruct (key_eqb k k').
  - intros H. inversion H. left. reflexivity.
  - intros H. right. apply IH, H.
Qed.

Lemma In_dict_set (k : CandidateKey) (v x : EvaluationRecord) (d : CandidateStore) :
  In x (dict_values (dict_set k v d)) -> x = v \/ In x (dict_values d).
Proof.
  induction d as [|[k' v'] d IH]; cbn [dict_set dict_values map snd].
  - intros [H|[]]. auto.
  - destruct (key_eqb k k'); cbn [map snd].
    + intros [H|H]; [auto | right; right; exact H].
    + intros [H|H]; [right; left; exact H|].
      apply IH in H. destruct H; [auto | right; right; assumption].
Qed.

Lemma fold_first_max {A : Type} (key : A -> Z) (rest : list A) :
  forall (done : list A) (cur : A),
  first_max key done cur ->
  first_max key (done ++ rest)
            (fold_left (fun best y => if (key y >? key best)%Z then y else best) rest cur).
Proof.
  induction rest as [|y rest IH]; intros done cur Hcur; cbn [fold_left].
  - rewrite app_nil_r. exact Hcur.
  - replace (done ++ y :: rest) with ((done ++ [y]) ++ rest)
      by (rewrite <- app_assoc; reflexivity).
    apply IH. destruct Hcur as (before & after & Hdone & Hbefore & Hafter).
    destruct (Z.gtb_spec (key y) (key cur)) as [Hgt|Hle].
    + exists done, []. split; [reflexivity|]. split; [|intros z []].
      intros z Hz. subst done. apply in_app_or in Hz.
      destruct Hz as [Hz|[<-|Hz]].
      * specialize (Hbefore z Hz). lia.
      * exact Hgt.
      * specialize (Hafter z Hz). lia.
    + exists before, (after ++ [y]). split; [|split].
      * subst done. rewrite <- app_assoc. reflexivity.
      * exact Hbefore.
      * intros z Hz. apply in_app_or in Hz. destruct Hz as [Hz|[<-|[]]]; auto.
Qed.

Lemma py_max_first_max {A : Type} (key : A -> Z) (xs : list A) (best : A) :
  py_max key xs = Ok best -> first_max key xs best.
Proof.
  destruct xs as [|x rest]; cbn [py_max]; [discriminate|].
  intros H. inversion H; subst best; clear H.
  apply (fold_first_max key rest [x] x).
  exists [], []. split; [reflexivity|]. split; intros z [].
Qed.

Lemma first_max_is_max {A : Type} (key : A -> Z) (xs : list A) (best : A) :
  first_max key xs best -> In best xs /\ forall y, In y xs -> (key y <= key best)%Z.
Proof.
  intros (before & after & -> & Hbefore & Hafter). split.
  - apply in_elt.
  - intros y Hy. apply in_app_or in Hy. destruct Hy as [Hy|[<-|Hy]].
    + specialize (Hbefore y Hy). lia.
    + lia.
    + auto.
Qed.

Lemma record_absent (store : CandidateStore) (i p : string) (s : Score)
      (m : Program) (d : nat) :
  dict_get (i, p) store = None ->
  record_candidate store i p s m d
  = store ++ [((i, p), {| score := s; program := m; instruction := i;
                          prefix := p; depth := d |})].
Proof.
  intros H. unfold record_candidate. rewrite H. apply dict_set_absent, H.
Qed.

Lemma record_not_better (store : CandidateStore) (i p : string) (s : Score)
      (m : Program) (d : nat) (stored : EvaluationRecord) :
  dict_get (i, p) store = Some stored -> (s <= score stored)%Z ->
  record_candidate store i p s m d = store.
Proof.
  intros H Hle. unfold record_candidate. rewrite H.
  destruct (Z.geb_spec (score stored) s); [reflexivity | lia].
Qed.

Lemma record_better (store : CandidateStore) (i p : string) (s : Score)
      (m : Program) (d : nat) (stored : EvaluationRecord) :
  dict_get (i, p) store = Some stored -> (score stored < s)%Z ->
  record_candidate store i p s m d
  = dict_set (i, p) {| score := s; program := m; instruction := i;
                       prefix := p; depth := d |} store.
Proof.
  intros H Hlt. unfold record_candidate. rewrite H.
  destruct (Z.geb_spec (score stored) s); [lia | reflexivity].
Qed.

Lemma record_get (store : CandidateStore) (i p : string) (s : Score)
      (m : Program) (d : nat) :
  exists v, dict_get (i, p) (record_candidate store i p s m d) = Some v
            /\ (s <= score v)%Z.
Proof.
  destruct (dict_get (i, p) store) as [stored|] eqn:Hget.
  - destruct (Z.le_gt_cases s (score stored)) as [Hle|Hgt].
    + rewrite (record_not_better store i p s m d stored Hget Hle). eauto.
    + rewrite (record_better store i p s m d stored Hget) by lia.
      rewrite dict_get_set_same. eexists. split; [reflexivity|]. cbn. lia.
  - rewrite (record_absent store i p s m d Hget), <- (dict_set_absent _ _ _ Hget).
    rewrite dict_get_set_same. eexists. split; [reflexivity|]. cbn. lia.
Qed.

Lemma record_idempotent (store : CandidateStore) (i p : string) (s : Score)
      (m : Program) (d : nat) :
  record_candidate (record_candidate store i p s m d) i p s m d
  = record_candidate store i p s m d.
Proof.
  destruct (record_get store i p s m d) as (v & Hget & Hle).
  apply (record_not_better _ i p s m d v Hget Hle).
Qed.

Lemma record_monotone (store : CandidateStore) (i p : string) (s : Score)
      (m : Program) (d : nat) (k : CandidateKey) (v : EvaluationRecord) :
  dict_get k store = Some v ->
  exists v', dict_get k (record_candidate store i p s m d) = Some v'
             /\ (score v <= score v')%Z.
Proof.
  intros Hk. unfold record_candidate.
  destruct (dict_get (i, p) store) as [stored|] eqn:Hget.
  - destruct (Z.geb_spec (score stored) s) as [Hge|Hlt].
    + exists v. split; [exact Hk | lia].
    + destruct (key_eqb k (i, p)) eqn:Hkey.
      * apply key_eqb_eq in Hkey. subst k. rewrite dict_get_set_same.
        eexists. split; [reflexivity|]. cbn. rewrite Hget in Hk. inversion Hk; subst. lia.
      * rewrite dict_get_set_other.
        -- exists v. split; [exact Hk | lia].
        -- intros ->. rewrite key_eqb_refl in Hkey. discriminate.
  - destruct (key_eqb k (i, p)) eqn:Hkey.
    + apply key_eqb_eq in Hkey. subst k. congruence.
    + rewrite dict_get_set_other.
      * exists v. split; [exact Hk | lia].
      * intros ->. rewrite key_eqb_refl in Hkey. discriminate.
Qed.

Lemma record_values (store : CandidateStore) (i p : string) (s : Score)
      (m : Program) (d : nat) (x : EvaluationRecord) :
  In x (dict_values (record_candidate store i p s m d)) ->
  x = {| score := s; program := m; instruction := i; prefix := p; depth := d |}
  \/ In x (dict_values store).
Proof.
  unfold record_candidate.
  destruct (match dict_get (i, p) store with
            | Some stored => if (score stored >=? s)%Z then false else true
            | None => true
            end); [apply In_dict_set | auto].
Qed.

Lemma record_all_app (evs1 evs2 : list EvaluationRecord) (store : CandidateStore) :
  record_all (evs1 ++ evs2) store = record_all evs2 (record_all evs1 store).
Proof. apply fold_left_app. Qed.

Lemma record_all_covers (evs : list EvaluationRecord) :
  forall store,
  (forall r, In r evs ->
     exists v, dict_get (instruction r, prefix r) (record_all evs store) = Some v
               /\ (score r <= score v)%Z)
  /\ (forall k v, dict_get k store = Some v ->
        exists v', dict_get k (record_all evs store) = Some v'
                   /\ (score v <= score v')%Z)
  /\ (forall x, In x (dict_values (record_all evs store)) ->
        In x evs \/ In x (dict_values store)).
Proof.
  induction evs as [|e evs IH]; intros store; cbn [record_all fold_left].
  - split; [intros r []|]. split; [|auto].
    intros k v Hk. exists v. split; [exact Hk | lia].
  - fold (record_all evs (record_candidate store (instruction e) (prefix e) (score e)
                                           (program e) (depth e))).
    destruct (IH (record_candidate store (instruction e) (prefix e) (score e)
                                   (program e) (depth e))) as (Hnew & Hold & Hval).
    split; [|split].
    + intros r [<-|Hr]; [|apply Hnew, Hr].
      destruct (record_get store (instruction e) (prefix e) (score e) (program e)
                           (depth e)) as (v & Hget & Hle).
      destruct (Hold _ _ Hget) as (v' & Hget' & Hle'). exists v'. split; [exact Hget'|lia].
    + intros k v Hk.
      destruct (record_monotone store (instruction e) (prefix e) (score e) (program e)
                                (depth e) k v Hk) as (v1 & Hget1 & Hle1).
      destruct (Hold _ _ Hget1) as (v' & Hget' & Hle'). exists v'. split; [exact Hget'|lia].
    + intros x Hx. apply Hval in Hx. destruct Hx as [Hx|Hx]; [left; right; exact Hx|].
      apply record_values in Hx. destruct Hx as [->|Hx]; [|auto].
      left. left. destruct e; reflexivity.
Qed.

(** C5.  In the store reached by any run of evaluations: recording a
    candidate whose identity is not present appends it; recording one that
    is present with a score at least as large leaves the store as it is;
    with a strictly larger score it replaces the record in place and no
    other; recording again what was just recorded changes nothing; and the
    best candidate exists, is the first record in insertion order with the
    largest score, and its score is the largest of all the evaluations
    made. *)
Theorem record_candidate_keeps_best (evaluations : list EvaluationRecord)
        (i p : string) (s : Score) (m : Program) (d : nat) :
  let store := record_all evaluations [] in
  let new := {| score := s; program := m; instruction := i; prefix := p; depth := d |} in
  let store' := record_candidate store i p s m d in
  (dict_get (i, p) store = None -> store' = store ++ [((i, p), new)])
  /\ (forall stored, dict_get (i, p) store = Some stored ->
        ((s <= score stored)%Z -> store' = store)
        /\ ((score stored < s)%Z ->
            dict_get (i, p) store' = Some new
            /\ map fst store' = map fst store
            /\ forall k, k <> (i, p) -> dict_get k store' = dict_get k store))
  /\ record_candidate store' i p s m d = store'
  /\ exists best,
        best_candidate store' = Ok best
        /\ first_max score (dict_values store') best
        /\ In best (evaluations ++ [new])
        /\ forall r, In r (evaluations ++ [new]) -> (score r <= score best)%Z.
Proof.
  intros store new store'. split; [|split; [|split]].
  - apply record_absent.
  - intros stored Hget. split.
    + apply (record_not_better store i p s m d stored Hget).
    + intros Hlt. unfold store'.
      rewrite (record_better store i p s m d stored Hget Hlt). fold new.
      split; [apply dict_get_set_same|].
      split; [apply (dict_set_present_keys _ _ stored), Hget|].
      intros k Hk. apply dict_get_set_other, Hk.
  - apply record_idempotent.
  - assert (Hall : store' = record_all (evaluations ++ [new]) []).
    { rewrite record_all_app. reflexivity. }
    destruct (record_all_covers (evaluations ++ [new]) []) as (Hnew & _ & Hval).
    rewrite <- Hall in Hnew, Hval.
    destruct (record_get store i p s m d) as (v & Hget & _). fold store' in Hget.
    destruct (best_candidate store') as [best|e] eqn:Hbest.
    + exists best. split; [reflexivity|].
      pose proof (py_max_first_max score _ best Hbest) as Hfirst.
      destruct (first_max_is_max score _ best Hfirst) as [Hin Hmax].
      split; [exact Hfirst|]. split.
      * destruct (Hval best Hin) as [H|[]]. exact H.
      * intros r Hr. destruct (Hnew r Hr) as (v' & Hget' & Hle).
        apply dict_get_In in Hget'. specialize (Hmax v' Hget'). lia.
    + exfalso. unfold best_candidate, py_max in Hbest.
      apply dict_get_In in Hget. destruct (dict_values store'); [destruct Hget|discriminate].
Qed.

(** ** Sorting and duplicate removal *)

Lemma insert_desc_perm {A : Type} (key : A -> Z) (x : A) (l : list A) :
  Permutation (x :: l) (insert_desc key x l).
Proof.
  induction l as [|y l IH]; cbn [insert_desc]; [reflexivity|].
  destruct (key y <=? key x)%Z; [reflexivity|].
  rewrite perm_swap. apply perm_skip, IH.
Qed.

Lemma sort_desc_perm {A : Type} (key : A -> Z) (l : list A) :
  Permutation l (sort_desc key l).
Proof.
  induction l as [|x l IH]; cbn [sort_desc]; [reflexivity|].
  rewrite <- insert_desc_perm. apply perm_skip, IH.
Qed.

Lemma insert_desc_sorted (x : EvaluationRecord) (l : list EvaluationRecord) :
  StronglySorted by_score_desc l -> StronglySorted by_score_desc (insert_desc score x l).
Proof.
  induction l as [|y l IH]; intros Hs; cbn [insert_desc].
  - constructor; constructor.
  - inversion Hs as [|? ? Hl Hy]; subst.
    destruct (Z.leb_spec (score y) (score x)) as [Hle|Hgt].
    + constructor; [exact Hs|]. constructor; [exact Hle|].
      rewrite Forall_forall in *. intros z Hz. specialize (Hy z Hz).
      unfold by_score_desc in *. lia.
    + constructor; [apply IH, Hl|].
      rewrite Forall_forall in *. intros z Hz.
      apply (Permutation_in _ (Permutation_sym (insert_desc_perm score x l))) in Hz.
      destruct Hz as [<-|Hz]; [unfold by_score_desc; lia | apply Hy, Hz].
Qed.

Lemma sort_desc_sorted (l : list EvaluationRecord) :
  StronglySorted by_score_desc (sort_desc score l).
Proof.
  induction l as [|x l IH]; cbn [sort_desc]; [constructor|].
  apply insert_desc_sorted, IH.
Qed.

Lemma sorted_snoc (l : list EvaluationRecord) (c : EvaluationRecord) :
  StronglySorted by_score_desc l -> (forall a, In a l -> by_score_desc a c) ->
  StronglySorted by_score_desc (l ++ [c]).
Proof.
  induction l as [|x l IH]; intros Hs Hall; cbn [app].
  - constructor; constructor.
  - inversion Hs as [|? ? Hl Hx]; subst. constructor.
    + apply IH; [exact Hl|]. intros a Ha. apply Hall. right. exact Ha.
    + apply Forall_app. split; [exact Hx|]. constructor; [|constructor].
      apply Hall. left. reflexivity.
Qed.

Lemma duplicate_refl (c : EvaluationRecord) : duplicate c c.
Proof. split; reflexivity. Qed.

Lemma duplicate_sym (a b : EvaluationRecord) : duplicate a b -> duplicate b a.
Proof. intros [H1 H2]. split; auto. Qed.

Lemma duplicate_trans (a b c : EvaluationRecord) :
  duplicate a b -> duplicate b c -> duplicate a c.
Proof. intros [H1 H2] [H3 H4]. split; congruence. Qed.

Lemma predictors_equal_sound (p1 p2 : Predictor) (sl : slot) (b : bool) :
  fills p1 sl -> fills p2 sl -> predictors_equal p1 p2 = Ok b ->
  (b = true <-> predictor_texts p1 = predictor_texts p2).
Proof.
  destruct p1 as [s1|s1 s1'], p2 as [s2|s2 s2'], sl as [rest|]; cbn [fills];
    intros F1 F2; try contradiction.
  - destruct F1 as (f1 & H1 & Ho1), F2 as (f2 & H2 & Ho2).
    cbn [predictors_equal predictor_texts]. unfold signature_texts. rewrite H1, H2.
    destruct (String.eqb_spec (instructions s1) (instructions s2)) as [Hi|Hi];
      cbn [negb bind].
    + unfold field_eqb. rewrite Ho1, Ho2.
      destruct (list_eq_dec string_dec rest rest); [|contradiction].
      rewrite andb_true_r.
      destruct (String.eqb_spec (name f1) (name f2)) as [Hn|Hn]; cbn [negb];
        intros H; inversion H; subst b.
      * rewrite Hi, Hn. split; reflexivity.
      * split; [discriminate|]. intros Ht. inversion Ht. contradiction.
    + intros H; inversion H; subst b. split; [discriminate|].
      intros Ht. inversion Ht. contradiction.
  - cbn [predictors_equal]. discriminate.
Qed.

Lemma predictors_equal_total (p1 p2 : Predictor) (rest : list string) :
  fills p1 (OneSlot rest) -> fills p2 (OneSlot rest) ->
  exists b, predictors_equal p1 p2 = Ok b.
Proof.
  destruct p1 as [s1|s1 s1'], p2 as [s2|s2 s2']; cbn [fills];
    intros F1 F2; try contradiction.
  destruct F1 as (f1 & H1 & _), F2 as (f2 & H2 & _).
  cbn [predictors_equal]. rewrite H1, H2. cbn [bind].
  destruct (negb _); [eauto|]. destruct (negb _); eauto.
Qed.

Lemma programs_equal_sound (shape : list slot) :
  forall (ps1 ps2 : Program) (b : bool),
  shaped shape ps1 -> shaped shape ps2 -> programs_equal ps1 ps2 = Ok b ->
  (b = true <-> map predictor_texts ps1 = map predictor_texts ps2).
Proof.
  induction shape as [|sl shape IH]; intros ps1 ps2 b H1 H2 Hrun.
  - inversion H1; inversion H2; subst. cbn in Hrun. inversion Hrun.
    split; reflexivity.
  - inversion H1 as [|p1 ? ps1' ? F1 Hps1]; subst.
    inversion H2 as [|p2 ? ps2' ? F2 Hps2]; subst.
    cbn [programs_equal] in Hrun. inv_bind Hrun.
    pose proof (predictors_equal_sound p1 p2 sl a F1 F2 E) as Hhead.
    cbn [map]. destruct a.
    + rewrite (IH ps1' ps2' b Hps1 Hps2 Hrun). destruct Hhead as [Hhead _].
      rewrite (Hhead eq_refl). split; [intros ->; reflexivity|].
      intros H. inversion H. reflexivity.
    + inversion Hrun; subst b. split; [discriminate|].
      intros H. inversion H as [[Hp Hrest]]. apply Hhead in Hp. discriminate.
Qed.

Lemma programs_equal_total (shape : list slot) :
  one_signature_only shape ->
  forall ps1 ps2 : Program,
  shaped shape ps1 -> shaped shape ps2 -> exists b, programs_equal ps1 ps2 = Ok b.
Proof.
  induction 1 as [|sl shape Hsl Hone IH]; intros ps1 ps2 H1 H2.
  - inversion H1; inversion H2; subst. cbn. eauto.
  - inversion H1 as [|p1 ? ps1' ? F1 Hps1]; subst.
    inversion H2 as [|p2 ? ps2' ? F2 Hps2]; subst.
    destruct sl as [rest|]; [|contradiction].
    destruct (predictors_equal_total p1 p2 rest F1 F2) as [b Hb].
    cbn [programs_equal]. rewrite Hb. cbn [bind]. destruct b; [apply IH; assumption|eauto].
Qed.

Lemma repeated_in_sound (shape : list slot) (c : EvaluationRecord)
      (batch : list EvaluationRecord) (b : bool) :
  snapshot_of shape c -> (forall c2, In c2 batch -> snapshot_of shape c2) ->
  repeated_in c batch = Ok b ->
  (b = true <-> exists c2, In c2 batch /\ texts c = texts c2).
Proof.
  intros Hc. revert b. induction batch as [|c2 batch IH]; intros b Hall Hrun;
    cbn [repeated_in] in Hrun.
  - inversion Hrun. split; [discriminate | intros (? & [] & _)].
  - inv_bind Hrun.
    pose proof (programs_equal_sound shape _ _ a Hc (Hall c2 (or_introl eq_refl)) E)
      as Hhead.
    destruct a.
    + inversion Hrun; subst b. split; [|reflexivity].
      intros _. exists c2. split; [left; reflexivity | apply Hhead; reflexivity].
    + rewrite (IH b (fun x Hx => Hall x (or_intror Hx)) Hrun). split.
      * intros (x & Hx & Ht). exists x. split; [right; exact Hx | exact Ht].
      * intros (x & [<-|Hx] & Ht); [|eauto].
        apply Hhead in Ht. discriminate.
Qed.

Lemma repeated_in_total (shape : list slot) (c : EvaluationRecord)
      (batch : list EvaluationRecord) :
  one_signature_only shape ->
  snapshot_of shape c -> (forall c2, In c2 batch -> snapshot_of shape c2) ->
  exists b, repeated_in c batch = Ok b.
Proof.
  intros Hone Hc. induction batch as [|c2 batch IH]; intros Hall; cbn [repeated_in].
  - eauto.
  - destruct (programs_equal_total shape Hone (program c) (program c2) Hc
                (Hall c2 (or_introl eq_refl))) as [b Hb].
    unfold _check_candidates_equal. rewrite Hb. cbn [bind].
    destruct b; [eauto|]. apply IH. intros x Hx. apply Hall. right. exact Hx.
Qed.

Lemma hd_error_snoc {A : Type} (l1 l2 : list A) (c : A) :
  hd_error l1 = hd_error l2 -> (l1 = [] <-> l2 = []) ->
  hd_error (l1 ++ [c]) = hd_error (l2 ++ [c]).
Proof.
  destruct l1, l2; cbn; intros H Hiff; auto.
  - destruct Hiff as [Hiff _]. specialize (Hiff eq_refl). discriminate.
  - destruct Hiff as [_ Hiff]. specialize (Hiff eq_refl). discriminate.
Qed.

Lemma dedup_invariant_nil_iff (processed : list EvaluationRecord) (st : dedup_state) :
  dedup_invariant processed st -> (final_candidates st = [] <-> processed = []).
Proof.
  intros (Hincl & Hcover & _). split; intros H.
  - destruct processed as [|x xs]; [reflexivity|].
    destruct (Hcover x) as (c' & Hin & _); [left; reflexivity|].
    rewrite H in Hin. destruct Hin.
  - destruct (final_candidates st) as [|x xs]; [reflexivity|].
    specialize (Hincl x (or_introl eq_refl)). rewrite H in Hincl. destruct Hincl.
Qed.

Lemma dedup_invariant_skip (processed : list EvaluationRecord) (st : dedup_state)
      (c : EvaluationRecord) :
  dedup_invariant processed st ->
  score c = last_batch_score st ->
  (exists c', In c' (final_candidates st) /\ duplicate c c') ->
  dedup_invariant (processed ++ [c]) st.
Proof.
  intros Hinv Hscore (c' & Hin & Hdup).
  pose proof (dedup_invariant_nil_iff processed st Hinv) as Hnil.
  destruct Hinv as (Hincl & Hcover & Huniq & Hnodup & Hsorted & Hbatch & Hmin & Hlast & Hhd).
  repeat split; auto.
  - apply incl_appl, Hincl.
  - intros x Hx. apply in_app_or in Hx. destruct Hx as [Hx|[<-|[]]]; eauto.
  - intros x Hx. apply in_app_or in Hx. destruct Hx as [Hx|[<-|[]]]; [auto | lia].
  - intros _. exists c. split; [apply in_or_app; right; left; reflexivity | exact Hscore].
  - rewrite Hhd. destruct processed as [|x xs]; [|reflexivity].
    destruct Hnil as [_ Hnil]. rewrite Hnil in Hin by reflexivity. destruct Hin.
Qed.

Lemma dedup_invariant_append (processed : list EvaluationRecord) (st : dedup_state)
      (c : EvaluationRecord) (batch : list EvaluationRecord) :
  dedup_invariant processed st ->
  (forall a, In a processed -> (score c <= score a)%Z) ->
  (forall a, In a (final_candidates st) -> ~ duplicate c a) ->
  batch = filter (fun x => (score x =? score c)%Z) (final_candidates st ++ [c]) ->
  dedup_invariant (processed ++ [c])
    {| final_candidates := final_candidates st ++ [c];
       last_batch := batch;
       last_batch_score := score c |}.
Proof.
  intros Hinv Hle Hnodup_c Hbatch'.
  pose proof (dedup_invariant_nil_iff processed st Hinv) as Hnil.
  destruct Hinv as (Hincl & Hcover & Huniq & Hnodup & Hsorted & Hbatch & Hmin & Hlast & Hhd).
  cbn [final_candidates last_batch last_batch_score].
  split; [|split; [|split; [|split; [|split; [|split; [|split; [|split]]]]]]].
  - intros x Hx. apply in_app_or in Hx. apply in_or_app.
    destruct Hx as [Hx|Hx]; [left; apply Hincl, Hx | right; exact Hx].
  - intros x Hx. apply in_app_or in Hx. destruct Hx as [Hx|[<-|[]]].
    + destruct (Hcover x Hx) as (c' & Hc' & Hd). exists c'.
      split; [apply in_or_app; left; exact Hc' | exact Hd].
    + exists c. split; [apply in_or_app; right; left; reflexivity | apply duplicate_refl].
  - intros a b Ha Hb Hd. apply in_app_or in Ha. apply in_app_or in Hb.
    destruct Ha as [Ha|[<-|[]]], Hb as [Hb|[<-|[]]].
    + apply Huniq; assumption.
    + exfalso. apply (Hnodup_c a Ha). apply duplicate_sym, Hd.
    + exfalso. apply (Hnodup_c b Hb), Hd.
    + reflexivity.
  - apply NoDup_app; [exact Hnodup | constructor; [intros [] | constructor] |].
    intros a Ha [Hca|[]]. subst a. apply (Hnodup_c c Ha), duplicate_refl.
  - apply sorted_snoc; [exact Hsorted|]. intros a Ha. apply Hle, Hincl, Ha.
  - exact Hbatch'.
  - intros x Hx. apply in_app_or in Hx. destruct Hx as [Hx|[Hx|[]]].
    + apply Hle, Hx.
    + subst x. apply Z.le_refl.
  - intros _. exists c. split; [apply in_or_app; right; left; reflexivity | reflexivity].
  - apply hd_error_snoc; assumption.
Qed.

Lemma drop_duplicates_step_sound (shape : list slot)
      (processed : list EvaluationRecord) (st st' : dedup_state) (c : EvaluationRecord) :
  dedup_invariant processed st ->
  (forall x, In x processed -> snapshot_of shape x) ->
  snapshot_of shape c ->
  (forall a, In a processed -> (score c <= score a)%Z) ->
  drop_duplicates_step st c = Ok st' ->
  dedup_invariant (processed ++ [c]) st'.
Proof.
  intros Hinv Hshape Hc Hle Hstep. unfold drop_duplicates_step in Hstep.
  pose proof Hinv as
    (Hincl & Hcover & Huniq & Hnodup & Hsorted & Hbatch & Hmin & Hlast & Hhd).
  destruct (Z.eqb_spec (score c) (last_batch_score st)) as [Heq|Hne].
  - inv_bind Hstep.
    assert (Hdup : a = true
                   <-> exists c', In c' (final_candidates st) /\ duplicate c c').
    { rewrite (repeated_in_sound shape c (last_batch st) a Hc); [| |exact E].
      - rewrite Hbatch. split.
        + intros (c2 & Hin & Ht). apply filter_In in Hin. destruct Hin as [Hin Hs].
          apply Z.eqb_eq in Hs. exists c2. split; [exact Hin|]. split; congruence.
        + intros (c2 & Hin & Hs & Ht). exists c2. split; [|exact Ht].
          apply filter_In. split; [exact Hin|]. apply Z.eqb_eq. congruence.
      - intros c2 Hc2. rewrite Hbatch in Hc2. apply filter_In in Hc2.
        apply Hshape, Hincl, Hc2. }
    destruct a; inversion Hstep; subst st'; clear Hstep.
    + apply dedup_invariant_skip; [exact Hinv | exact Heq | apply Hdup; reflexivity].
    + rewrite <- Heq.
      apply dedup_invariant_append; [exact Hinv | exact Hle | |].
      * intros a Ha Hd. destruct Hdup as [_ Hdup].
        assert (false = true) by (apply Hdup; eauto). discriminate.
      * rewrite filter_app, Hbatch, Heq. cbn [filter].
        rewrite <- Heq, Z.eqb_refl. reflexivity.
  - assert (Hother : forall a, In a (final_candidates st) -> score a <> score c).
    { intros a Ha Hs. apply Hincl in Ha.
      destruct Hlast as (c0 & Hc0 & Hs0); [intros ->; destruct Ha|].
      specialize (Hle c0 Hc0). specialize (Hmin a Ha). lia. }
    inversion Hstep; subst st'; clear Hstep.
    apply dedup_invariant_append; [exact Hinv | exact Hle | |].
    + intros a Ha [Hs _]. apply (Hother a Ha). auto.
    + rewrite filter_app. cbn [filter]. rewrite Z.eqb_refl.
      rewrite filter_none; [reflexivity|].
      intros a Ha. apply Z.eqb_neq. apply Hother, Ha.
Qed.

Lemma drop_duplicates_step_total (shape : list slot)
      (processed : list EvaluationRecord) (st : dedup_state) (c : EvaluationRecord) :
  one_signature_only shape ->
  dedup_invariant processed st ->
  (forall x, In x processed -> snapshot_of shape x) ->
  snapshot_of shape c ->
  exists st', drop_duplicates_step st c = Ok st'.
Proof.
  intros Hone (Hincl & _ & _ & _ & _ & Hbatch & _) Hshape Hc.
  unfold drop_duplicates_step. destruct (score c =? last_batch_score st)%Z; [|eauto].
  destruct (repeated_in_total shape c (last_batch st) Hone Hc) as [b Hb].
  { intros c2 Hc2. rewrite Hbatch in Hc2. apply filter_In in Hc2.
    apply Hshape, Hincl, Hc2. }
  rewrite Hb. cbn [bind]. destruct b; eauto.
Qed.

Lemma sorted_prefix_above (processed rest : list EvaluationRecord)
      (c a : EvaluationRecord) :
  StronglySorted by_score_desc (processed ++ c :: rest) -> In a processed ->
  (score c <= score a)%Z.
Proof.
  induction processed as [|x xs IH]; intros Hsorted Ha; [destruct Ha|].
  cbn [app] in Hsorted. inversion Hsorted as [|? ? Hs Hall]; subst.
  destruct Ha as [<-|Ha]; [|apply IH; assumption].
  rewrite Forall_forall in Hall. apply Hall, in_or_app. right. left. reflexivity.
Qed.

Lemma drop_duplicates_loop_sound (shape : list slot)
      (rest : list EvaluationRecord) :
  forall (processed : list EvaluationRecord) (st st' : dedup_state),
  dedup_invariant processed st ->
  (forall x, In x (processed ++ rest) -> snapshot_of shape x) ->
  StronglySorted by_score_desc (processed ++ rest) ->
  for_each drop_duplicates_step rest st = Ok st' ->
  dedup_invariant (processed ++ rest) st'.
Proof.
  induction rest as [|c rest IH]; intros processed st st' Hinv Hshape Hsorted Hrun;
    cbn [for_each] in Hrun.
  - inversion Hrun; subst. rewrite app_nil_r. exact Hinv.
  - inv_bind Hrun.
    assert (Hinv1 : dedup_invariant (processed ++ [c]) a).
    { apply (drop_duplicates_step_sound shape processed st a c Hinv); [| | |exact E].
      - intros x Hx. apply Hshape, in_or_app. left. exact Hx.
      - apply Hshape, in_or_app. right. left. reflexivity.
      - intros x Hx. eapply sorted_prefix_above; eauto. }
    replace (processed ++ c :: rest) with ((processed ++ [c]) ++ rest) in *
      by (rewrite <- app_assoc; reflexivity).
    eapply IH; eauto.
Qed.

Lemma drop_duplicates_loop_total (shape : list slot)
      (rest : list EvaluationRecord) :
  one_signature_only shape ->
  forall (processed : list EvaluationRecord) (st : dedup_state),
  dedup_invariant processed st ->
  (forall x, In x (processed ++ rest) -> snapshot_of shape x) ->
  StronglySorted by_score_desc (processed ++ rest) ->
  exists st', for_each drop_duplicates_step rest st = Ok st'.
Proof.
  intros Hone. induction rest as [|c rest IH]; intros processed st Hinv Hshape Hsorted;
    cbn [for_each].
  - eauto.
  - destruct (drop_duplicates_step_total shape processed st c Hone Hinv) as [st1 Hstep].
    { intros x Hx. apply Hshape, in_or_app. left. exact Hx. }
    { apply Hshape, in_or_app. right. left. reflexivity. }
    rewrite Hstep. cbn [bind].
    assert (Hinv1 : dedup_invariant (processed ++ [c]) st1).
    { apply (drop_duplicates_step_sound shape processed st st1 c Hinv); [| | |exact Hstep].
      - intros x Hx. apply Hshape, in_or_app. left. exact Hx.
      - apply Hshape, in_or_app. right. left. reflexivity.
      - intros x Hx. eapply sorted_prefix_above; eauto. }
    replace (processed ++ c :: rest) with ((processed ++ [c]) ++ rest) in *
      by (rewrite <- app_assoc; reflexivity).
    eapply IH; eauto.
Qed.

Lemma dedup_invariant_start :
  dedup_invariant []
    {| final_candidates := []; last_batch := []; last_batch_score := (-100)%Z |}.
Proof.
  unfold dedup_invariant. cbn [final_candidates last_batch last_batch_score filter].
  split; [intros x []|]. split; [intros x []|]. split; [intros a b []|].
  split; [constructor|]. split; [constructor|]. split; [reflexivity|].
  split; [intros x []|]. split; [intros H; contradiction | reflexivity].
Qed.

Lemma list_set_length {A : Type} (xs : list A) :
  forall (i : nat) (x : A) (xs' : list A),
  list_set xs i x = Ok xs' -> List.length xs' = List.length xs.
Proof.
  induction xs as [|a xs IH]; intros i x xs' Hset; [discriminate|].
  destruct i as [|i]; cbn [list_set] in Hset.
  - inversion Hset; subst. reflexivity.
  - inv_bind Hset. inversion Hset; subst. cbn [List.length]. f_equal. eapply IH; eauto.
Qed.

Lemma list_set_total {A : Type} (xs : list A) :
  forall (i : nat) (x : A), i < List.length xs -> exists xs', list_set xs i x = Ok xs'.
Proof.
  induction xs as [|a xs IH]; intros i x Hi; cbn [List.length] in Hi; [lia|].
  destruct i as [|i]; cbn [list_set]; [eauto|].
  destruct (IH i x) as [xs' Hset]; [lia|]. rewrite Hset. cbn [bind]. eauto.
Qed.

(** The statistics of a predictor that has an entry, over scores of which
    there is one, are noted without an error; without a score they are
    not. *)
Lemma append_stats_total (results : list Stats) (p_i d : nat) (scores : list Score) :
  p_i < List.length results -> scores <> [] ->
  exists results', append_stats results p_i d scores = Ok results'.
Proof.
  intros Hi Hscores. unfold append_stats, item.
  destruct (nth_error results p_i) as [entry|] eqn:Hentry;
    [|apply nth_error_None in Hentry; lia].
  cbn [bind]. destruct scores as [|s0 scores]; [congruence|].
  cbn [py_max py_min mean List.length bind]. apply list_set_total, Hi.
Qed.

Lemma append_stats_length (results results' : list Stats) (p_i d : nat)
      (scores : list Score) :
  append_stats results p_i d scores = Ok results' ->
  List.length results' = List.length results.
Proof.
  unfold append_stats. intros Hrun.
  inv_bind Hrun. inv_bind Hrun. inv_bind Hrun. inv_bind Hrun.
  eapply list_set_length; eauto.
Qed.

Lemma append_stats_no_score (results : list Stats) (p_i d : nat) :
  p_i < List.length results ->
  append_stats results p_i d [] = Raise (ValueError "max() arg is an empty sequence").
Proof.
  intros Hi. unfold append_stats, item.
  destruct (nth_error results p_i) as [entry|] eqn:Hentry;
    [reflexivity | apply nth_error_None in Hentry; lia].
Qed.

(** The loop that gathers the records appends the values of every store,
    in the order of the predictors. *)
Lemma gather_candidates_gathers (stores : list CandidateStore) :
  forall (p_i : nat) (candidates : list EvaluationRecord) (results : list Stats)
         (gathered : list EvaluationRecord * list Stats),
  gather_candidates stores p_i candidates results = Ok gathered ->
  fst gathered = candidates ++ flat_map dict_values stores.
Proof.
  induction stores as [|store stores IH]; intros p_i candidates results gathered Hrun;
    cbn [gather_candidates] in Hrun.
  - inversion Hrun; subst gathered. cbn [fst flat_map]. rewrite app_nil_r. reflexivity.
  - inv_bind Hrun. rewrite (IH _ _ _ _ Hrun). cbn [flat_map].
    rewrite app_assoc. reflexivity.
Qed.

Lemma sort_desc_nonempty {A : Type} (key : A -> Z) (l : list A) :
  l <> [] -> sort_desc key l <> [].
Proof.
  destruct l as [|x l]; [congruence|]. intros _. cbn [sort_desc].
  destruct (sort_desc key l) as [|y rest]; cbn [insert_desc]; [discriminate|].
  destruct (key y <=? key x)%Z; discriminate.
Qed.

Lemma gather_candidates_total (stores : list CandidateStore) :
  forall (p_i : nat) (candidates : list EvaluationRecord) (results : list Stats),
  (self_track_stats = true ->
   1 <= self_depth
   /\ Forall (fun store : CandidateStore => store <> []) stores
   /\ p_i + List.length stores <= List.length results) ->
  exists gathered, gather_candidates stores p_i candidates results = Ok gathered.
Proof.
  induction stores as [|store stores IH]; intros p_i candidates results Hready;
    cbn [gather_candidates]; [eauto|].
  destruct self_track_stats eqn:Htrack.
  - destruct (Hready eq_refl) as (Hdepth & Hfilled & Hlen).
    inversion Hfilled as [|? ? Hstore Hrest]; subst. cbn [List.length] in Hlen.
    unfold loop_variable_d. destruct self_depth as [|d]; [lia|]. cbn [bind].
    destruct (append_stats_total results p_i d
                (firstn 10 (map score (sort_desc score (dict_values store)))))
      as [results' Hstats]; [lia| |].
    + pose proof (sort_desc_nonempty score (dict_values store)) as Hne.
      destruct (sort_desc score (dict_values store)) as [|r0 rs];
        [exfalso; apply Hne; [|reflexivity]; destruct store; [congruence | discriminate]|].
      discriminate.
    + rewrite Hstats. cbn [bind]. apply IH. intros _.
      apply append_stats_length in Hstats.
      split; [lia|]. split; [exact Hrest | lia].
  - cbn [bind]. apply IH. intros H. discriminate H.
Qed.

(** The tail of [compile] on stores whose snapshots have one shape: what
    it returns, when it returns. *)
Lemma select_best_sound (shape : list slot) (st : SearchState)
      (r : CompiledProgram) :
  let gathered := flat_map dict_values (evaluated_candidates st) in
  (forall c, In c gathered -> snapshot_of shape c) ->
  select_best st = Ok r ->
  exists first rest,
    candidate_programs r = first :: rest
    /\ best_program r = program first
    /\ compiled_total_calls r = total_calls st
    /\ StronglySorted by_score_desc (candidate_programs r)
    /\ (forall c, In c gathered -> (score c <= score first)%Z)
    /\ incl (candidate_programs r) gathered
    /\ (forall c, In c gathered ->
          exists c', In c' (candidate_programs r) /\ duplicate c c')
    /\ (forall a b, In a (candidate_programs r) -> In b (candidate_programs r) ->
                    duplicate a b -> a = b)
    /\ NoDup (candidate_programs r)
    /\ (forall c, In c gathered ->
          (forall c', In c' gathered -> duplicate c c' -> c' = c) ->
          In c (candidate_programs r)).
Proof.
  intros gathered Hshape Hrun.
  pose proof (sort_desc_perm score gathered) as Hperm.
  pose proof (sort_desc_sorted gathered) as Hsorted.
  assert (Hin : forall c, In c (sort_desc score gathered) <-> In c gathered).
  { intros c. split; intros H.
    - apply (Permutation_in _ (Permutation_sym Hperm)), H.
    - apply (Permutation_in _ Hperm), H. }
  unfold select_best in Hrun. inv_bind Hrun.
  pose proof (gather_candidates_gathers _ _ _ _ _ E) as Hgathered.
  destruct a as [candidates results_best_]. cbn [fst app] in Hgathered.
  subst candidates. fold gathered in Hrun. unfold _drop_duplicates in Hrun.
  destruct (for_each drop_duplicates_step (sort_desc score gathered) _)
    as [st1|e] eqn:Hloop; cbn [bind] in Hrun; [|discriminate].
  destruct (item (final_candidates st1) 0) as [first0|e] eqn:Hitem;
    cbn [bind] in Hrun; [|discriminate].
  inversion Hrun; subst r; clear Hrun.
  pose proof (drop_duplicates_loop_sound shape (sort_desc score gathered) [] _ st1
                dedup_invariant_start (fun x Hx => Hshape x (proj1 (Hin x) Hx))
                Hsorted Hloop) as Hinv.
  cbn [app] in Hinv.
  destruct Hinv as (Hincl & Hcover & Huniq & Hnodup & Hfsorted & _ & _ & _ & Hhd).
  cbn [candidate_programs best_program compiled_total_calls].
  apply item_Ok in Hitem.
  destruct (final_candidates st1) as [|first rest] eqn:Hfinal; [discriminate|].
  cbn [nth_error] in Hitem. inversion Hitem; subst first0.
  exists first, rest.
  split; [reflexivity|]. split; [reflexivity|]. split; [reflexivity|].
  split; [exact Hfsorted|]. split; [|split; [|split; [|split; [|split]]]].
  - intros c Hc. apply Hin in Hc.
    destruct (sort_desc score gathered) as [|x xs]; [destruct Hc|].
    cbn [hd_error] in Hhd. inversion Hhd; subst x.
    destruct Hc as [<-|Hc]; [lia|].
    inversion Hsorted as [|? ? _ Hall]; subst.
    rewrite Forall_forall in Hall. apply Hall, Hc.
  - intros c Hc. apply Hin, Hincl, Hc.
  - intros c Hc. apply Hcover, Hin, Hc.
  - exact Huniq.
  - exact Hnodup.
  - intros c Hc Halone. destruct (Hcover c) as (c' & Hc' & Hdup); [apply Hin, Hc|].
    rewrite <- (Halone c'); [exact Hc' | apply Hin, Hincl, Hc' | exact Hdup].
Qed.

(** On one-signature programs with an evaluation stored the tail of
    [compile] returns. *)
Lemma select_best_total (shape : list slot) (st : SearchState) :
  let gathered := flat_map dict_values (evaluated_candidates st) in
  one_signature_only shape ->
  (forall c, In c gathered -> snapshot_of shape c) ->
  gathered <> [] ->
  (self_track_stats = true -> stats_ready st) ->
  exists r, select_best st = Ok r.
Proof.
  intros gathered Hone Hshape Hne Hready.
  destruct (gather_candidates_total (evaluated_candidates st) 0 [] (results_best st))
    as [[candidates results_best_] Hgather].
  { intros Htrack. destruct (Hready Htrack) as (Hdepth & Hfilled & Hlen).
    split; [exact Hdepth|]. split; [exact Hfilled|]. cbn [Nat.add]. lia. }
  pose proof (gather_candidates_gathers _ _ _ _ _ Hgather) as Hgathered.
  cbn [fst app] in Hgathered. subst candidates.
  pose proof (sort_desc_perm score gathered) as Hperm.
  pose proof (sort_desc_sorted gathered) as Hsorted.
  assert (Hshape' : forall x, In x (sort_desc score gathered) -> snapshot_of shape x).
  { intros x Hx. apply Hshape. apply (Permutation_in _ (Permutation_sym Hperm)), Hx. }
  destruct (drop_duplicates_loop_total shape (sort_desc score gathered) Hone [] _
              dedup_invariant_start Hshape' Hsorted) as [st0 Hrun].
  pose proof (drop_duplicates_loop_sound shape (sort_desc score gathered) [] _ st0
                dedup_invariant_start Hshape' Hsorted Hrun) as Hinv.
  cbn [app] in Hinv. apply dedup_invariant_nil_iff in Hinv.
  unfold select_best. rewrite Hgather. cbn [bind]. fold gathered.
  unfold _drop_duplicates. rewrite Hrun. cbn [bind].
  destruct (final_candidates st0) as [|first rest] eqn:Hfinal.
  - exfalso. destruct Hinv as [Hnil _]. specialize (Hnil eq_refl).
    apply Hne. apply Permutation_nil. rewrite Hnil in Hperm.
    apply Permutation_sym, Hperm.
  - cbn. eauto.
Qed.

(** ** The snapshots [compile] stores *)

Lemma for_each_invariant {S X : Type} (P : S -> Prop) (body : S -> X -> result S)
      (xs : list X) :
  (forall st x st', P st -> body st x = Ok st' -> P st') ->
  forall st st', P st -> for_each body xs st = Ok st' -> P st'.
Proof.
  intros Hstep. induction xs as [|x xs IH]; intros st st' HP Hrun; cbn [for_each] in Hrun.
  - inversion Hrun; subst. exact HP.
  - inv_bind Hrun. eapply IH; [|exact Hrun]. eapply Hstep; eauto.
Qed.

Lemma last_item_snoc {A : Type} (xs : list A) (y : A) : last_item (xs ++ [y]) = Ok y.
Proof. unfold last_item. rewrite rev_unit. reflexivity. Qed.

Lemma item_In {A : Type} (xs : list A) (i : nat) (x : A) : item xs i = Ok x -> In x xs.
Proof. intros H. apply item_Ok in H. eapply nth_error_In; eauto. Qed.

Lemma set_predictor_fills (p p' : Predictor) (sl : slot) (i' n' : string) :
  fills p sl -> set_predictor p i' n' = Ok p' -> fills p' sl.
Proof.
  destruct p as [s0|s1 s2], sl as [rest|]; cbn [fills]; intros F Hset;
    try contradiction.
  - destruct F as (f & Hlast & Hrest).
    cbn [set_predictor] in Hset. unfold with_candidate, replace_last_name in Hset.
    rewrite Hlast in Hset. cbn [bind] in Hset. inversion Hset; subst p'; clear Hset.
    cbn [fills fields]. eexists. split; [apply last_item_snoc | exact Hrest].
  - cbn [set_predictor] in Hset. inv_bind Hset. inv_bind Hset.
    inversion Hset; subst p'. exact I.
Qed.

Lemma list_set_Forall2 {A B : Type} (R : A -> B -> Prop) (ps : list A)
      (shape : list B) :
  Forall2 R ps shape ->
  forall (i : nat) (p p' : A) (ps' : list A),
  nth_error ps i = Some p -> (forall b, R p b -> R p' b) ->
  list_set ps i p' = Ok ps' -> Forall2 R ps' shape.
Proof.
  induction 1 as [|a b ps shape Hab Hrest IH]; intros i p p' ps' Hnth Himp Hset.
  - destruct i; discriminate.
  - destruct i as [|i]; cbn [nth_error list_set] in *.
    + inversion Hnth; subst a. inversion Hset; subst ps'. constructor; auto.
    + inv_bind Hset. inversion Hset; subst ps'. constructor; [exact Hab|].
      eapply IH; eauto.
Qed.

Lemma list_set_In {A : Type} (xs : list A) :
  forall (i : nat) (x : A) (xs' : list A) (y : A),
  list_set xs i x = Ok xs' -> In y xs' -> y = x \/ In y xs.
Proof.
  induction xs as [|a xs IH]; intros i x xs' y Hset Hy; [discriminate|].
  destruct i as [|i]; cbn [list_set] in Hset.
  - inversion Hset; subst xs'. destruct Hy as [<-|Hy]; [auto | right; right; exact Hy].
  - inv_bind Hset. inversion Hset; subst xs'. destruct Hy as [<-|Hy].
    + right. left. reflexivity.
    + destruct (IH _ _ _ _ E Hy); [auto | right; right; assumption].
Qed.

Lemma set_predictor_shaped (shape : list slot) (ps ps' : Program) (i : nat)
      (p p' : Predictor) (instruction_ prefix_ : string) :
  shaped shape ps -> item ps i = Ok p ->
  set_predictor p instruction_ prefix_ = Ok p' ->
  list_set ps i p' = Ok ps' -> shaped shape ps'.
Proof.
  intros Hshape Hitem Hset Hlist. apply item_Ok in Hitem.
  apply (list_set_Forall2 _ ps shape Hshape i p p' ps' Hitem); [|exact Hlist].
  intros sl F. eapply set_predictor_fills; eauto.
Qed.

Lemma evaluate_candidate_invariant (shape : list slot) (d p_i n : nat)
      (st st' : SearchState) (entry : nat * (string * string)) :
  search_invariant shape st -> evaluate_candidate d p_i n st entry = Ok st' ->
  search_invariant shape st'.
Proof.
  intros [Hclone Hstores] Hrun. destruct entry as [c_i c].
  unfold evaluate_candidate in Hrun.
  inv_bind Hrun. inv_bind Hrun. inv_bind Hrun.
  destruct (evaluate (total_calls st) a1) as [score_ devset_annotated].
  inv_bind Hrun. inv_bind Hrun. inv_bind Hrun. inv_bind Hrun.
  inversion Hrun; subst st'; clear Hrun.
  assert (Hnew : shaped shape a1) by (eapply set_predictor_shaped; eauto).
  split; [exact Hnew|]. cbn [evaluated_candidates].
  intros store c0 Hstore Hc0.
  match goal with
  | H : list_set (evaluated_candidates st) _ _ = Ok _ |- _ =>
      destruct (list_set_In _ _ _ _ _ H Hstore) as [->|Hold]
  end.
  - apply record_values in Hc0. destruct Hc0 as [->|Hc0]; [exact Hnew|].
    eapply Hstores; [|exact Hc0]. eapply item_In; eauto.
  - eapply Hstores; eauto.
Qed.

Lemma search_predictor_invariant (shape : list slot) (d n : nat)
      (st st' : SearchState) (p_i : nat) :
  search_invariant shape st -> search_predictor d n st p_i = Ok st' ->
  search_invariant shape st'.
Proof.
  intros Hinv Hrun. unfold search_predictor in Hrun.
  inv_bind Hrun. inv_bind Hrun.
  assert (Hinv0 : search_invariant shape a0).
  { eapply (for_each_invariant (search_invariant shape)); [|exact Hinv|eassumption].
    intros s0 x s1. apply evaluate_candidate_invariant. }
  inv_bind Hrun. inv_bind Hrun. inv_bind Hrun. inv_bind Hrun. inv_bind Hrun.
  inv_bind Hrun. inversion Hrun; subst st'; clear Hrun.
  destruct Hinv0 as [Hclone Hstores]. split; [|exact Hstores].
  cbn [module_clone]. eapply set_predictor_shaped; eauto.
Qed.

Lemma propose_candidates_invariant (shape : list slot) (d : nat)
      (st st' : SearchState)
      (pools pools' : list InstructionCompletions) (p_i : nat) :
  search_invariant shape st ->
  propose_candidates d st pools p_i = Ok (st', pools') ->
  search_invariant shape st'.
Proof.
  intros Hinv Hrun. unfold propose_candidates in Hrun.
  inv_bind Hrun. inv_bind Hrun. inv_bind Hrun. inv_bind Hrun. inv_bind Hrun.
  inversion Hrun; subst st'; clear Hrun. exact Hinv.
Qed.

Lemma search_round_invariant (shape : list slot) (n : nat)
      (st st' : SearchState) (d : nat) :
  search_invariant shape st -> search_round n st d = Ok st' ->
  search_invariant shape st'.
Proof.
  intros Hinv Hrun. unfold search_round in Hrun. inv_bind Hrun.
  assert (Hinv0 : search_invariant shape a).
  { eapply (for_each_invariant (search_invariant shape)); [| |eassumption];
      [|exact Hinv].
    intros s0 x s1. apply search_predictor_invariant. }
  destruct (d =? self_depth - 1); [inversion Hrun; subst; exact Hinv0|].
  inv_bind Hrun. destruct a0 as [st1 new_candidates].
  inversion Hrun; subst st'; clear Hrun.
  assert (Hinv1 : search_invariant shape (fst (st1, new_candidates))).
  { eapply (for_each_invariant (fun acc => search_invariant shape (fst acc)));
      [| |eassumption]; [|exact Hinv0].
    intros [s0 ps0] x [s1 ps1] H0 Hstep. cbn [fst snd] in *.
    eapply propose_candidates_invariant; eauto. }
  exact Hinv1.
Qed.

Lemma basic_of_fills (p : Predictor) (basic : string * string) :
  basic_of p = Ok basic ->
  exists sl, fills p sl /\ ((exists s0, p = OneSignature s0) -> sl <> TwoSlots).
Proof.
  destruct p as [s0|s1 s2]; cbn [basic_of]; intros H.
  - inv_bind H. exists (OneSlot (other_components a)). split; [|discriminate].
    cbn [fills]. eauto.
  - exists TwoSlots. split; [exact I|]. intros (s0 & Hs). discriminate.
Qed.

Lemma seed_candidates_shaped (student : Program) :
  forall (w : World) (seeded : World * list InstructionCompletions),
  seed_candidates w student = Ok seeded ->
  exists shape,
    shaped shape student
    /\ ((forall p, In p student -> exists s0, p = OneSignature s0) ->
        one_signature_only shape).
Proof.
  induction student as [|p rest IH]; intros w seeded Hrun; cbn [seed_candidates] in Hrun.
  - exists []. split; constructor.
  - inv_bind Hrun. inv_bind Hrun.
    unfold initial_candidates in E. inv_bind E.
    destruct (basic_of_fills p a1 E1) as (sl & Hfills & Hone).
    destruct (IH _ _ E0) as (shape & Hshape & Hones).
    exists (sl :: shape). split; [constructor; assumption|].
    intros Hall. constructor.
    + apply Hone, Hall. left. reflexivity.
    + apply Hones. intros q Hq. apply Hall. right. exact Hq.
Qed.

(** Every snapshot [compile] has stored when its search ends is a clone of
    the student, changed in instructions and last-field names only. *)
Lemma search_snapshots (student : Program) (devset_ evalset_ : list Row)
      (st : SearchState) :
  search student devset_ evalset_ = Ok st ->
  exists shape,
    (forall c, In c (flat_map dict_values (evaluated_candidates st)) ->
               snapshot_of shape c)
    /\ ((forall p, In p student -> exists s0, p = OneSignature s0) ->
        one_signature_only shape).
Proof.
  intros Hrun. unfold search in Hrun.
  inv_bind Hrun. inv_bind Hrun.
  destruct (seed_candidates_shaped _ _ _ E0) as (shape & Hshape & Hone).
  destruct a0 as [w candidates].
  exists shape. split; [|exact Hone].
  assert (Hinv : search_invariant shape st).
  { eapply (for_each_invariant (search_invariant shape)); [| |exact Hrun].
    - intros s0 x s1. apply search_round_invariant.
    - split; [exact Hshape|]. cbn [evaluated_candidates].
      intros store c Hstore Hc. apply in_map_iff in Hstore.
      destruct Hstore as (? & <- & _). destruct Hc. }
  destruct Hinv as [_ Hstores]. intros c Hc. apply in_flat_map in Hc.
  destruct Hc as (store & Hstore & Hc). eapply Hstores; eauto.
Qed.

(** ** The first pool of candidates *)

Lemma combine_snoc {A B : Type} (xs : list A) (ys : list B) (x : A) (y : B) :
  List.length xs = List.length ys ->
  combine (xs ++ [x]) (ys ++ [y]) = combine xs ys ++ [(x, y)].
Proof.
  revert ys. induction xs as [|a xs IH]; intros [|b ys] Hlen; cbn in *;
    try discriminate; [reflexivity|].
  rewrite IH by lia. reflexivity.
Qed.



(** ** The first round evaluates every candidate of the pool *)

Lemma list_set_nth_same {A : Type} (xs : list A) :
  forall (i : nat) (x : A) (xs' : list A),
  list_set xs i x = Ok xs' -> nth_error xs' i = Some x.
Proof.
  induction xs as [|a xs IH]; intros i x xs' Hset; [discriminate|].
  destruct i as [|i]; cbn [list_set] in Hset.
  - inversion Hset; subst. reflexivity.
  - inv_bind Hset. inversion Hset; subst. cbn [nth_error]. eapply IH; eauto.
Qed.

Lemma list_set_nth_other {A : Type} (xs : list A) :
  forall (i j : nat) (x : A) (xs' : list A),
  list_set xs i x = Ok xs' -> j <> i -> nth_error xs' j = nth_error xs j.
Proof.
  induction xs as [|a xs IH]; intros i j x xs' Hset Hne; [discriminate|].
  destruct i as [|i]; cbn [list_set] in Hset.
  - inversion Hset; subst. destruct j; [contradiction | reflexivity].
  - inv_bind Hset. inversion Hset; subst. destruct j as [|j]; [reflexivity|].
    cbn [nth_error]. eapply IH; eauto.
Qed.

(** What one evaluation leaves in the search state. *)
Lemma evaluate_candidate_inv (d p_i n c_i : nat) (st st' : SearchState)
      (c : string * string) :
  evaluate_candidate d p_i n st (c_i, c) = Ok st' ->
  exists store score_ snapshot,
    nth_error (evaluated_candidates st) p_i = Some store
    /\ nth_error (evaluated_candidates st') p_i
        = Some (record_candidate store (clean (fst c)) (clean (snd c)) score_ snapshot d)
    /\ (forall j, j <> p_i ->
          nth_error (evaluated_candidates st') j = nth_error (evaluated_candidates st) j)
    /\ all_candidates st' = all_candidates st
    /\ latest_candidates st' = latest_candidates st
    /\ total_calls st' = S (total_calls st).
Proof.
  intros Hrun. unfold evaluate_candidate in Hrun.
  inv_bind Hrun. inv_bind Hrun. inv_bind Hrun.
  destruct (evaluate (total_calls st) a1) as [score_ devset_annotated].
  inv_bind Hrun. inv_bind Hrun. inv_bind Hrun. inv_bind Hrun.
  inversion Hrun; subst st'; clear Hrun.
  cbn [evaluated_candidates all_candidates latest_candidates total_calls].
  exists a2, score_, a1. split; [apply item_Ok; assumption|].
  split; [eapply list_set_nth_same; eauto|].
  split; [intros j Hj; eapply list_set_nth_other; eauto|]. auto.
Qed.

Lemma evaluate_candidate_keeps_recorded (d p_i n c_i : nat) (st st' : SearchState)
      (c : string * string) (i : nat) (k : CandidateKey) :
  recorded st i k -> evaluate_candidate d p_i n st (c_i, c) = Ok st' ->
  recorded st' i k.
Proof.
  intros (store & r & Hstore & Hget) Hrun. apply evaluate_candidate_inv in Hrun.
  destruct Hrun as (store0 & score_ & snapshot & Hold & Hnew & Hother & _).
  destruct (Nat.eq_dec i p_i) as [->|Hne].
  - rewrite Hold in Hstore. inversion Hstore; subst store0.
    destruct (record_monotone store (clean (fst c)) (clean (snd c)) score_ snapshot d
                              k r Hget) as (r' & Hget' & _).
    eexists. exists r'. split; [exact Hnew | exact Hget'].
  - exists store, r. split; [rewrite Hother by exact Hne; exact Hstore | exact Hget].
Qed.

Lemma evaluate_candidate_records (d p_i n c_i : nat) (st st' : SearchState)
      (c : string * string) :
  evaluate_candidate d p_i n st (c_i, c) = Ok st' ->
  recorded st' p_i (clean (fst c), clean (snd c)).
Proof.
  intros Hrun. apply evaluate_candidate_inv in Hrun.
  destruct Hrun as (store0 & score_ & snapshot & _ & Hnew & _).
  destruct (record_get store0 (clean (fst c)) (clean (snd c)) score_ snapshot d)
    as (v & Hget & _).
  eexists. exists v. split; [exact Hnew | exact Hget].
Qed.

Lemma length_enumerate_from {A : Type} (l : list A) :
  forall k, List.length (enumerate_from k l) = List.length l.
Proof.
  induction l as [|x l IH]; intros k; cbn [enumerate_from List.length];
    [reflexivity | rewrite IH; reflexivity].
Qed.

Lemma map_snd_enumerate_from {A : Type} (l : list A) :
  forall k, map snd (enumerate_from k l) = l.
Proof.
  induction l as [|x l IH]; intros k; cbn [enumerate_from map snd];
    [reflexivity | rewrite IH; reflexivity].
Qed.

Lemma evaluate_all_records (d p_i n : nat) (cs : list (nat * (string * string))) :
  forall st st',
  for_each (evaluate_candidate d p_i n) cs st = Ok st' ->
  (forall c, In c (map snd cs) -> recorded st' p_i (clean (fst c), clean (snd c)))
  /\ (forall i k, recorded st i k -> recorded st' i k)
  /\ all_candidates st' = all_candidates st
  /\ latest_candidates st' = latest_candidates st
  /\ total_calls st' = total_calls st + List.length cs.
Proof.
  induction cs as [|[c_i c] cs IH]; intros st st' Hrun; cbn [for_each] in Hrun.
  - inversion Hrun; subst. cbn [List.length]. rewrite Nat.add_0_r.
    split; [intros c []|]. auto.
  - inv_bind Hrun. destruct (IH _ _ Hrun) as (Hall & Hkeep & Hac & Hlc & Htc).
    pose proof (evaluate_candidate_records _ _ _ _ _ _ _ E) as Hc.
    pose proof (evaluate_candidate_inv _ _ _ _ _ _ _ E)
      as (_ & _ & _ & _ & _ & _ & Hac0 & Hlc0 & Htc0).
    split; [|split; [|split; [|split]]].
    + cbn [map snd]. intros c' [<-|Hc']; [apply Hkeep, Hc | apply Hall, Hc'].
    + intros i k Hr. apply Hkeep. eapply evaluate_candidate_keeps_recorded; eauto.
    + congruence.
    + congruence.
    + cbn [List.length]. lia.
Qed.

Lemma search_predictor_records (d n : nat) (st st' : SearchState) (p_i : nat) :
  search_predictor d n st p_i = Ok st' ->
  (forall pool c, nth_error (active_pools n st) p_i = Some pool ->
                  In c (candidates_of pool) ->
                  recorded st' p_i (clean (fst c), clean (snd c)))
  /\ (forall i k, recorded st i k -> recorded st' i k)
  /\ all_candidates st' = all_candidates st
  /\ latest_candidates st' = latest_candidates st.
Proof.
  intros Hrun. unfold search_predictor in Hrun. fold (active_pools n st) in Hrun.
  inv_bind Hrun. inv_bind Hrun.
  destruct (evaluate_all_records _ _ _ _ _ _ E0) as (Hall & Hkeep & Hac & Hlc & _).
  rewrite map_snd_enumerate_from in Hall.
  inv_bind Hrun. inv_bind Hrun. inv_bind Hrun. inv_bind Hrun. inv_bind Hrun.
  inv_bind Hrun. inversion Hrun; subst st'; clear Hrun.
  unfold recorded in *. cbn [evaluated_candidates all_candidates latest_candidates].
  split; [|auto].
  intros pool c Hpool Hc. apply item_Ok in E. rewrite E in Hpool.
  inversion Hpool; subst pool. apply Hall, Hc.
Qed.

Lemma search_predictors_record (d n m : nat) :
  forall (k : nat) (st st' : SearchState),
  for_each (search_predictor d n) (seq k m) st = Ok st' ->
  (forall p_i pool c, k <= p_i < k + m ->
                      nth_error (active_pools n st) p_i = Some pool ->
                      In c (candidates_of pool) ->
                      recorded st' p_i (clean (fst c), clean (snd c)))
  /\ (forall i key, recorded st i key -> recorded st' i key)
  /\ all_candidates st' = all_candidates st
  /\ latest_candidates st' = latest_candidates st.
Proof.
  induction m as [|m IH]; intros k st st' Hrun; cbn [seq for_each] in Hrun.
  - inversion Hrun; subst. split; [intros; lia | auto].
  - inv_bind Hrun.
    destruct (search_predictor_records _ _ _ _ _ E) as (Hhere & Hkeep0 & Hac0 & Hlc0).
    destruct (IH _ _ _ Hrun) as (Hlater & Hkeep & Hac & Hlc).
    assert (Hpools : active_pools n a = active_pools n st).
    { unfold active_pools. rewrite Hac0, Hlc0. reflexivity. }
    split; [|split; [|split]].
    + intros p_i pool c Hp Hpool Hc. destruct (Nat.eq_dec p_i k) as [->|Hne].
      * apply Hkeep. eapply Hhere; eauto.
      * eapply Hlater; eauto; [lia|]. rewrite Hpools. exact Hpool.
    + intros i key Hr. apply Hkeep, Hkeep0, Hr.
    + congruence.
    + congruence.
Qed.

Lemma propose_candidates_keeps_recorded (d : nat) (st st' : SearchState)
      (pools pools' : list InstructionCompletions) (p_i i : nat) (k : CandidateKey) :
  recorded st i k -> propose_candidates d st pools p_i = Ok (st', pools') ->
  recorded st' i k.
Proof.
  intros Hr Hrun. unfold propose_candidates in Hrun.
  inv_bind Hrun. inv_bind Hrun. inv_bind Hrun. inv_bind Hrun. inv_bind Hrun.
  inversion Hrun; subst st'; clear Hrun. exact Hr.
Qed.

Lemma search_round_records (n : nat) (st st' : SearchState) (d : nat) :
  search_round n st d = Ok st' ->
  (forall p_i pool c, p_i < n ->
                      nth_error (active_pools n st) p_i = Some pool ->
                      In c (candidates_of pool) ->
                      recorded st' p_i (clean (fst c), clean (snd c)))
  /\ (forall i key, recorded st i key -> recorded st' i key).
Proof.
  intros Hrun. unfold search_round in Hrun. inv_bind Hrun.
  destruct (search_predictors_record _ _ _ _ _ _ E) as (Hall & Hkeep & _ & _).
  assert (Hlater : forall i key, recorded a i key -> recorded st' i key).
  { destruct (d =? self_depth - 1); [inversion Hrun; subst; auto|].
    inv_bind Hrun. destruct a0 as [st1 new_candidates].
    inversion Hrun; subst st'; clear Hrun. intros i key Hr.
    assert (H1 : recorded (fst (st1, new_candidates)) i key).
    { eapply (for_each_invariant (fun acc => recorded (fst acc) i key));
        [| |eassumption]; [|exact Hr].
      intros [s0 ps0] x [s1 ps1] H0 Hstep. cbn [fst snd] in *.
      eapply propose_candidates_keeps_recorded; eauto. }
    exact H1. }
  split.
  - intros p_i pool c Hp Hpool Hc. apply Hlater. eapply Hall; eauto. lia.
  - intros i key Hr. apply Hlater, Hkeep, Hr.
Qed.

(** ** The statistics of the last loop

    What the search leaves behind when it ends after a round: a record in
    every store, and an entry for every predictor in the statistics. *)

(** Lifting a property of the state of the search from the steps of a
    round to the round. *)
Lemma search_round_preserves (P : SearchState -> Prop) :
  (forall d p_i n st c st', P st -> evaluate_candidate d p_i n st c = Ok st' -> P st') ->
  (forall st st',
     P st -> world st' = world st ->
     evaluated_candidates st' = evaluated_candidates st ->
     results_best st' = results_best st -> P st') ->
  (forall d st pools p_i st' pools',
     P st -> propose_candidates d st pools p_i = Ok (st', pools') -> P st') ->
  forall n st d st', P st -> search_round n st d = Ok st' -> P st'.
Proof.
  intros Heval Hframe Hpropose n st d st' HP Hrun.
  unfold search_round in Hrun. inv_bind Hrun.
  assert (HP0 : P a).
  { eapply (for_each_invariant P); [| |eassumption];
      [|apply (Hframe st); [exact HP | reflexivity | reflexivity | reflexivity]].
    intros s0 p_i s1 H0 Hstep. unfold search_predictor in Hstep.
    inv_bind Hstep. inv_bind Hstep.
    assert (H1 : P a1).
    { eapply (for_each_invariant P); [|exact H0|eassumption].
      intros s2 c s3. apply Heval. }
    inv_bind Hstep. inv_bind Hstep. inv_bind Hstep. inv_bind Hstep. inv_bind Hstep.
    inv_bind Hstep. inversion Hstep; subst s1.
    apply (Hframe a1); [exact H1 | reflexivity | reflexivity | reflexivity]. }
  destruct (d =? self_depth - 1); [inversion Hrun; subst; exact HP0|].
  inv_bind Hrun. destruct a0 as [st1 new_candidates].
  inversion Hrun; subst st'; clear Hrun.
  apply (Hframe st1); [| reflexivity | reflexivity | reflexivity].
  change (P (fst (st1, new_candidates))).
  eapply (for_each_invariant (fun acc => P (fst acc))); [| |eassumption]; [|exact HP0].
  intros [s0 ps0] x [s1 ps1] H0 Hstep. cbn [fst snd] in *.
  eapply Hpropose; eauto.
Qed.

Lemma search_round_sized (n m : nat) (st st' : SearchState) (d : nat) :
  List.length (evaluated_candidates st) = m /\ List.length (results_best st) = m ->
  search_round n st d = Ok st' ->
  List.length (evaluated_candidates st') = m /\ List.length (results_best st') = m.
Proof.
  set (P := fun s : SearchState =>
              List.length (evaluated_candidates s) = m
              /\ List.length (results_best s) = m).
  intros Hsized Hrun. change (P st'). change (P st) in Hsized.
  apply (search_round_preserves P) with (n := n) (st := st) (d := d);
    [| | |exact Hsized|exact Hrun]; unfold P; clear.
  - intros d p_i n st [c_i c] st' [Hstores Hresults] Hrun.
    unfold evaluate_candidate in Hrun.
    inv_bind Hrun. inv_bind Hrun. inv_bind Hrun.
    destruct (evaluate (total_calls st) a1) as [score_ devset_annotated].
    inv_bind Hrun. inv_bind Hrun. inv_bind Hrun. inv_bind Hrun.
    inversion Hrun; subst st'; clear Hrun.
    cbn [evaluated_candidates results_best]. split; [|exact Hresults].
    match goal with
    | H : list_set (evaluated_candidates st) _ _ = Ok _ |- _ =>
        rewrite (list_set_length _ _ _ _ H)
    end.
    exact Hstores.
  - intros st st' [Hstores Hresults] _ Hs Hr. rewrite Hs, Hr. auto.
  - intros d st pools p_i st' pools' [Hstores Hresults] Hrun.
    unfold propose_candidates in Hrun.
    inv_bind Hrun. inv_bind Hrun. inv_bind Hrun. inv_bind Hrun. inv_bind Hrun.
    inversion Hrun; subst st'; clear Hrun.
    cbn [evaluated_candidates results_best]. split; [exact Hstores|].
    destruct self_track_stats.
    + match goal with
      | H : append_stats _ _ _ _ = Ok _ |- _ => rewrite (append_stats_length _ _ _ _ _ H)
      end.
      exact Hresults.
    + match goal with
      | H : Ok _ = Ok _ |- _ => inversion H; subst
      end.
      exact Hresults.
Qed.

Lemma search_predictor_fills (d n : nat) (st st' : SearchState) (p_i : nat) :
  search_predictor d n st p_i = Ok st' -> exists key, recorded st' p_i key.
Proof.
  intros Hrun. unfold search_predictor in Hrun.
  inv_bind Hrun. inv_bind Hrun. inv_bind Hrun.
  destruct (item (evaluated_candidates a0) p_i) as [store|e] eqn:Hstore;
    cbn [bind] in Hrun; [|discriminate].
  destruct (best_candidate store) as [best|e] eqn:Hbest; cbn [bind] in Hrun;
    [|discriminate].
  inv_bind Hrun. inv_bind Hrun. inv_bind Hrun.
  inversion Hrun; subst st'; clear Hrun.
  unfold recorded. cbn [evaluated_candidates].
  destruct store as [|[key v] rest]; [discriminate Hbest|].
  exists key, ((key, v) :: rest), v. split; [apply item_Ok, Hstore|].
  cbn [dict_get]. rewrite key_eqb_refl. reflexivity.
Qed.

Lemma search_predictors_fill (d n m : nat) :
  forall (k : nat) (st st' : SearchState),
  for_each (search_predictor d n) (seq k m) st = Ok st' ->
  forall p_i, k <= p_i < k + m -> exists key, recorded st' p_i key.
Proof.
  induction m as [|m IH]; intros k st st' Hrun p_i Hp; cbn [seq for_each] in Hrun;
    [lia|].
  inv_bind Hrun. destruct (Nat.eq_dec p_i k) as [->|Hne].
  - destruct (search_predictor_fills _ _ _ _ _ E) as [key Hkey].
    destruct (search_predictors_record _ _ _ _ _ _ Hrun) as (_ & Hkeep & _).
    exists key. apply Hkeep, Hkey.
  - apply (IH _ _ _ Hrun). lia.
Qed.

Lemma search_round_fills (n : nat) (st st' : SearchState) (d : nat) :
  search_round n st d = Ok st' ->
  forall p_i, p_i < n -> exists key, recorded st' p_i key.
Proof.
  intros Hrun p_i Hp. unfold search_round in Hrun. inv_bind Hrun.
  destruct (search_predictors_fill _ _ _ _ _ _ E p_i) as [key Hkey]; [lia|].
  exists key.
  destruct (d =? self_depth - 1); [inversion Hrun; subst; exact Hkey|].
  inv_bind Hrun. destruct a0 as [st1 new_candidates].
  inversion Hrun; subst st'; clear Hrun.
  change (recorded (fst (st1, new_candidates)) p_i key).
  eapply (for_each_invariant (fun acc => recorded (fst acc) p_i key));
    [| |eassumption]; [|exact Hkey].
  intros [s0 ps0] x [s1 ps1] H0 Hstep. cbn [fst snd] in *.
  eapply propose_candidates_keeps_recorded; eauto.
Qed.

Lemma search_sized (student : Program) (devset_ evalset_ : list Row)
      (st : SearchState) :
  search student devset_ evalset_ = Ok st ->
  List.length (evaluated_candidates st) = List.length student
  /\ List.length (results_best st) = List.length student.
Proof.
  intros Hrun. unfold search in Hrun. inv_bind Hrun. inv_bind Hrun.
  destruct a0 as [w candidates].
  eapply (for_each_invariant
            (fun s => List.length (evaluated_candidates s) = List.length student
                      /\ List.length (results_best s) = List.length student));
    [| |exact Hrun].
  - intros s0 d s1 H0 Hstep. eapply search_round_sized; eauto.
  - cbn [evaluated_candidates results_best]. rewrite !length_map. auto.
Qed.

Lemma search_stats_ready (student : Program) (devset_ evalset_ : list Row)
      (st : SearchState) :
  search student devset_ evalset_ = Ok st ->
  flat_map dict_values (evaluated_candidates st) <> [] ->
  stats_ready st.
Proof.
  intros Hrun Hne. pose proof (search_sized _ _ _ _ Hrun) as Hsized.
  unfold search in Hrun. inv_bind Hrun. inv_bind Hrun.
  destruct a0 as [w candidates].
  match type of Hrun with
  | for_each _ _ ?st0 = _ => set (start := st0) in *
  end.
  destruct self_depth as [|depth'] eqn:Hdepth.
  - exfalso. apply Hne. cbn [seq for_each] in Hrun. inversion Hrun; subst st.
    unfold start. cbn [evaluated_candidates]. clear.
    induction student as [|p rest IH]; [reflexivity | exact IH].
  - unfold stats_ready. split; [lia|]. destruct Hsized as [Hstores Hresults].
    split; [|congruence].
    cbn [seq for_each] in Hrun. inv_bind Hrun.
    apply Forall_forall. intros store Hstore.
    apply In_nth_error in Hstore. destruct Hstore as [p_i Hstore].
    assert (Hp : p_i < List.length student).
    { rewrite <- Hstores. apply nth_error_Some. congruence. }
    destruct (search_round_fills _ _ _ _ E1 p_i Hp) as [key Hkey].
    assert (Hend : recorded st p_i key).
    { eapply (for_each_invariant (fun s => recorded s p_i key));
        [|exact Hkey|exact Hrun].
      intros s0 x s1 H0 Hstep.
      destruct (search_round_records _ _ _ _ Hstep) as (_ & Hkeep). apply Hkeep, H0. }
    destruct Hend as (store' & r & Hstore' & Hget).
    rewrite Hstore in Hstore'. inversion Hstore'; subst store'.
    intros ->. discriminate Hget.
Qed.

(** ** What [compile] returns *)

(** C7.  When the search of [compile] has ended, whatever [compile] returns
    satisfies, for the records gathered from the stores: the final list is
    made of gathered records and stays sorted by score, largest first;
    every gathered record has a duplicate (same score, same instruction and
    output-field name at every predictor position) in the final list, and
    no two members of the final list are duplicates of each other, so of
    records that are duplicates of each other exactly one survives; a
    record that no other gathered record duplicates is in the final list,
    so two records that differ in score or in some instruction or
    output-field name both survive; and the program returned is the
    snapshot of the first member, whose score no gathered record exceeds.
    And [compile] does return when the student is made of one-signature
    predictors and some evaluation was stored. *)
Theorem compile_drops_duplicates (student : Program) (devset_ evalset_ : list Row)
        (st : SearchState) :
  let gathered := flat_map dict_values (evaluated_candidates st) in
  search student devset_ evalset_ = Ok st ->
  (forall r, compile student devset_ evalset_ = Ok r ->
     exists first rest,
       candidate_programs r = first :: rest
       /\ best_program r = program first
       /\ compiled_total_calls r = total_calls st
       /\ StronglySorted by_score_desc (candidate_programs r)
       /\ (forall c, In c gathered -> (score c <= score first)%Z)
       /\ incl (candidate_programs r) gathered
       /\ (forall c, In c gathered ->
             exists c', In c' (candidate_programs r) /\ duplicate c c')
       /\ (forall a b, In a (candidate_programs r) -> In b (candidate_programs r) ->
                       duplicate a b -> a = b)
       /\ NoDup (candidate_programs r)
       /\ (forall c, In c gathered ->
             (forall c', In c' gathered -> duplicate c c' -> c' = c) ->
             In c (candidate_programs r)))
  /\ ((forall p, In p student -> exists s0, p = OneSignature s0) ->
      gathered <> [] ->
      exists r, compile student devset_ evalset_ = Ok r).
Proof.
  intros gathered Hsearch.
  destruct (search_snapshots student devset_ evalset_ st Hsearch)
    as (shape & Hshape & Hone).
  unfold compile. rewrite Hsearch. cbn [bind]. split.
  - intros r Hrun. apply (select_best_sound shape st r Hshape Hrun).
  - intros Hall Hne.
    apply (select_best_total shape st (Hone Hall) Hshape Hne).
    intros _. eapply search_stats_ready; eauto.
Qed.

(** ** The baseline among the candidates *)



(** * Further properties *)

(** ** Reading indices back from a text *)

Lemma string_of_list_ascii_app (a b : list ascii) :
  string_of_list_ascii (a ++ b)
  = (string_of_list_ascii a ++ string_of_list_ascii b)%string.
Proof. induction a as [|c a IH]; simpl; [reflexivity | rewrite IH; reflexivity]. Qed.

Lemma list_ascii_of_string_app (a b : string) :
  list_ascii_of_string (a ++ b) = list_ascii_of_string a ++ list_ascii_of_string b.
Proof. induction a as [|c a IH]; simpl; [reflexivity | rewrite IH; reflexivity]. Qed.

Lemma string_of_uint_digits (d : Decimal.uint) :
  all_digits (NilEmpty.string_of_uint d).
Proof.
  unfold all_digits. induction d; simpl; constructor; auto.
Qed.

Lemma str_of_nat_digits (n : nat) : all_digits (Text.str_of_nat n).
Proof. apply string_of_uint_digits. Qed.

Lemma str_of_nat_nonempty (n : nat) : Text.str_of_nat n <> EmptyString.
Proof.
  unfold Text.str_of_nat.
  destruct (Nat.to_uint n) eqn:E; simpl; try discriminate.
  pose proof (DecimalNat.Unsigned.of_to n) as Hn. rewrite E in Hn.
  cbn in Hn. subst n. discriminate E.
Qed.

Lemma int_of_digits_from_uint (d : Decimal.uint) (acc : nat) :
  Text.int_of_digits_from (NilEmpty.string_of_uint d) acc = Nat.of_uint_acc d acc.
Proof.
  revert acc. induction d; intros acc; simpl; rewrite ?IHd, ?Nat.tail_mul_spec;
    try reflexivity; f_equal; lia.
Qed.

(** [int(str(n)) == n] *)
Lemma int_of_digits_str_of_nat (n : nat) :
  Text.int_of_digits (Text.str_of_nat n) = n.
Proof.
  unfold Text.int_of_digits, Text.str_of_nat. rewrite int_of_digits_from_uint.
  apply DecimalNat.Unsigned.of_to.
Qed.

(** Reading on through a run of digits. *)
Lemma findall_digits_run (ds rest : string) (run : list ascii) :
  all_digits ds ->
  Text.findall_digits_from (ds ++ rest) run
  = Text.findall_digits_from rest (rev (list_ascii_of_string ds) ++ run).
Proof.
  revert run. induction ds as [|c ds IH]; intros run Hall; [reflexivity|].
  inversion Hall as [|? ? Hc Hrest]; subst. simpl. rewrite Hc.
  rewrite IH by exact Hrest. rewrite <- app_assoc. reflexivity.
Qed.

(** A character that is no digit ends the run being read. *)
Lemma findall_digits_stop (c : ascii) (rest : string) (run : list ascii) :
  Text.is_digit c = false ->
  Text.findall_digits_from (String c rest) run
  = match run with
    | [] => []
    | _ => [string_of_list_ascii (rev run)]
    end ++ Text.findall_digits_from rest [].
Proof. intros Hc. simpl. rewrite Hc. destruct run; reflexivity. Qed.

Lemma findall_digits_number (n : nat) (c : ascii) (rest : string) :
  Text.is_digit c = false ->
  Text.findall_digits_from (Text.str_of_nat n ++ String c rest) []
  = Text.str_of_nat n :: Text.findall_digits_from rest [].
Proof.
  intros Hc. rewrite findall_digits_run by apply str_of_nat_digits.
  rewrite findall_digits_stop by exact Hc. rewrite app_nil_r, rev_involutive.
  rewrite string_of_list_ascii_of_string.
  destruct (rev (list_ascii_of_string (Text.str_of_nat n))) eqn:Hrev; [|reflexivity].
  exfalso. apply (str_of_nat_nonempty n).
  apply (f_equal (@rev ascii)) in Hrev. rewrite rev_involutive in Hrev.
  rewrite <- (string_of_list_ascii_of_string (Text.str_of_nat n)), Hrev. reflexivity.
Qed.

Lemma findall_digits_joined (indices : list nat) :
  Text.findall_digits_from (Text.join ", " (map Text.str_of_nat indices) ++ "]") []
  = map Text.str_of_nat indices.
Proof.
  induction indices as [|n rest IH]; [reflexivity|].
  destruct rest as [|m rest].
  - cbn [map Text.join String.concat].
    rewrite findall_digits_number by reflexivity. reflexivity.
  - change (Text.join ", " (map Text.str_of_nat (n :: m :: rest)))
      with (Text.str_of_nat n ++ ", " ++ Text.join ", " (map Text.str_of_nat (m :: rest)))%string.
    rewrite !string_app_assoc.
    change (", " ++ ?x)%string with (String "," (String " " x)).
    rewrite findall_digits_number by reflexivity.
    cbn [map]. f_equal.
    rewrite findall_digits_stop by reflexivity. exact IH.
Qed.

(** X1.  [safe_strip] reads back every list of indices written in the
    form the prompts ask for: for every list of non-negative integers,
    parsing its stringified form gives the list again, in order and with
    its repetitions. *)
Theorem safe_strip_reads_stringified_list (indices : list nat) :
  safe_strip (PyStr (stringified_list indices)) = indices.
Proof.
  unfold safe_strip, stringified_list, py_str, Text.findall_digits.
  change ("[" ++ ?x)%string with (String "[" x).
  rewrite findall_digits_stop by reflexivity. cbn [app].
  rewrite findall_digits_joined, map_map.
  rewrite <- (map_id indices) at 2. apply map_ext. apply int_of_digits_str_of_nat.
Qed.

Lemma findall_digits_none (s : string) (run : list ascii) :
  Text.findall_digits_from s run = [] <-> run = [] /\ no_digit s.
Proof.
  revert run. induction s as [|c s IH]; intros run.
  - simpl. destruct run; split.
    + intros _. split; [reflexivity | constructor].
    + intros _. reflexivity.
    + discriminate.
    + intros [H _]. discriminate.
  - simpl. destruct (Text.is_digit c) eqn:Hc.
    + rewrite IH. split.
      * intros [H _]. discriminate.
      * intros [_ H]. inversion H; subst. congruence.
    + destruct run.
      * rewrite IH. split.
        -- intros [_ H]. split; [reflexivity | constructor; assumption].
        -- intros [_ H]. inversion H; subst. split; [reflexivity | assumption].
      * split; [discriminate | intros [H _]; discriminate].
Qed.

(** X2.  [safe_strip] gives no index exactly when the text holds no digit
    at all: this is the one case in which [propose_metric_observations]
    gives up on a completion. *)
Theorem safe_strip_empty_iff_no_digit (text : field_value) :
  safe_strip text = [] <-> no_digit (py_str text).
Proof.
  unfold safe_strip, Text.findall_digits. split.
  - intros H. apply map_eq_nil in H. apply findall_digits_none in H. apply H.
  - intros H. replace (Text.findall_digits_from (py_str text) []) with (@nil string);
      [reflexivity|].
    symmetry. apply findall_digits_none. split; [reflexivity | exact H].
Qed.

(** ** The dataset frame *)

Lemma find_combine_seq_none (l : list Row) (s label : nat) :
  label < s \/ s + List.length l <= label ->
  find (fun r : nat * Row => fst r =? label) (combine (seq s (List.length l)) l) = None.
Proof.
  revert s. induction l as [|y l IH]; intros s Hout; [reflexivity|].
  cbn [List.length seq combine find fst]. cbn [List.length] in Hout.
  destruct (Nat.eqb_spec s label) as [->|Hne]; [lia|].
  apply IH. lia.
Qed.

Lemma loc_row_exemplars_to_df_exact (rows : list Row) (label : nat) :
  loc_row (exemplars_to_df rows) label
  = if label <? List.length rows then Ok (label, nth label rows [])
    else Raise KeyError.
Proof.
  unfold loc_row, exemplars_to_df.
  destruct (Nat.ltb_spec label (List.length rows)) as [Hlt|Hge].
  - rewrite (find_combine_seq rows 0 label (nth label rows [])); [reflexivity | lia |].
    rewrite Nat.sub_0_r. apply nth_error_nth'. exact Hlt.
  - rewrite find_combine_seq_none; [reflexivity | right; lia].
Qed.

(** X3.  The frame made from a list of examples answers a lookup by
    labels with the examples at these positions, in the order asked for
    and as often as asked for, when every label is below the number of
    examples, and with [KeyError] as soon as one label is not; its own
    labels are the positions 0, 1, ... *)
Theorem exemplars_to_df_loc (rows : list Row) (labels : list nat) :
  df_index (exemplars_to_df rows) = seq 0 (List.length rows)
  /\ loc (exemplars_to_df rows) labels
     = if forallb (fun label => label <? List.length rows) labels
       then Ok (map (fun label => (label, nth label rows [])) labels)
       else Raise KeyError.
Proof.
  split.
  - unfold df_index, exemplars_to_df.
    generalize 0. induction rows as [|r rows IH]; intros s; [reflexivity|].
    cbn [List.length seq combine map fst]. rewrite IH. reflexivity.
  - induction labels as [|l labels IH]; [reflexivity|].
    cbn [loc forallb map]. rewrite loc_row_exemplars_to_df_exact, IH.
    destruct (l <? List.length rows); cbn [bind andb]; [|reflexivity].
    destruct (forallb _ labels); reflexivity.
Qed.

(** ** Degenerate runs of [compile] *)

(** X4.  [compile] needs examples: with an empty development set or an
    empty evaluation set it raises [IndexError], whatever the program. *)
Theorem compile_raises_without_examples (student : Program)
        (devset_ evalset_ : list Row) :
  devset_ = [] \/ evalset_ = [] ->
  compile student devset_ evalset_ = Raise IndexError.
Proof.
  intros Hempty. unfold compile, search, MetricObservationHistory_init.
  destruct devset_ as [|r0 devset_]; [reflexivity|].
  destruct Hempty as [Hd|He]; [discriminate|]. subst evalset_. reflexivity.
Qed.

Lemma history_init_error (devset_ evalset_ : list Row) (metric_ : string) (e : exn) :
  MetricObservationHistory_init devset_ evalset_ metric_ = Raise e -> e = IndexError.
Proof.
  unfold MetricObservationHistory_init, checked_exemplars_to_df.
  destruct devset_; cbn [bind]; [intros H; inversion H; reflexivity|].
  destruct evalset_; cbn [bind]; [intros H; inversion H; reflexivity | discriminate].
Qed.

Lemma last_item_error {A : Type} (xs : list A) (e : exn) :
  last_item xs = Raise e -> e = IndexError.
Proof.
  unfold last_item. destruct (rev xs); [|discriminate].
  intros H. inversion H. reflexivity.
Qed.

Lemma seed_candidates_error (predictors : list Predictor) :
  forall (w : World) (e : exn),
  seed_candidates w predictors = Raise e -> e = IndexError.
Proof.
  induction predictors as [|p rest IH]; intros w e Hrun; cbn [seed_candidates] in Hrun;
    [discriminate|].
  destruct (initial_candidates (lm_calls w) p) as [pool|e0] eqn:Hpool; cbn [bind] in Hrun.
  - destruct (seed_candidates (count_lm_call w) rest) as [more|e1] eqn:Hmore;
      cbn [bind] in Hrun; [discriminate|].
    inversion Hrun; subst e1. eapply IH; eauto.
  - inversion Hrun; subst e0. unfold initial_candidates in Hpool.
    destruct (basic_of p) as [[bi bp]|e2] eqn:Hbasic; cbn [bind] in Hpool; [discriminate|].
    inversion Hpool; subst e2.
    destruct p as [s0|s1 s2]; cbn [basic_of] in Hbasic.
    + destruct (last_item (fields s0)) eqn:Hlast; cbn [bind] in Hbasic; [discriminate|].
      inversion Hbasic; subst. eapply last_item_error; eauto.
    + destruct (last_item (fields s1)) eqn:Hlast; cbn [bind] in Hbasic; [discriminate|].
      inversion Hbasic; subst. eapply last_item_error; eauto.
Qed.

Lemma gather_candidates_untracked (stores : list CandidateStore) :
  self_track_stats = false ->
  forall (p_i : nat) (candidates : list EvaluationRecord) (results : list Stats),
  gather_candidates stores p_i candidates results
  = Ok (candidates ++ flat_map dict_values stores, results).
Proof.
  intros Htrack. induction stores as [|store stores IH]; intros p_i candidates results;
    cbn [gather_candidates flat_map].
  - rewrite app_nil_r. reflexivity.
  - rewrite Htrack. cbn [bind]. rewrite IH, app_assoc. reflexivity.
Qed.

Lemma flat_map_nothing_stored {A : Type} (xs : list A) :
  flat_map dict_values (map (fun _ => []) xs) = [].
Proof. induction xs as [|x xs IH]; [reflexivity | exact IH]. Qed.

(** With no record in any store, the tail of [compile] raises: on reading
    the loop variable when the statistics are tracked and there is a store,
    on taking the first of no candidate otherwise. *)
Lemma select_best_nothing_stored (st : SearchState) (student : Program) :
  evaluated_candidates st = map (fun _ => []) student ->
  (student <> [] -> self_depth = 0) ->
  select_best st
  = Raise (match student with
           | [] => IndexError
           | _ :: _ => if self_track_stats then UnboundLocalError else IndexError
           end).
Proof.
  intros Hstores Hdepth. unfold select_best. rewrite Hstores.
  destruct student as [|p rest].
  - reflexivity.
  - destruct self_track_stats eqn:Htrack.
    + cbn [map gather_candidates]. rewrite Htrack. unfold loop_variable_d.
      rewrite Hdepth by discriminate. reflexivity.
    + rewrite gather_candidates_untracked by exact Htrack.
      rewrite flat_map_nothing_stored. reflexivity.
Qed.

Lemma search_round_no_predictor (st : SearchState) (d : nat) :
  exists st', search_round 0 st d = Ok st'
              /\ evaluated_candidates st' = evaluated_candidates st.
Proof.
  unfold search_round. cbn [seq for_each bind].
  destruct (d =? self_depth - 1); eexists; split; reflexivity.
Qed.

Lemma search_no_predictor (ds : list nat) :
  forall st, exists st',
    for_each (search_round 0) ds st = Ok st'
    /\ evaluated_candidates st' = evaluated_candidates st.
Proof.
  induction ds as [|d ds IH]; intros st; cbn [for_each].
  - eauto.
  - destruct (search_round_no_predictor st d) as (st1 & Hrun & Hsame).
    rewrite Hrun. cbn [bind]. destruct (IH st1) as (st' & Hrest & Hsame').
    exists st'. split; [exact Hrest | congruence].
Qed.

(** Without a round or without a predictor the search evaluates nothing. *)
Lemma search_without_evaluation (student : Program) (devset_ evalset_ : list Row) :
  self_depth = 0 \/ student = [] ->
  search student devset_ evalset_ = Raise IndexError
  \/ exists st, search student devset_ evalset_ = Ok st
                /\ evaluated_candidates st = map (fun _ => []) student.
Proof.
  intros Hnone. unfold search.
  destruct (MetricObservationHistory_init devset_ evalset_ metric_source) as [h|e] eqn:Hinit;
    cbn [bind]; [|apply history_init_error in Hinit; subst e; left; reflexivity].
  destruct Hnone as [Hdepth|Hstudent].
  - destruct (seed_candidates _ student) as [[w candidates]|e] eqn:Hseed; cbn [bind];
      [|apply seed_candidates_error in Hseed; subst e; left; reflexivity].
    rewrite Hdepth. cbn [seq for_each]. right. eexists. split; reflexivity.
  - subst student. cbn [seed_candidates bind map List.length].
    match goal with
    | |- context [for_each _ _ ?st0] => destruct (search_no_predictor (seq 0 self_depth) st0)
        as (st' & Hrun & Hsame)
    end.
    right. exists st'. split; [exact Hrun | exact Hsame].
Qed.

(** X5.  [compile] needs a round and a predictor: when the depth is 0, or
    when the program has no predictor, no candidate is ever evaluated and
    [compile] raises instead of returning the program.  The error is
    [IndexError] (at the latest when it takes the first of its empty list
    of candidates), except that with the statistics tracked, a program
    that has a predictor and a search that got through its preparation,
    it is [UnboundLocalError]: the last loop then reads the variable of
    the loop over the depths, which had no turn. *)
Theorem compile_raises_without_evaluation (student : Program)
        (devset_ evalset_ : list Row) :
  self_depth = 0 \/ student = [] ->
  exists e,
    compile student devset_ evalset_ = Raise e
    /\ (e = IndexError \/ e = UnboundLocalError)
    /\ (e = UnboundLocalError
        <-> self_track_stats = true /\ student <> []
            /\ exists st, search student devset_ evalset_ = Ok st).
Proof.
  intros Hnone. unfold compile.
  destruct (search_without_evaluation student devset_ evalset_ Hnone)
    as [Hraise|(st & Hrun & Hstores)].
  - rewrite Hraise. cbn [bind]. exists IndexError. split; [reflexivity|].
    split; [left; reflexivity|]. split; [discriminate|].
    intros (_ & _ & st & Hst). discriminate Hst.
  - rewrite Hrun. cbn [bind].
    rewrite (select_best_nothing_stored st student Hstores).
    + destruct student as [|p rest].
      * exists IndexError. split; [reflexivity|]. split; [left; reflexivity|].
        split; [discriminate|]. intros (_ & Hne & _). congruence.
      * destruct self_track_stats.
        -- exists UnboundLocalError. split; [reflexivity|].
           split; [right; reflexivity|]. split; [|reflexivity].
           intros _. split; [reflexivity|]. split; [discriminate | eauto].
        -- exists IndexError. split; [reflexivity|]. split; [left; reflexivity|].
           split; [discriminate|]. intros (Htrack & _). discriminate Htrack.
    + intros Hne. destruct Hnone as [Hdepth|Hstudent]; [exact Hdepth | congruence].
Qed.

(** ** What a call of [propose_metric_observations] leaves behind *)

Lemma propose_loop_calls (gens : ProposeCompletions) (k : list nat) :
  forall (a b : World * list MetricObservation),
  for_each (propose_step gens) k a = Ok b -> lm_calls (fst b) = lm_calls (fst a).
Proof.
  induction k as [|i k IH]; intros a b Hr; cbn [for_each] in Hr.
  - inversion Hr. reflexivity.
  - destruct (propose_step gens a i) as [a1|e] eqn:Hs; cbn [bind] in Hr; [|discriminate].
    rewrite (IH _ _ Hr). clear - Hs. destruct a as [wa acc]. unfold propose_step in Hs.
    destruct (item _ i); cbn [bind] in Hs; [|discriminate].
    destruct (_ =? 0); [discriminate|].
    destruct (item (proposed_metric_observation_summary gens) i); cbn [bind] in Hs;
      [|discriminate].
    destruct (loc _ _); cbn [bind] in Hs; [|discriminate].
    destruct (_ <? _); inversion Hs; reflexivity.
Qed.

(** X6.  A call of [propose_metric_observations] that returns has sent
    one request to the model; it has moved the observations of the
    current generation behind those of [used], left [unused] as it was,
    and made the current generation anew, of as many new objects as the
    model gave summaries; and if every observation was in exactly one of
    the three sets before, it is so after. *)
Theorem propose_metric_observations_rotates_generations (w w' : World)
        (instructions_ : string) (failed_on succeeded_on : DataFrame)
        (history_ : list EvaluationRecord) :
  let h := metric_observation_history w in
  let h' := metric_observation_history w' in
  let request := propose_request w instructions_ failed_on succeeded_on history_ in
  let n := List.length (proposed_metric_observation_summary
                          (predict_propose (lm_calls w) request)) in
  propose_metric_observations w instructions_ failed_on succeeded_on history_ = Ok w' ->
  previous_generations_metric_observations_used h'
  = previous_generations_metric_observations_used h
    ++ current_generation_metric_observations h
  /\ previous_generations_metric_observations_unused h'
     = previous_generations_metric_observations_unused h
  /\ map oid (current_generation_metric_observations h') = seq (next_oid w) n
  /\ next_oid w' = next_oid w + n
  /\ lm_calls w' = S (lm_calls w)
  /\ (sets_disjoint w -> sets_disjoint w').
Proof.
  intros h h' request n Hrun.
  assert (Hkeep : sets_disjoint w -> sets_disjoint w').
  { intros Hd. eapply propose_keeps_sets_disjoint; eauto. }
  unfold propose_metric_observations in Hrun. fold request in Hrun.
  set (gens := if Text.contains "None Shown"
                    (sample_questions_the_current_instructions_fail_on request)
               then force_empty_citations (predict_propose (lm_calls w) request)
               else predict_propose (lm_calls w) request) in Hrun.
  assert (Hn : List.length (proposed_metric_observation_summary gens) = n).
  { subst gens. destruct (Text.contains _ _); reflexivity. }
  rewrite Hn in Hrun.
  destruct (for_each (propose_step gens) (seq 0 n) (count_lm_call w, []))
    as [[w1 news]|e] eqn:Hloop; cbn [bind] in Hrun; [|discriminate].
  pose proof (propose_loop_calls gens _ _ _ Hloop) as Hcalls.
  cbn [fst count_lm_call lm_calls] in Hcalls.
  apply propose_loop_inv in Hloop.
  destruct Hloop as (Hh & Hnext & news' & Hnews & Hoids). cbn [app] in Hnews. subst news'.
  cbn [count_lm_call metric_observation_history next_oid] in Hh, Hnext, Hoids.
  inversion Hrun; subst w'; clear Hrun. subst h'.
  split; [|split; [|split; [|split; [|split; [|exact Hkeep]]]]];
    cbn [print set_history set_current set_used metric_observation_history next_oid
         lm_calls current_generation_metric_observations
         previous_generations_metric_observations_used
         previous_generations_metric_observations_unused].
  - rewrite Hh. reflexivity.
  - rewrite Hh. reflexivity.
  - exact Hoids.
  - exact Hnext.
  - exact Hcalls.
Qed.

Lemma map_const_seq {A B : Type} (c : B) (l : list A) (s : nat) :
  map (fun _ => c) (seq s (List.length l)) = map (fun _ => c) l.
Proof.
  revert s. induction l as [|x l IH]; intros s; [reflexivity|].
  cbn [List.length seq map]. rewrite IH. reflexivity.
Qed.

(** X7.  With as many index fields as summaries, a call of
    [propose_metric_observations] ends in one of two ways, told by the
    index fields as the loop reads them: if one of them parses to no
    index, the call raises the validation error; otherwise it returns.
    It raises nothing else: no label it looks up is missing from the
    dataset frame. *)
Theorem propose_metric_observations_outcome (w : World) (instructions_ : string)
        (failed_on succeeded_on : DataFrame) (history_ : list EvaluationRecord) :
  let h := metric_observation_history w in
  let request := propose_request w instructions_ failed_on succeeded_on history_ in
  let gens := predict_propose (lm_calls w) request in
  let texts :=
    citations_read
      (sample_questions_the_current_instructions_fail_on request)
      (indices_in_provided_failed_examples_that_exemplify_proposed_metric_observation
         gens) in
  devset_df h = exemplars_to_df (devset h) ->
  List.length
    (indices_in_provided_failed_examples_that_exemplify_proposed_metric_observation gens)
  = List.length (proposed_metric_observation_summary gens) ->
  if existsb (fun text => List.length (safe_strip text) =? 0) texts
  then propose_metric_observations w instructions_ failed_on succeeded_on history_
       = Raise (ValueError "Exemplar parsing failed")
  else exists w',
         propose_metric_observations w instructions_ failed_on succeeded_on history_
         = Ok w'.
Proof.
  intros h request gens texts Hwf Hlen.
  unfold propose_metric_observations. fold request. fold gens.
  set (gens' := if Text.contains "None Shown"
                     (sample_questions_the_current_instructions_fail_on request)
                then force_empty_citations gens else gens).
  assert (Htexts :
    indices_in_provided_failed_examples_that_exemplify_proposed_metric_observation gens'
    = texts).
  { subst gens' texts. unfold citations_read.
    destruct (Text.contains _ _); [|reflexivity].
    cbn [force_empty_citations
         indices_in_provided_failed_examples_that_exemplify_proposed_metric_observation].
    apply map_const_seq. }
  assert (Hsums : proposed_metric_observation_summary gens'
                  = proposed_metric_observation_summary gens).
  { subst gens'. destruct (Text.contains _ _); reflexivity. }
  assert (Hlen' : List.length texts
                  = List.length (proposed_metric_observation_summary gens)).
  { rewrite <- Hlen. subst texts. unfold citations_read.
    destruct (Text.contains _ _); [apply length_map | reflexivity]. }
  rewrite Hsums.
  assert (Hall : forall i,
    0 <= i < 0 + List.length (proposed_metric_observation_summary gens) ->
    exists text s,
      nth_error (indices_in_provided_failed_examples_that_exemplify_proposed_metric_observation
                   gens') i = Some text
      /\ nth_error (proposed_metric_observation_summary gens') i = Some s).
  { intros i Hi. rewrite Htexts, Hsums.
    destruct (nth_error texts i) as [t|] eqn:Ht; [|apply nth_error_None in Ht; lia].
    destruct (nth_error (proposed_metric_observation_summary gens) i) as [s0|] eqn:Hs;
      [|apply nth_error_None in Hs; lia].
    eauto. }
  destruct (existsb _ texts) eqn:Hex.
  - apply existsb_exists in Hex. destruct Hex as (text & Hin & Hzero).
    apply Nat.eqb_eq, length_zero_iff_nil in Hzero.
    rewrite (propose_loop_raises gens'
               (List.length (proposed_metric_observation_summary gens)) 0
               (count_lm_call w) []); [reflexivity | exact Hwf | exact Hall |].
    apply In_nth_error in Hin. destruct Hin as [i Hi]. exists i, text.
    split; [|rewrite Htexts; auto]. split; [lia|].
    rewrite <- Hlen'. apply nth_error_Some. congruence.
  - destruct (propose_loop_ok gens' h
                (List.length (proposed_metric_observation_summary gens))
                0 (count_lm_call w) [])
      as (news & outs & Hloop & _); [reflexivity | exact Hwf | |].
    + intros i Hi. destruct (Hall i Hi) as (text & s & Ht & Hs).
      exists text, s. split; [exact Ht|]. split; [|exact Hs].
      intros Hnil. rewrite Htexts in Ht. apply nth_error_In in Ht.
      assert (Hfalse : existsb (fun text => List.length (safe_strip text) =? 0) texts = true).
      { apply existsb_exists. exists text. split; [exact Ht|]. rewrite Hnil. reflexivity. }
      congruence.
    + rewrite Hloop. cbn [bind]. eexists. reflexivity.
Qed.

(** ** Rows that bring the words of the sentinel into the rendering *)

Lemma contains_cons (needle : string) (c : ascii) (s : string) :
  Text.contains needle (String c s)
  = String.prefix needle (String c s) || Text.contains needle s.
Proof.
  unfold Text.contains. cbn [String.index].
  destruct (String.prefix needle (String c s)); [reflexivity|].
  destruct (String.index 0 needle s); reflexivity.
Qed.

Lemma prefix_app (needle a b : string) :
  String.prefix needle a = true -> String.prefix needle (a ++ b) = true.
Proof.
  revert a. induction needle as [|x needle IH]; intros a H;
    [destruct (a ++ b)%string; reflexivity|].
  destruct a as [|y a]; [discriminate|]. cbn [append String.prefix] in *.
  destruct (ascii_dec x y); [apply IH, H | discriminate].
Qed.

Lemma contains_app_r (needle a b : string) :
  Text.contains needle b = true -> Text.contains needle (a ++ b) = true.
Proof.
  intros H. induction a as [|c a IH]; [exact H|].
  cbn [append]. rewrite contains_cons, IH. apply orb_true_r.
Qed.

Lemma contains_app_l (needle a b : string) :
  Text.contains needle a = true -> Text.contains needle (a ++ b) = true.
Proof.
  induction a as [|c a IH]; intros H.
  - destruct needle; [|discriminate H]. destruct b; reflexivity.
  - cbn [append]. rewrite contains_cons in *. apply orb_true_iff in H.
    destruct H as [H|H].
    + change (String c (a ++ b)) with (String c a ++ b)%string.
      rewrite (prefix_app _ _ _ H). reflexivity.
    + rewrite (IH H). apply orb_true_r.
Qed.

Lemma markdown_rows_contains (needle : string) (df : DataFrame) :
  forall (acc s : string),
  markdown_rows df acc = Some s ->
  Text.contains needle acc = true
  \/ (exists l row md, In (l, row) df /\ to_markdown row = Some md
                       /\ Text.contains needle md = true) ->
  Text.contains needle s = true.
Proof.
  induction df as [|[l row] df IH]; intros acc s Hrun Hin; cbn [markdown_rows] in Hrun.
  - inversion Hrun; subst s. destruct Hin as [H|(l & row & md & [] & _)]. exact H.
  - destruct (to_markdown row) as [md|] eqn:Hmd; [|discriminate].
    apply (IH _ _ Hrun). destruct Hin as [H|(l' & row' & md' & [Heq|Hin] & Hmd' & Hc)].
    + left. apply contains_app_l, H.
    + inversion Heq; subst l' row'. rewrite Hmd in Hmd'. inversion Hmd'; subst md'.
      left. apply contains_app_r, contains_app_r, contains_app_l, Hc.
    + right. exists l', row', md'. auto.
Qed.

Lemma markdown_rows_fails (df : DataFrame) :
  forall acc,
  (exists l row, In (l, row) df /\ to_markdown row = None) ->
  markdown_rows df acc = None.
Proof.
  induction df as [|[l row] df IH]; intros acc (l' & row' & Hin & Hnone);
    [destruct Hin|].
  cbn [markdown_rows]. destruct Hin as [Heq|Hin].
  - inversion Heq; subst. rewrite Hnone. reflexivity.
  - destruct (to_markdown row); [|reflexivity]. apply IH. eauto.
Qed.

(** A row among those shown that cannot be rendered, or whose rendering
    holds the words of the sentinel, brings these words into the text. *)
Lemma stringify_holds_sentinel_words (df : DataFrame) (budget : Z) :
  (exists l row,
     In (l, row) (firstn (rows_to_keep df 0 budget) df)
     /\ (to_markdown row = None
         \/ exists md, to_markdown row = Some md
                       /\ Text.contains "None Shown" md = true)) ->
  Text.contains "None Shown" (budgeted_df_stringify df budget) = true.
Proof.
  intros (l & row & Hin & Hrow). unfold budgeted_df_stringify.
  destruct (rows_to_keep df 0 budget =? 0); [apply contains_none_shown_sentinel|].
  unfold safely_markdownify.
  destruct (markdown_rows (firstn (rows_to_keep df 0 budget) df) EmptyString)
    as [s|] eqn:Hrun; [|reflexivity].
  destruct Hrow as [Hnone|(md & Hmd & Hc)].
  - rewrite markdown_rows_fails in Hrun; [discriminate | eauto].
  - apply (markdown_rows_contains _ _ _ _ Hrun). right. exists l, row, md. auto.
Qed.

(** X8.  The sentinel is recognised by its words.  When one of the
    failing rows shown cannot be rendered (the rendering is then the fixed
    text that starts with the same words), or when the rendering of one of
    them holds these words itself, [propose_metric_observations] takes the
    rendering for the sentinel, replaces the index fields by empty lists
    and, if the model returned a completion, raises the validation
    error. *)
Theorem propose_metric_observations_raises_on_sentinel_words
        (w : World) (instructions_ : string)
        (failed_on succeeded_on : DataFrame) (history_ : list EvaluationRecord) :
  let h := metric_observation_history w in
  let request := propose_request w instructions_ failed_on succeeded_on history_ in
  let gens := predict_propose (lm_calls w) request in
  (exists l row,
     In (l, row) (firstn (rows_to_keep failed_on 0 (tokens_incorrect_example h))
                         failed_on)
     /\ (to_markdown row = None
         \/ exists md, to_markdown row = Some md
                       /\ Text.contains "None Shown" md = true)) ->
  proposed_metric_observation_summary gens <> [] ->
  indices_in_provided_failed_examples_that_exemplify_proposed_metric_observation gens
    <> [] ->
  propose_metric_observations w instructions_ failed_on succeeded_on history_
  = Raise (ValueError "Exemplar parsing failed").
Proof.
  intros h request gens Hrow Hsum Hidx.
  assert (Hshown : Text.contains "None Shown"
                     (sample_questions_the_current_instructions_fail_on request) = true).
  { apply stringify_holds_sentinel_words, Hrow. }
  unfold propose_metric_observations. fold request. rewrite Hshown. fold gens.
  cbn [force_empty_citations proposed_metric_observation_summary].
  destruct (proposed_metric_observation_summary gens) as [|s0 rest]; [congruence|].
  cbn [List.length seq for_each]. unfold propose_step at 1.
  cbn [indices_in_provided_failed_examples_that_exemplify_proposed_metric_observation
       force_empty_citations].
  destruct (indices_in_provided_failed_examples_that_exemplify_proposed_metric_observation
              gens) as [|t0 ts]; [congruence|].
  reflexivity.
Qed.

(** ** The observations cite rows of the dataset *)

Lemma items_in_range {A : Type} (xs : list A) (indices : list nat) :
  Forall (fun i => i < List.length xs) indices ->
  exists found, items xs indices = Ok found /\ incl found xs.
Proof.
  induction 1 as [|i indices Hi _ IH]; cbn [items].
  - exists []. split; [reflexivity | intros x []].
  - destruct IH as (more & Hmore & Hincl).
    destruct (nth_error xs i) as [x|] eqn:Hx; [|apply nth_error_None in Hx; lia].
    unfold item. rewrite Hx, Hmore. cbn [bind]. exists (x :: more).
    split; [reflexivity|]. intros y [<-|Hy]; [eapply nth_error_In; eauto | auto].
Qed.

Lemma citations_below_in_range (bound : nat) (text : field_value) :
  Forall (fun i => i < bound) (citations_below bound text).
Proof.
  apply Forall_forall. intros i Hi. unfold citations_below in Hi.
  apply filter_In in Hi. destruct Hi as [_ Hi]. apply Nat.ltb_lt in Hi. exact Hi.
Qed.

Lemma propose_step_backed (gens : ProposeCompletions) (w w' : World)
      (acc acc' : list MetricObservation) (i : nat) :
  propose_step gens (w, acc) i = Ok (w', acc') ->
  exists mo, acc' = acc ++ [mo]
             /\ exemplars_in_devset (metric_observation_history w) mo.
Proof.
  unfold propose_step.
  destruct (item _ i) as [text|e]; cbn [bind]; [|discriminate].
  destruct (List.length (safe_strip text) =? 0); [discriminate|].
  destruct (item (proposed_metric_observation_summary gens) i) as [s|e];
    cbn [bind]; [|discriminate].
  destruct (loc _ _) as [rows|e] eqn:Hrows; cbn [bind]; [|discriminate].
  apply loc_spec in Hrows. destruct Hrows as [Hidx _].
  intros H.
  assert (Hacc : acc' = acc ++ [MetricObservation_init
                                  (next_oid w) s rows]).
  { destruct (_ <? _); inversion H; reflexivity. }
  eexists. split; [exact Hacc|].
  unfold exemplars_in_devset. cbn [MetricObservation_init failure_exemplars].
  rewrite Hidx. apply (citations_below_in_range _ text).
Qed.

Lemma propose_loop_backed (gens : ProposeCompletions) (k : list nat) :
  forall (w w' : World) (acc acc' : list MetricObservation),
  for_each (propose_step gens) k (w, acc) = Ok (w', acc') ->
  exists news, acc' = acc ++ news
               /\ Forall (exemplars_in_devset (metric_observation_history w)) news.
Proof.
  induction k as [|i k IH]; intros w w' acc acc' Hrun; cbn [for_each] in Hrun.
  - inversion Hrun; subst. exists []. rewrite app_nil_r. auto.
  - destruct (propose_step gens (w, acc) i) as [[w1 acc1]|e] eqn:Hstep;
      cbn [bind] in Hrun; [|discriminate].
    pose proof (propose_step_inv _ _ _ _ _ _ Hstep) as (Hh & _).
    apply propose_step_backed in Hstep. destruct Hstep as (mo & -> & Hmo).
    apply IH in Hrun. destruct Hrun as (news & -> & Hnews). rewrite Hh in Hnews.
    exists (mo :: news). rewrite <- app_assoc. split; [reflexivity|].
    constructor; assumption.
Qed.

Lemma propose_keeps_history_backed (w w' : World) (instructions_ : string)
      (failed_on succeeded_on : DataFrame) (history_ : list EvaluationRecord) :
  history_backed (metric_observation_history w) ->
  propose_metric_observations w instructions_ failed_on succeeded_on history_ = Ok w' ->
  history_backed (metric_observation_history w').
Proof.
  intros [Hwf Hall] Hrun. unfold propose_metric_observations in Hrun.
  match type of Hrun with
  | context [for_each ?f ?xs ?st] =>
      destruct (for_each f xs st) as [[w1 news]|e] eqn:Hloop
  end; cbn [bind] in Hrun; [|discriminate].
  pose proof (propose_loop_inv _ _ _ _ _ _ _ Hloop) as (Hh & _).
  apply propose_loop_backed in Hloop. destruct Hloop as (news' & Hnews & Hback).
  cbn [app] in Hnews. subst news'.
  cbn [count_lm_call metric_observation_history] in Hh, Hback.
  inversion Hrun; subst w'; clear Hrun.
  unfold history_backed.
  cbn [print set_history set_current set_used metric_observation_history
       current_generation_metric_observations
       previous_generations_metric_observations_used
       previous_generations_metric_observations_unused devset devset_df].
  rewrite Hh. split; [exact Hwf|].
  rewrite !Forall_app in Hall. destruct Hall as (Hcur & Hused & Hunused).
  rewrite !Forall_app. repeat split; assumption.
Qed.

Lemma reconcile_step_backed (gens : ReconcileCompletions) (w : World) (i : nat)
      (text : field_value) (s : string) :
  (forall xs x, In x (list_of_set xs) -> In x xs) ->
  history_backed (metric_observation_history w) ->
  nth_error (reconciled_metric_observation_failure_exemplars gens) i = Some text ->
  nth_error (reconciled_metric_observation_summaries gens) i = Some s ->
  exists w',
    reconcile_step gens w i = Ok w'
    /\ history_backed (metric_observation_history w')
    /\ lm_calls w' = lm_calls w.
Proof.
  intros Hset [Hwf Hall] Htext Hs.
  set (h := metric_observation_history w) in *.
  set (used := previous_generations_metric_observations_used h) in *.
  unfold reconcile_step. fold h. fold used.
  apply item_Ok in Htext. apply item_Ok in Hs. rewrite Htext. cbn [bind].
  set (invalid := List.length (filter (fun j => j <? List.length used) (safe_strip text))
                  <? List.length (safe_strip text)).
  assert (Hsame : (if invalid
                   then filter (fun j => j <? List.length used) (safe_strip text)
                   else safe_strip text)
                  = citations_below (List.length used) text).
  { unfold citations_below. destruct invalid eqn:Hinv; [reflexivity|].
    symmetry. apply filter_all. apply Nat.ltb_ge in Hinv. lia. }
  rewrite Hsame.
  destruct (items_in_range used (citations_below (List.length used) text))
    as (parents & Hparents & Hincl); [apply citations_below_in_range|].
  rewrite Hparents. cbn [bind]. rewrite Hs. cbn [bind].
  set (labels := list_of_set
                   (flat_map (fun mo => df_index (failure_exemplars mo)) parents)).
  assert (Hlabels : Forall (fun label => label < List.length (devset h)) labels).
  { apply Forall_forall. intros label Hin. subst labels. apply Hset in Hin.
    apply in_flat_map in Hin. destruct Hin as (mo & Hmo & Hlabel).
    rewrite !Forall_app in Hall. destruct Hall as (_ & Hused & _).
    rewrite Forall_forall in Hused. specialize (Hused mo (Hincl mo Hmo)).
    unfold exemplars_in_devset in Hused. rewrite Forall_forall in Hused.
    apply Hused, Hlabel. }
  destruct (loc_exemplars_to_df (devset h) labels) as [rows Hrows].
  { rewrite Forall_forall in Hlabels. exact Hlabels. }
  rewrite Hwf, Hrows. cbn [bind new_MetricObservation].
  eexists. split; [reflexivity|]. split.
  - unfold history_backed.
    cbn [set_history set_used metric_observation_history
         current_generation_metric_observations
         previous_generations_metric_observations_used
         previous_generations_metric_observations_unused devset devset_df].
    destruct invalid;
      cbn [print metric_observation_history];
      fold h; (split; [exact Hwf|]);
      rewrite !Forall_app in Hall; destruct Hall as (Hcur & Hused & Hunused);
      rewrite !Forall_app; repeat split; try assumption;
      constructor; [|constructor| |constructor];
      unfold exemplars_in_devset; cbn [MetricObservation_init failure_exemplars];
      apply loc_spec in Hrows; destruct Hrows as [Hidx _]; rewrite Hidx; exact Hlabels.
  - destruct invalid; reflexivity.
Qed.

Lemma reconcile_loop_backed (gens : ReconcileCompletions) (n : nat) :
  forall (k : nat) (w : World),
  (forall xs x, In x (list_of_set xs) -> In x xs) ->
  history_backed (metric_observation_history w) ->
  (forall i, k <= i < k + n ->
     exists text s,
       nth_error (reconciled_metric_observation_failure_exemplars gens) i = Some text
       /\ nth_error (reconciled_metric_observation_summaries gens) i = Some s) ->
  exists w',
    for_each (reconcile_step gens) (seq k n) w = Ok w'
    /\ history_backed (metric_observation_history w')
    /\ lm_calls w' = lm_calls w.
Proof.
  induction n as [|n IH]; intros k w Hset Hback Hall; cbn [seq for_each].
  - eauto.
  - destruct (Hall k) as (text & s & Htext & Hs); [lia|].
    destruct (reconcile_step_backed gens w k text s Hset Hback Htext Hs)
      as (w1 & Hstep & Hback1 & Hcalls1).
    rewrite Hstep. cbn [bind].
    destruct (IH (S k) w1 Hset Hback1) as (w' & Hrun & Hback' & Hcalls').
    { intros i Hi. apply Hall. lia. }
    exists w'. split; [exact Hrun|]. split; [exact Hback' | congruence].
Qed.

(** X9.  As long as the observations of the history cite rows of the
    dataset only, and the model gives as many parent lists as summaries,
    [update_metric_observations] returns, whatever the parent lists hold:
    parents out of range are left out, and no label it looks up can be
    missing.  It leaves a history whose observations again cite rows of
    the dataset only, and it has sent one request to the model if the
    history was over its limit and none otherwise. *)
Theorem update_metric_observations_returns (w : World) :
  let h := metric_observation_history w in
  let gens := predict_reconcile (lm_calls w) (reconcile_request h) in
  (forall xs x, In x (list_of_set xs) -> In x xs) ->
  history_backed h ->
  List.length (reconciled_metric_observation_failure_exemplars gens)
  = List.length (reconciled_metric_observation_summaries gens) ->
  exists w',
    update_metric_observations w = Ok w'
    /\ history_backed (metric_observation_history w')
    /\ lm_calls w'
       = if max_metric_observations h
            <? List.length (previous_generations_metric_observations_used h)
         then S (lm_calls w) else lm_calls w.
Proof.
  intros h gens Hset Hback Hlen. unfold update_metric_observations. fold h.
  destruct (max_metric_observations h <? _) eqn:Hmax; [|eauto].
  fold gens.
  match goal with |- context [for_each _ _ ?w1] => set (w1' := w1) end.
  destruct (reconcile_loop_backed gens
              (List.length (reconciled_metric_observation_summaries gens)) 0 w1' Hset)
    as (w' & Hrun & Hback' & Hcalls).
  - subst w1'. destruct Hback as [Hwf Hall]. unfold history_backed.
    cbn [set_history set_unused count_lm_call metric_observation_history
         current_generation_metric_observations
         previous_generations_metric_observations_used
         previous_generations_metric_observations_unused devset devset_df].
    split; [exact Hwf|].
    rewrite !Forall_app in Hall. destruct Hall as (Hcur & Hused & Hunused).
    rewrite !Forall_app. repeat split; assumption.
  - intros i Hi.
    destruct (nth_error (reconciled_metric_observation_failure_exemplars gens) i)
      as [text|] eqn:Ht; [|apply nth_error_None in Ht; lia].
    destruct (nth_error (reconciled_metric_observation_summaries gens) i)
      as [s0|] eqn:Hs; [|apply nth_error_None in Hs; lia].
    eauto.
  - exists w'. split; [exact Hrun|]. split; [exact Hback' | exact Hcalls].
Qed.

Lemma items_incl {A : Type} (xs : list A) (indices : list nat) (found : list A) :
  items xs indices = Ok found -> incl found xs.
Proof.
  revert found. induction indices as [|i indices IH]; intros found H; cbn [items] in H.
  - inversion H. intros x [].
  - destruct (item xs i) as [x|e] eqn:Hx; cbn [bind] in H; [|discriminate].
    destruct (items xs indices) as [more|e] eqn:Hmore; cbn [bind] in H; [|discriminate].
    inversion H; subst found. intros y [<-|Hy]; [eapply item_In; eauto | eapply IH; eauto].
Qed.

Lemma reconcile_step_keeps_backed (gens : ReconcileCompletions) (w w' : World) (i : nat) :
  (forall xs x, In x (list_of_set xs) -> In x xs) ->
  history_backed (metric_observation_history w) ->
  reconcile_step gens w i = Ok w' ->
  history_backed (metric_observation_history w').
Proof.
  intros Hset [Hwf Hall] Hstep. apply reconcile_step_inv in Hstep.
  destruct Hstep as (text & s & parents & rows & outs & _ & _ & Hparents & Hrows & ->).
  apply items_incl in Hparents. apply loc_spec in Hrows. destruct Hrows as [Hidx _].
  unfold history_backed.
  cbn [set_used metric_observation_history current_generation_metric_observations
       previous_generations_metric_observations_used
       previous_generations_metric_observations_unused devset devset_df].
  split; [exact Hwf|].
  rewrite !Forall_app in Hall. destruct Hall as (Hcur & Hused & Hunused).
  rewrite !Forall_app. repeat split; try assumption.
  constructor; [|constructor].
  unfold exemplars_in_devset. cbn [MetricObservation_init failure_exemplars devset].
  rewrite Hidx. apply Forall_forall. intros label Hin. apply Hset in Hin.
  apply in_flat_map in Hin. destruct Hin as (mo & Hmo & Hlabel).
  rewrite Forall_forall in Hused. specialize (Hused mo (Hparents mo Hmo)).
  unfold exemplars_in_devset in Hused. rewrite Forall_forall in Hused.
  apply Hused, Hlabel.
Qed.

Lemma update_keeps_history_backed (w w' : World) :
  (forall xs x, In x (list_of_set xs) -> In x xs) ->
  history_backed (metric_observation_history w) ->
  update_metric_observations w = Ok w' ->
  history_backed (metric_observation_history w').
Proof.
  intros Hset Hback Hrun. unfold update_metric_observations in Hrun.
  destruct (_ <? _); [|inversion Hrun; subst; exact Hback].
  eapply (for_each_invariant (fun w0 => history_backed (metric_observation_history w0)));
    [| |exact Hrun].
  - intros w0 i w1 H0 Hstep. eapply reconcile_step_keeps_backed; eauto.
  - destruct Hback as [Hwf Hall]. unfold history_backed.
    cbn [set_history set_unused count_lm_call metric_observation_history
         current_generation_metric_observations
         previous_generations_metric_observations_used
         previous_generations_metric_observations_unused devset devset_df].
    split; [exact Hwf|].
    rewrite !Forall_app in Hall. destruct Hall as (Hcur & Hused & Hunused).
    rewrite !Forall_app. repeat split; assumption.
Qed.

Lemma propose_keeps_devset (w w' : World) (instructions_ : string)
      (failed_on succeeded_on : DataFrame) (history_ : list EvaluationRecord) :
  propose_metric_observations w instructions_ failed_on succeeded_on history_ = Ok w' ->
  devset (metric_observation_history w') = devset (metric_observation_history w).
Proof.
  intros Hrun. unfold propose_metric_observations in Hrun.
  match type of Hrun with
  | context [for_each ?f ?xs ?st] =>
      destruct (for_each f xs st) as [[w1 news]|e] eqn:Hloop
  end; cbn [bind] in Hrun; [|discriminate].
  pose proof (propose_loop_inv _ _ _ _ _ _ _ Hloop) as (Hh & _).
  cbn [count_lm_call metric_observation_history] in Hh.
  inversion Hrun; subst w'; clear Hrun.
  cbn [print set_history set_current set_used metric_observation_history devset].
  rewrite Hh. reflexivity.
Qed.

Lemma update_keeps_devset (w w' : World) :
  update_metric_observations w = Ok w' ->
  devset (metric_observation_history w') = devset (metric_observation_history w).
Proof.
  intros Hrun. unfold update_metric_observations in Hrun.
  destruct (_ <? _); [|inversion Hrun; subst; reflexivity].
  eapply (for_each_invariant
            (fun w0 => devset (metric_observation_history w0)
                       = devset (metric_observation_history w)));
    [| |exact Hrun].
  - intros w0 i w1 H0 Hstep. apply reconcile_step_inv in Hstep.
    destruct Hstep as (text & s & parents & rows & outs & _ & _ & _ & _ & ->).
    cbn [set_used metric_observation_history devset]. exact H0.
  - reflexivity.
Qed.

Lemma seed_candidates_history (predictors : list Predictor) :
  forall (w w' : World) (pools : list InstructionCompletions),
  seed_candidates w predictors = Ok (w', pools) ->
  metric_observation_history w' = metric_observation_history w.
Proof.
  induction predictors as [|p rest IH]; intros w w' pools Hrun;
    cbn [seed_candidates] in Hrun.
  - inversion Hrun. reflexivity.
  - inv_bind Hrun. inv_bind Hrun. inversion Hrun; subst w' pools.
    destruct a0 as [w1 more]. cbn [fst]. apply IH in E0. exact E0.
Qed.

(** X10.  Throughout a run of [compile] the observations of the history
    cite rows of the dataset only: when the search ends, the exemplar rows
    of every observation of the three sets carry labels below the size of
    the dataset, and the dataset frame is still the frame of the dataset
    ([list(set(xs))] gives members of [xs] only). *)
Theorem search_keeps_history_backed (student : Program) (devset_ evalset_ : list Row)
        (st : SearchState) :
  (forall xs x, In x (list_of_set xs) -> In x xs) ->
  search student devset_ evalset_ = Ok st ->
  history_backed (metric_observation_history (world st))
  /\ devset (metric_observation_history (world st)) = devset_.
Proof.
  intros Hset Hrun. unfold search in Hrun.
  inv_bind Hrun. inv_bind Hrun. destruct a0 as [w candidates].
  apply seed_candidates_history in E0. cbn [metric_observation_history] in E0.
  assert (Hinit : history_backed a /\ devset a = devset_).
  { unfold MetricObservationHistory_init, checked_exemplars_to_df in E.
    destruct devset_ as [|r0 rows]; cbn [bind] in E; [discriminate|].
    destruct evalset_ as [|e0 erows]; cbn [bind] in E; [discriminate|].
    inversion E; subst a. split; [|reflexivity]. split; [reflexivity | constructor]. }
  set (P := fun s => history_backed (metric_observation_history (world s))
                      /\ devset (metric_observation_history (world s)) = devset_).
  change (P st).
  eapply (for_each_invariant P); [| |exact Hrun].
  - intros s0 d s1. apply (search_round_preserves P); unfold P.
    + intros d0 p_i n st0 [c_i c] st1 [Hback Hdev] Hstep.
      unfold evaluate_candidate in Hstep.
      inv_bind Hstep. inv_bind Hstep. inv_bind Hstep.
      destruct (evaluate (total_calls st0) a2) as [score_ devset_annotated].
      inv_bind Hstep. inv_bind Hstep. inv_bind Hstep. inv_bind Hstep.
      inversion Hstep; subst st1; clear Hstep. cbn [world].
      match goal with
      | Hp : propose_metric_observations _ _ _ _ _ = Ok ?w1,
        Hu : update_metric_observations ?w1 = Ok ?w2 |- _ =>
          pose proof (propose_keeps_history_backed _ _ _ _ _ _ Hback Hp) as Hback1;
          pose proof (update_keeps_history_backed _ _ Hset Hback1 Hu) as Hback2;
          pose proof (propose_keeps_devset _ _ _ _ _ _ Hp) as Hdev1;
          pose proof (update_keeps_devset _ _ Hu) as Hdev2
      end.
      split; [exact Hback2 | congruence].
    + intros st0 st1 H Hworld _ _. rewrite Hworld. exact H.
    + intros d0 st0 pools p_i st1 pools' H Hstep. unfold propose_candidates in Hstep.
      inv_bind Hstep. inv_bind Hstep. inv_bind Hstep. inv_bind Hstep. inv_bind Hstep.
      inversion Hstep; subst st1. exact H.
  - unfold P. cbn [world]. rewrite E0. exact Hinit.
Qed.

(** ** The parents a consolidated observation can cite *)

Lemma reconcile_loop_parents (gens : ReconcileCompletions) (n : nat) :
  forall (k : nat) (w w' : World),
  let used := previous_generations_metric_observations_used (metric_observation_history w) in
  for_each (reconcile_step gens) (seq k n) w = Ok w' ->
  exists news,
    previous_generations_metric_observations_used (metric_observation_history w')
    = used ++ news
    /\ List.length news = n
    /\ forall j mo, nth_error news j = Some mo ->
         exists text parents,
           nth_error (reconciled_metric_observation_failure_exemplars gens) (k + j)
           = Some text
           /\ items (used ++ firstn j news)
                    (citations_below (List.length used + j) text) = Ok parents
           /\ df_index (failure_exemplars mo)
              = list_of_set
                  (flat_map (fun parent => df_index (failure_exemplars parent)) parents).
Proof.
  induction n as [|n IH]; intros k w w' used Hrun; cbn [seq for_each] in Hrun.
  - inversion Hrun; subst w'. exists []. rewrite app_nil_r.
    split; [reflexivity|]. split; [reflexivity|]. intros [|j] mo H; discriminate H.
  - destruct (reconcile_step gens w k) as [w1|e] eqn:Hstep; cbn [bind] in Hrun;
      [|discriminate].
    apply reconcile_step_inv in Hstep.
    destruct Hstep as (text & s & parents & rows & outs & Htext & _ & Hparents & Hrows & Hw1).
    fold used in Hparents.
    apply loc_spec in Hrows. destruct Hrows as [Hidx _].
    destruct (IH (S k) w1 w' Hrun) as (news & Hused & Hlen & Hall).
    rewrite Hw1 in Hused, Hall.
    cbn [metric_observation_history set_used
         previous_generations_metric_observations_used] in Hused, Hall.
    fold used in Hused, Hall.
    exists (MetricObservation_init (next_oid w) s rows :: news).
    split; [rewrite Hused, <- app_assoc; reflexivity|].
    split; [cbn [List.length]; f_equal; exact Hlen|].
    intros [|j] mo Hmo; cbn [nth_error] in Hmo.
    + inversion Hmo; subst mo. exists text, parents.
      rewrite !Nat.add_0_r. cbn [firstn]. rewrite app_nil_r.
      split; [exact Htext|]. split; [exact Hparents | exact Hidx].
    + destruct (Hall j mo Hmo) as (text' & parents' & Htext' & Hparents' & Hidx').
      exists text', parents'.
      replace (k + S j) with (S k + j) by lia.
      split; [exact Htext'|]. split; [|exact Hidx'].
      cbn [firstn]. rewrite length_app in Hparents'. cbn [List.length] in Hparents'.
      replace (List.length used + S j) with (List.length used + 1 + j) by lia.
      rewrite <- app_assoc in Hparents'. exact Hparents'.
Qed.

(** X11.  In a consolidation the parents of a completion are looked up in
    [used] as it has grown: for the completion at position [j], a parent
    index counts as valid when it is below the length [used] had at the
    start plus [j], and it is looked up in the observations [used] held
    at the start followed by the [j] observations made from the
    completions before it.  So an index beyond the list shown to the
    model is not always left out: it can name an observation made a
    moment before in the same call. *)
Theorem update_metric_observations_parents (w w' : World) :
  let h := metric_observation_history w in
  let used := previous_generations_metric_observations_used h in
  let gens := predict_reconcile (lm_calls w) (reconcile_request h) in
  max_metric_observations h < List.length used ->
  update_metric_observations w = Ok w' ->
  exists news,
    previous_generations_metric_observations_used (metric_observation_history w')
    = used ++ news
    /\ List.length news = List.length (reconciled_metric_observation_summaries gens)
    /\ forall j mo, nth_error news j = Some mo ->
         exists text parents,
           nth_error (reconciled_metric_observation_failure_exemplars gens) j = Some text
           /\ items (used ++ firstn j news)
                    (citations_below (List.length used + j) text) = Ok parents
           /\ df_index (failure_exemplars mo)
              = list_of_set
                  (flat_map (fun parent => df_index (failure_exemplars parent)) parents).
Proof.
  intros h used gens Hmax Hrun. unfold update_metric_observations in Hrun.
  fold h in Hrun. fold used in Hrun. apply Nat.ltb_lt in Hmax. rewrite Hmax in Hrun.
  fold gens in Hrun.
  apply reconcile_loop_parents in Hrun.
  cbn [set_history set_unused count_lm_call metric_observation_history
       previous_generations_metric_observations_used] in Hrun.
  fold h in Hrun. fold used in Hrun. exact Hrun.
Qed.

(** ** [_drop_duplicates] on any list *)

Lemma drop_duplicates_loop_kept (l : list EvaluationRecord) :
  forall st st',
  for_each drop_duplicates_step l st = Ok st' ->
  exists kept,
    final_candidates st' = final_candidates st ++ kept
    /\ subsequence kept l
    /\ for_each drop_duplicates_step kept st = Ok st'
    /\ (last_batch st = [] -> hd_error kept = hd_error l).
Proof.
  induction l as [|c l IH]; intros st st' Hrun; cbn [for_each] in Hrun.
  - inversion Hrun; subst st'. exists []. rewrite app_nil_r.
    split; [reflexivity|]. split; [constructor|]. split; [reflexivity|].
    intros _. reflexivity.
  - destruct (drop_duplicates_step st c) as [st1|e] eqn:Hstep; cbn [bind] in Hrun;
      [|discriminate].
    destruct (IH _ _ Hrun) as (kept & Hfinal & Hsub & Hagain & _).
    unfold drop_duplicates_step in Hstep.
    destruct (score c =? last_batch_score st)%Z eqn:Hscore.
    + destruct (repeated_in c (last_batch st)) as [[|]|e] eqn:Hrep; cbn [bind] in Hstep;
        [| |discriminate].
      * inversion Hstep; subst st1. exists kept.
        split; [exact Hfinal|]. split; [constructor; exact Hsub|].
        split; [exact Hagain|].
        intros Hnil. rewrite Hnil in Hrep. discriminate Hrep.
      * inversion Hstep; subst st1. cbn [final_candidates] in Hfinal.
        exists (c :: kept). rewrite <- app_assoc in Hfinal.
        split; [exact Hfinal|]. split; [constructor; exact Hsub|].
        split; [|reflexivity].
        cbn [for_each]. unfold drop_duplicates_step. rewrite Hscore, Hrep.
        cbn [bind]. exact Hagain.
    + inversion Hstep; subst st1. cbn [final_candidates] in Hfinal.
      exists (c :: kept). rewrite <- app_assoc in Hfinal.
      split; [exact Hfinal|]. split; [constructor; exact Hsub|].
      split; [|reflexivity].
      cbn [for_each]. unfold drop_duplicates_step. rewrite Hscore.
      cbn [bind]. exact Hagain.
Qed.

(** X12.  Whatever list [_drop_duplicates] is given, sorted or not: if it
    returns, the list it returns is made of members of the list given, in
    the order they had; it starts with the same record; and giving it to
    [_drop_duplicates] again returns it unchanged. *)
Theorem drop_duplicates_keeps_order (candidates final : list EvaluationRecord) :
  _drop_duplicates candidates = Ok final ->
  subsequence final candidates
  /\ hd_error final = hd_error candidates
  /\ _drop_duplicates final = Ok final.
Proof.
  unfold _drop_duplicates. intros Hrun.
  match type of Hrun with
  | context [for_each ?f ?xs ?st0] => destruct (for_each f xs st0) as [st'|e] eqn:Hloop
  end; cbn [bind] in Hrun; [|discriminate].
  inversion Hrun; subst final; clear Hrun.
  destruct (drop_duplicates_loop_kept _ _ _ Hloop) as (kept & Hfinal & Hsub & Hagain & Hhd).
  cbn [final_candidates app] in Hfinal. rewrite Hfinal.
  split; [exact Hsub|]. split; [apply Hhd; reflexivity|].
  rewrite Hagain. cbn [bind]. rewrite Hfinal. reflexivity.
Qed.

Lemma drop_duplicates_loop_scores_change (l : list EvaluationRecord) :
  forall st,
  scores_change l ->
  (forall c, hd_error l = Some c ->
             score c <> last_batch_score st \/ last_batch st = []) ->
  exists st',
    for_each drop_duplicates_step l st = Ok st'
    /\ final_candidates st' = final_candidates st ++ l.
Proof.
  induction l as [|c l IH]; intros st Hchange Hfirst; cbn [for_each].
  - exists st. rewrite app_nil_r. auto.
  - assert (Hstep : exists batch,
              drop_duplicates_step st c
              = Ok {| final_candidates := final_candidates st ++ [c];
                      last_batch := batch;
                      last_batch_score := score c |}).
    { unfold drop_duplicates_step.
      destruct (Z.eqb_spec (score c) (last_batch_score st)) as [Heq|Hne].
      - destruct (Hfirst c eq_refl) as [Hdiff|Hnil]; [congruence|].
        rewrite Hnil. cbn [repeated_in bind app]. rewrite <- Heq. eauto.
      - eauto. }
    destruct Hstep as [batch Hstep]. rewrite Hstep. cbn [bind].
    match goal with |- context [for_each _ _ ?st1] => destruct (IH st1) as (st' & Hrun & Hfinal) end.
    + destruct l; [exact I | apply Hchange].
    + intros c' Hc'. left. cbn [last_batch_score].
      destruct l as [|b l]; [discriminate|]. inversion Hc'; subst c'.
      cbn [scores_change] in Hchange. intros Heq. apply (proj1 Hchange). congruence.
    + exists st'. split; [exact Hrun|]. rewrite Hfinal. cbn [final_candidates].
      rewrite <- app_assoc. reflexivity.
Qed.

(** X13.  [_drop_duplicates] compares a record with its neighbours in
    score only: on a list in which no two neighbours have the same score
    it returns the list as it is, without comparing any two programs, so
    also when records far apart are the same candidate and when the
    programs could not be compared. *)
Theorem drop_duplicates_unchanged_when_scores_change (candidates : list EvaluationRecord) :
  scores_change candidates ->
  _drop_duplicates candidates = Ok candidates.
Proof.
  intros Hchange. unfold _drop_duplicates.
  match goal with
  | |- context [for_each _ _ ?st0] =>
      destruct (drop_duplicates_loop_scores_change candidates st0 Hchange)
        as (st' & Hrun & Hfinal)
  end.
  - intros c _. right. reflexivity.
  - rewrite Hrun. cbn [bind]. rewrite Hfinal. reflexivity.
Qed.

(** ** Comparing two candidates *)

Lemma field_eqb_refl (f : Field) : field_eqb f f = true.
Proof.
  unfold field_eqb. rewrite String.eqb_refl.
  destruct (list_eq_dec string_dec _ _); [reflexivity | congruence].
Qed.

Lemma field_eqb_sym (f1 f2 : Field) : field_eqb f1 f2 = field_eqb f2 f1.
Proof.
  unfold field_eqb. rewrite (String.eqb_sym (name f1) (name f2)).
  destruct (list_eq_dec string_dec (other_components f1) (other_components f2)),
           (list_eq_dec string_dec (other_components f2) (other_components f1));
    try reflexivity; congruence.
Qed.

Lemma programs_equal_refl (ps more : Program) :
  comparable ps ->
  programs_equal ps (ps ++ more) = Ok true /\ programs_equal (ps ++ more) ps = Ok true.
Proof.
  induction 1 as [|p ps (s & f & -> & Hf) _ IH].
  - cbn [app programs_equal]. destruct more; split; reflexivity.
  - cbn [app programs_equal predictors_equal]. rewrite String.eqb_refl, Hf.
    cbn [negb bind]. rewrite field_eqb_refl. cbn [negb]. exact IH.
Qed.

Lemma programs_equal_sym (ps1 : Program) :
  forall ps2, comparable ps1 -> comparable ps2 ->
  (exists b, programs_equal ps1 ps2 = Ok b)
  /\ programs_equal ps2 ps1 = programs_equal ps1 ps2.
Proof.
  induction ps1 as [|p1 ps1 IH]; intros ps2 H1 H2.
  - destruct ps2; (split; [exists true; reflexivity | reflexivity]).
  - destruct ps2 as [|p2 ps2]; [split; [exists true; reflexivity | reflexivity]|].
    inversion H1 as [|? ? (s1 & f1 & -> & Hf1) H1']; subst.
    inversion H2 as [|? ? (s2 & f2 & -> & Hf2) H2']; subst.
    cbn [programs_equal predictors_equal].
    rewrite (String.eqb_sym (instructions s2) (instructions s1)).
    destruct (String.eqb (instructions s1) (instructions s2)); cbn [negb bind];
      [|split; [exists false; reflexivity | reflexivity]].
    rewrite Hf1, Hf2. cbn [bind]. rewrite (field_eqb_sym f2 f1).
    destruct (field_eqb f1 f2); cbn [negb bind];
      [|split; [exists false; reflexivity | reflexivity]].
    apply IH; assumption.
Qed.

(** X14.  On programs whose predictors have one signature each (and a
    field), [_check_candidates_equal] never raises; a candidate equals
    itself; the answer does not depend on the order of the two
    candidates; and, the comparison stopping with the shorter program, a
    candidate equals every candidate whose program goes on with more
    predictors. *)
Theorem check_candidates_equal_on_one_signature_programs (c1 c2 : EvaluationRecord) :
  comparable (program c1) -> comparable (program c2) ->
  (exists b, _check_candidates_equal c1 c2 = Ok b)
  /\ _check_candidates_equal c1 c1 = Ok true
  /\ _check_candidates_equal c2 c1 = _check_candidates_equal c1 c2
  /\ forall c3 more, program c3 = program c1 ++ more ->
       _check_candidates_equal c1 c3 = Ok true
       /\ _check_candidates_equal c3 c1 = Ok true.
Proof.
  intros H1 H2. unfold _check_candidates_equal.
  destruct (programs_equal_sym _ _ H1 H2) as [Hret Hsym].
  split; [exact Hret|]. split; [|split; [exact Hsym|]].
  - pose proof (programs_equal_refl (program c1) [] H1) as [Hrefl _].
    rewrite app_nil_r in Hrefl. exact Hrefl.
  - intros c3 more ->. apply programs_equal_refl, H1.
Qed.

(** ** Cleaning a candidate *)

Lemma lstrip_suffix (drop : ascii -> bool) (l : list ascii) :
  exists dropped, l = dropped ++ lstrip drop l
                  /\ Forall (fun c => drop c = true) dropped.
Proof.
  induction l as [|c l (dropped & Hl & Hall)]; cbn [lstrip].
  - exists []. split; [reflexivity | constructor].
  - destruct (drop c) eqn:Hc.
    + exists (c :: dropped). cbn [app]. rewrite <- Hl. split; [reflexivity|].
      constructor; assumption.
    + exists []. split; [reflexivity | constructor].
Qed.

Lemma lstrip_hd (drop : ascii -> bool) (l : list ascii) (c : ascii) :
  hd_error (lstrip drop l) = Some c -> drop c = false.
Proof.
  induction l as [|x l IH]; cbn [lstrip]; [discriminate|].
  destruct (drop x) eqn:Hx; [exact IH|]. cbn. intros H. inversion H; subst. exact Hx.
Qed.

Lemma lstrip_id (drop : ascii -> bool) (l : list ascii) :
  (forall c, hd_error l = Some c -> drop c = false) -> lstrip drop l = l.
Proof.
  destruct l as [|x l]; [reflexivity|]. intros H. cbn [lstrip].
  rewrite (H x eq_refl). reflexivity.
Qed.

Lemma outer_characters_spec (s : string) (c : ascii) :
  In c (outer_characters s)
  <-> hd_error (list_ascii_of_string s) = Some c
      \/ hd_error (rev (list_ascii_of_string s)) = Some c.
Proof.
  unfold outer_characters. destruct (list_ascii_of_string s) as [|x l].
  - cbn. split; [intros [] | intros [H|H]; discriminate].
  - assert (Hlast : hd_error (rev (x :: l)) = Some (last l x)).
    { clear. revert x. induction l as [|y l IH]; intros x; [reflexivity|].
      change (last (y :: l) x) with (match l with [] => y | _ => last l x end).
      cbn [rev] in *. specialize (IH y).
      destruct (rev l ++ [y]) eqn:Hr; [destruct (rev l); discriminate|].
      cbn [app hd_error] in *. rewrite IH. f_equal.
      destruct l; [reflexivity|]. clear. revert a0. generalize x y.
      induction l as [|z l IH]; intros; [reflexivity|]. cbn [last] in *.
      destruct l; [reflexivity|]. apply (IH x0 y0 z). }
    rewrite Hlast. cbn [hd_error In]. split.
    + intros [<-|[<-|[]]]; auto.
    + intros [H|H]; inversion H; auto.
Qed.

Lemma strip_outer (drop : ascii -> bool) (s : string) (c : ascii) :
  In c (outer_characters (strip drop s)) -> drop c = false.
Proof.
  rewrite outer_characters_spec. unfold strip.
  rewrite list_ascii_of_string_of_list_ascii, rev_involutive.
  set (l1 := lstrip drop (list_ascii_of_string s)).
  intros [Hfirst|Hlast]; [|eapply lstrip_hd; eauto].
  destruct (lstrip_suffix drop (rev l1)) as (dropped & Hl & _).
  set (l2 := lstrip drop (rev l1)) in *.
  apply (f_equal (@rev ascii)) in Hl. rewrite rev_involutive, rev_app_distr in Hl.
  destruct (rev l2) as [|x r] eqn:Hr; [discriminate|].
  cbn in Hfirst. inversion Hfirst; subst x.
  apply (lstrip_hd drop (list_ascii_of_string s)). fold l1. rewrite Hl. reflexivity.
Qed.

Lemma strip_id (drop : ascii -> bool) (s : string) :
  (forall c, In c (outer_characters s) -> drop c = false) -> strip drop s = s.
Proof.
  intros H. unfold strip.
  rewrite (lstrip_id drop (list_ascii_of_string s)).
  - rewrite lstrip_id; [rewrite rev_involutive; apply string_of_list_ascii_of_string|].
    intros c Hc. apply H, outer_characters_spec. right. exact Hc.
  - intros c Hc. apply H, outer_characters_spec. left. exact Hc.
Qed.

(** X15.  The text a candidate is cleaned to neither starts nor ends with
    white space; and a text that neither starts nor ends with white space
    or a quote is left as it is. *)
Theorem clean_outer_characters (s : string) :
  (forall c, In c (outer_characters (clean s)) -> is_space c = false)
  /\ ((forall c, In c (outer_characters s) -> is_space c = false /\ is_quote c = false) ->
      clean s = s).
Proof.
  split.
  - intros c Hc. eapply strip_outer; eauto.
  - intros H. unfold clean. rewrite (strip_id is_quote s); [apply strip_id|].
    + intros c Hc. apply H, Hc.
    + intros c Hc. apply H, Hc.
Qed.

(** ** The budget of [__str__] *)

Lemma str_rows_to_keep_within (rows : DataFrame) :
  forall (len n0 n : nat) (b : Z),
  str_rows_to_keep rows len n0 b = Ok n ->
  n0 <= n <= n0 + List.length rows
  /\ (n0 < n -> (tokens_sum (firstn (n - n0) rows) <= b)%Z).
Proof.
  induction rows as [|[l row] rest IH]; intros len n0 n b Hrun;
    cbn [str_rows_to_keep] in Hrun; [discriminate|].
  cbn [List.length].
  destruct (Z.gtb_spec (token_count row) b) as [Hgt|Hle].
  - inversion Hrun; subst n. split; lia.
  - destruct (Z.of_nat (S n0) >=? Z.of_nat len - 1)%Z.
    + inversion Hrun; subst n. split; [lia|]. intros _.
      replace (S n0 - n0) with 1 by lia. cbn [firstn tokens_sum fold_right snd]. lia.
    + apply IH in Hrun. destruct Hrun as [Hrange Hsum]. split; [lia|]. intros _.
      replace (n - n0) with (S (n - S n0)) by lia.
      cbn [firstn]. unfold tokens_sum in *. cbn [fold_right snd].
      destruct (Nat.eq_dec n (S n0)) as [->|Hne].
      * rewrite Nat.sub_diag. cbn [firstn fold_right]. lia.
      * specialize (Hsum ltac:(lia)). lia.
Qed.

(** X16.  Whatever [__str__] returns stays within the budget of the
    observation: it is either the text that shows no row or the rendering
    of the first [n] exemplar rows for some [n] of at least 1, and then
    these rows together cost no more tokens than the budget.  An
    observation with a single exemplar row shows it exactly when it
    fits. *)
Theorem MetricObservation_str_within_budget (self : MetricObservation) (s : string) :
  let rows := failure_exemplars self in
  let budget := example_token_budget self in
  MetricObservation_str self = Ok s ->
  exists n,
    n <= List.length rows
    /\ (n = 0 ->
        s = ("Summary: " ++ summary self ++ nl ++ "Failure Exemplars: "
             ++ none_shown (List.length rows))%string)
    /\ (0 < n ->
        s = ("Summary: " ++ summary self ++ nl ++ "Failure Exemplars: "
             ++ safely_markdownify (firstn n rows))%string
        /\ (tokens_sum (firstn n rows) <= budget)%Z)
    /\ (List.length rows = 1 -> (n = 1 <-> fits rows budget 0)).
Proof.
  intros rows budget Hrun. unfold MetricObservation_str in Hrun.
  fold rows budget in Hrun.
  destruct (str_rows_to_keep rows (List.length rows) 0 budget) as [n|e] eqn:Hn;
    cbn [bind] in Hrun; [|discriminate].
  exists n. pose proof (str_rows_to_keep_within _ _ _ _ _ Hn) as [Hrange Hsum].
  rewrite Nat.sub_0_r in Hsum.
  split; [lia|]. split; [|split].
  - intros ->. cbn [Nat.eqb] in Hrun. inversion Hrun. reflexivity.
  - intros Hpos. destruct (Nat.eqb_spec n 0) as [->|_]; [lia|].
    inversion Hrun. split; [reflexivity | apply Hsum, Hpos].
  - intros Hone. destruct rows as [|[l row] [|r2 rest]] eqn:Hrows; try discriminate.
    cbn [str_rows_to_keep List.length] in Hn.
    unfold fits. cbn [nth_error firstn snd]. unfold tokens_sum. cbn [fold_right].
    destruct (Z.gtb_spec (token_count row) budget) as [Hgt|Hle].
    + inversion Hn; subst n. split; [discriminate | lia].
    + cbn in Hn. inversion Hn; subst n. split; [lia | reflexivity].
Qed.

(** ** What the prompts show of the store *)

Lemma StronglySorted_app_inv {A : Type} (R : A -> A -> Prop) (l1 l2 : list A) :
  StronglySorted R (l1 ++ l2) ->
  StronglySorted R l1 /\ StronglySorted R l2
  /\ forall x y, In x l1 -> In y l2 -> R x y.
Proof.
  induction l1 as [|a l1 IH]; cbn [app]; intros Hs.
  - split; [constructor|]. split; [exact Hs|]. intros x y [].
  - inversion Hs as [|? ? Hrest Hall]; subst.
    destruct (IH Hrest) as (H1 & H2 & H12).
    rewrite Forall_app in Hall. destruct Hall as [Ha1 Ha2].
    split; [constructor; assumption|]. split; [exact H2|].
    intros x y [<-|Hx] Hy; [|apply H12; assumption].
    rewrite Forall_forall in Ha2. apply Ha2, Hy.
Qed.

(** X17.  The historical instructions shown to the model that proposes
    observations are the best records of the store: as many as the store
    has, but no more than [k]; best first; and no record left out has a
    higher score than a record shown. *)
Theorem top_k_shows_the_best (k : nat) (store : CandidateStore) :
  let shown := top_k k store in
  List.length shown = Nat.min k (List.length store)
  /\ StronglySorted by_score_desc shown
  /\ exists others,
       Permutation (shown ++ others) (dict_values store)
       /\ forall r r', In r shown -> In r' others -> (score r' <= score r)%Z.
Proof.
  intros shown. subst shown. unfold top_k.
  set (sorted := sort_desc score (dict_values store)).
  set (m := Nat.min k (List.length (dict_values store))).
  assert (Hlen : List.length sorted = List.length store).
  { subst sorted. rewrite <- (Permutation_length (sort_desc_perm score (dict_values store))).
    unfold dict_values. apply length_map. }
  assert (Hm : m = Nat.min k (List.length store)).
  { subst m. unfold dict_values. rewrite length_map. reflexivity. }
  pose proof (sort_desc_sorted (dict_values store)) as Hsorted. fold sorted in Hsorted.
  rewrite <- (firstn_skipn m sorted) in Hsorted.
  apply StronglySorted_app_inv in Hsorted. destruct Hsorted as (H1 & _ & H12).
  split; [rewrite length_firstn, Hlen, Hm; lia|].
  split; [exact H1|].
  exists (skipn m sorted). split.
  - rewrite firstn_skipn. apply Permutation_sym, sort_desc_perm.
  - intros r r' Hr Hr'. apply (H12 r r' Hr Hr').
Qed.

Lemma enumerate_from_numbering {A : Type} (total : nat) (l : list A) :
  forall a, a + List.length l <= total ->
  map (fun e : nat * A => (total - fst e, snd e)) (rev (enumerate_from a l))
  = combine (seq (total - (a + List.length l) + 1) (List.length l)) (rev l).
Proof.
  induction l as [|x l IH]; intros a Hle; [reflexivity|].
  cbn [enumerate_from rev List.length] in *.
  rewrite map_app, IH by lia. cbn [map fst snd].
  rewrite seq_S.
  replace (total - (a + S (List.length l)) + 1)
    with (total - (S a + List.length l) + 1) by lia.
  rewrite combine_snoc by (rewrite length_seq, length_rev; reflexivity).
  f_equal. f_equal. f_equal. lia.
Qed.

Lemma StronglySorted_rev (l : list EvaluationRecord) :
  StronglySorted by_score_desc l -> StronglySorted by_score_asc (rev l).
Proof.
  induction 1 as [|a l Hs IH Hall]; [constructor|].
  cbn [rev].
  assert (Hsnoc : forall l0 c, StronglySorted by_score_asc l0 ->
                               (forall x, In x l0 -> by_score_asc x c) ->
                               StronglySorted by_score_asc (l0 ++ [c])).
  { clear. induction l0 as [|y l0 IH0]; intros c Hs Hc; cbn [app].
    - constructor; constructor.
    - inversion Hs as [|? ? Hs0 Hy]; subst. constructor.
      + apply IH0; [exact Hs0|]. intros x Hx. apply Hc. right. exact Hx.
      + rewrite Forall_app. split; [exact Hy|]. constructor; [|constructor].
        apply Hc. left. reflexivity. }
  apply Hsnoc; [exact IH|]. intros x Hx. apply in_rev in Hx.
  rewrite Forall_forall in Hall. apply (Hall x Hx).
Qed.

(** X18.  The attempts shown to the model that proposes instructions are
    numbered from 1 and listed in increasing order of score, as the
    prompt says: of the [n] best records, sorted best first, the worst
    comes first under number 1 and the best comes last under number
    [n]. *)
Theorem attempts_text_numbering (n : nat) (best_predictors : list EvaluationRecord) :
  n <= List.length best_predictors ->
  StronglySorted by_score_desc best_predictors ->
  let shown := rev (firstn n best_predictors) in
  attempts_text n best_predictors
  = flat_map (fun e => attempt_entry (fst e) (snd e)) (combine (seq 1 n) shown)
  /\ List.length shown = n
  /\ StronglySorted by_score_asc shown.
Proof.
  intros Hle Hsorted shown.
  assert (Hlen : List.length (firstn n best_predictors) = n).
  { rewrite length_firstn. lia. }
  split; [|split].
  - unfold attempts_text.
    pose proof (enumerate_from_numbering n (firstn n best_predictors) 0) as Hnum.
    rewrite Hlen in Hnum. specialize (Hnum ltac:(lia)).
    replace (n - (0 + n) + 1) with 1 in Hnum by lia.
    fold shown in Hnum. rewrite <- Hnum.
    generalize (rev (enumerate_from 0 (firstn n best_predictors))).
    intros l. induction l as [|[i r] l IH]; [reflexivity|].
    cbn [flat_map map fst snd]. rewrite IH. reflexivity.
  - subst shown. rewrite length_rev. exact Hlen.
  - subst shown. apply StronglySorted_rev.
    rewrite <- (firstn_skipn n best_predictors) in Hsorted.
    apply StronglySorted_app_inv in Hsorted. apply Hsorted.
Qed.

(** ** What a record of the store says of its snapshot *)

Lemma In_dict_set_entry (k : CandidateKey) (v : EvaluationRecord) (d : CandidateStore)
      (k0 : CandidateKey) (r : EvaluationRecord) :
  In (k0, r) (dict_set k v d) -> (k0 = k /\ r = v) \/ In (k0, r) d.
Proof.
  induction d as [|[k' v'] d IH]; cbn [dict_set].
  - intros [H|[]]. inversion H. auto.
  - destruct (key_eqb k k') eqn:Hk.
    + apply key_eqb_eq in Hk. subst k'. intros [H|H].
      * inversion H. auto.
      * right. right. exact H.
    + intros [H|H]; [right; left; exact H|].
      destruct (IH H) as [?|?]; [auto | right; right; assumption].
Qed.

Lemma dict_get_None_keys (k : CandidateKey) (d : CandidateStore) :
  dict_get k d = None -> ~ In k (map fst d).
Proof.
  induction d as [|[k' v'] d IH]; cbn [dict_get map fst]; [intros _ []|].
  destruct (key_eqb k k') eqn:Hk; [discriminate|].
  intros H [Heq|Hin]; [|apply (IH H Hin)].
  subst k'. rewrite key_eqb_refl in Hk. discriminate.
Qed.

Lemma dict_set_keys_NoDup (k : CandidateKey) (v : EvaluationRecord) (d : CandidateStore) :
  NoDup (map fst d) -> NoDup (map fst (dict_set k v d)).
Proof.
  intros Hnd. destruct (dict_get k d) as [v0|] eqn:Hget.
  - rewrite (dict_set_present_keys k v v0 d Hget). exact Hnd.
  - rewrite (dict_set_absent k v d Hget), map_app. cbn [map fst].
    apply NoDup_app; [exact Hnd | constructor; [intros [] | constructor] |].
    intros k0 Hin [<-|[]]. apply (dict_get_None_keys _ _ Hget Hin).
Qed.

Lemma with_candidate_texts (s s' : Signature) (instruction_ prefix_ : string) :
  with_candidate s instruction_ prefix_ = Ok s' ->
  signature_texts s' = (instruction_, Some prefix_).
Proof.
  unfold with_candidate, replace_last_name. intros H.
  destruct (last_item (fields s)) as [f|e]; cbn [bind] in H; [|discriminate].
  inversion H; subst s'. unfold signature_texts. cbn [instructions fields].
  rewrite last_item_snoc. reflexivity.
Qed.

Lemma set_predictor_carries (p p' : Predictor) (instruction_ prefix_ : string) :
  set_predictor p instruction_ prefix_ = Ok p' -> carries p' instruction_ prefix_.
Proof.
  destruct p as [s0|s1 s2]; cbn [set_predictor]; intros H.
  - destruct (with_candidate s0 _ _) as [s'|e] eqn:Hs; cbn [bind] in H; [|discriminate].
    inversion H; subst p'. unfold carries. cbn [predictor_texts].
    constructor; [eapply with_candidate_texts; eauto | constructor].
  - destruct (with_candidate s1 _ _) as [s1'|e] eqn:Hs1; cbn [bind] in H; [|discriminate].
    destruct (with_candidate s2 _ _) as [s2'|e] eqn:Hs2; cbn [bind] in H; [|discriminate].
    inversion H; subst p'. unfold carries. cbn [predictor_texts].
    constructor; [eapply with_candidate_texts; eauto|].
    constructor; [eapply with_candidate_texts; eauto | constructor].
Qed.

Lemma record_candidate_describes (i : nat) (store : CandidateStore)
      (instruction_ prefix_ : string) (score_ : Score) (snapshot : Program) (d : nat)
      (c : string * string) (p : Predictor) :
  store_describes_snapshots i store ->
  instruction_ = clean (fst c) -> prefix_ = clean (snd c) ->
  nth_error snapshot i = Some p -> carries p instruction_ prefix_ ->
  store_describes_snapshots i
    (record_candidate store instruction_ prefix_ score_ snapshot d).
Proof.
  intros [Hnd Hall] Hi Hp Hnth Hcarries. unfold record_candidate.
  destruct (match dict_get (instruction_, prefix_) store with
            | Some stored => if (score stored >=? score_)%Z then false else true
            | None => true
            end); [|split; assumption].
  split; [apply dict_set_keys_NoDup, Hnd|].
  intros k r Hin. apply In_dict_set_entry in Hin. destruct Hin as [[-> ->]|Hin];
    [|apply Hall, Hin].
  cbn [instruction prefix program]. split; [reflexivity|].
  split; [exists c; auto|]. exists p. auto.
Qed.

Lemma evaluate_candidate_describes (d p_i n c_i : nat) (st st' : SearchState)
      (c : string * string) :
  (forall i store, nth_error (evaluated_candidates st) i = Some store ->
                   store_describes_snapshots i store) ->
  evaluate_candidate d p_i n st (c_i, c) = Ok st' ->
  forall i store, nth_error (evaluated_candidates st') i = Some store ->
                  store_describes_snapshots i store.
Proof.
  intros Hinv Hrun. unfold evaluate_candidate in Hrun.
  inv_bind Hrun. inv_bind Hrun. inv_bind Hrun.
  destruct (evaluate (total_calls st) a1) as [score_ devset_annotated].
  inv_bind Hrun. inv_bind Hrun. inv_bind Hrun. inv_bind Hrun.
  inversion Hrun; subst st'; clear Hrun. cbn [evaluated_candidates].
  intros i store Hstore.
  destruct (Nat.eq_dec i p_i) as [->|Hne].
  - match goal with
    | H : list_set (evaluated_candidates st) _ _ = Ok _ |- _ =>
        rewrite (list_set_nth_same _ _ _ _ H) in Hstore
    end.
    inversion Hstore; subst store.
    eapply (record_candidate_describes p_i a2 _ _ _ _ _ c a0); try reflexivity.
    + apply Hinv. apply item_Ok. assumption.
    + eapply list_set_nth_same; eauto.
    + eapply set_predictor_carries; eauto.
  - match goal with
    | H : list_set (evaluated_candidates st) _ _ = Ok _ |- _ =>
        rewrite (list_set_nth_other _ _ _ _ _ H Hne) in Hstore
    end.
    apply Hinv, Hstore.
Qed.

(** X19.  When the search of [compile] ends, every record of every store
    describes its snapshot: the record of the store of the predictor at
    position [i] is filed under its own instruction and output-field
    name, no two records of a store under the same; these two texts are
    cleaned candidate texts; and the program snapshot of the record has,
    at position [i], a predictor with this instruction and this
    output-field name. *)
Theorem search_records_describe_snapshots (student : Program)
        (devset_ evalset_ : list Row) (st : SearchState) :
  search student devset_ evalset_ = Ok st ->
  forall i store, nth_error (evaluated_candidates st) i = Some store ->
                  store_describes_snapshots i store.
Proof.
  intros Hrun. unfold search in Hrun.
  inv_bind Hrun. inv_bind Hrun. destruct a0 as [w candidates].
  set (P := fun s => forall i store,
                nth_error (evaluated_candidates s) i = Some store ->
                store_describes_snapshots i store).
  change (P st).
  eapply (for_each_invariant P); [| |exact Hrun].
  - intros s0 d s1. apply (search_round_preserves P); unfold P.
    + intros d0 p_i n st0 [c_i c] st1 H0 Hstep.
      eapply evaluate_candidate_describes; eauto.
    + intros st0 st1 H _ Hstores _. rewrite Hstores. exact H.
    + intros d0 st0 pools p_i st1 pools' H Hstep. unfold propose_candidates in Hstep.
      inv_bind Hstep. inv_bind Hstep. inv_bind Hstep. inv_bind Hstep. inv_bind Hstep.
      inversion Hstep; subst st1. exact H.
  - unfold P. cbn [evaluated_candidates]. intros i store Hstore.
    apply nth_error_In, in_map_iff in Hstore. destruct Hstore as (? & <- & _).
    split; [constructor | intros k r []].
Qed.

(** ** The number of evaluations *)

Lemma pool_has_size (n : nat) (pool : InstructionCompletions) :
  pool_has n pool -> List.length (candidates_of pool) = n.
Proof.
  intros [H1 H2]. unfold candidates_of. rewrite length_combine, H1, H2. lia.
Qed.

Lemma for_each_seq_invariant {S : Type} (Inv : nat -> S -> Prop)
      (body : S -> nat -> result S) (n : nat) :
  forall (a : nat) (st st' : S),
  (forall d s s', a <= d < a + n -> Inv d s -> body s d = Ok s' -> Inv (Datatypes.S d) s') ->
  Inv a st -> for_each body (seq a n) st = Ok st' -> Inv (a + n) st'.
Proof.
  induction n as [|n IH]; intros a st st' Hstep Hinv Hrun; cbn [seq for_each] in Hrun.
  - inversion Hrun; subst. rewrite Nat.add_0_r. exact Hinv.
  - inv_bind Hrun. replace (a + Datatypes.S n) with (Datatypes.S a + n) by lia.
    eapply IH; [| |exact Hrun].
    + intros d s s' Hd. apply Hstep. lia.
    + eapply Hstep; [|exact Hinv|exact E]. lia.
Qed.

Lemma seed_candidates_sizes (predictors : list Predictor) (b : nat) :
  forall (w w' : World) (pools : list InstructionCompletions),
  (forall calls basic, pool_has b (predict_basic calls basic (self_breadth - 1)%Z)) ->
  seed_candidates w predictors = Ok (w', pools) ->
  List.length pools = List.length predictors /\ Forall (pool_has (S b)) pools.
Proof.
  induction predictors as [|p rest IH]; intros w w' pools Hbasic Hrun;
    cbn [seed_candidates] in Hrun.
  - inversion Hrun; subst. split; [reflexivity | constructor].
  - inv_bind Hrun. inv_bind Hrun. inversion Hrun; subst w' pools. destruct a0 as [w1 more].
    destruct (IH _ _ _ Hbasic E0) as [Hlen Hall]. cbn [snd List.length].
    split; [f_equal; exact Hlen|]. constructor; [|exact Hall].
    unfold initial_candidates in E. inv_bind E. destruct a0 as [bi bp].
    inversion E; subst a. destruct (Hbasic (lm_calls w) bi) as [H1 H2].
    split; cbn [proposed_instruction proposed_prefix_for_output_field];
      rewrite length_app; cbn [List.length]; lia.
Qed.

Lemma search_predictor_count (d n : nat) (st st' : SearchState) (p_i : nat) :
  search_predictor d n st p_i = Ok st' ->
  exists pool,
    In pool (active_pools n st)
    /\ total_calls st' = total_calls st + List.length (candidates_of pool)
    /\ all_candidates st' = all_candidates st
    /\ latest_candidates st' = latest_candidates st.
Proof.
  intros Hrun. unfold search_predictor in Hrun. fold (active_pools n st) in Hrun.
  inv_bind Hrun. inv_bind Hrun.
  destruct (evaluate_all_records _ _ _ _ _ _ E0) as (_ & _ & Hac & Hlc & Htc).
  rewrite length_enumerate_from in Htc.
  inv_bind Hrun. inv_bind Hrun. inv_bind Hrun. inv_bind Hrun. inv_bind Hrun.
  inv_bind Hrun. inversion Hrun; subst st'; clear Hrun.
  cbn [total_calls all_candidates latest_candidates].
  exists a. split; [eapply item_In; eauto|]. auto.
Qed.

Lemma search_predictors_count (d n s : nat) (indices : list nat) :
  forall st st',
  Forall (pool_has s) (active_pools n st) ->
  for_each (search_predictor d n) indices st = Ok st' ->
  total_calls st' = total_calls st + List.length indices * s
  /\ all_candidates st' = all_candidates st
  /\ latest_candidates st' = latest_candidates st.
Proof.
  induction indices as [|i indices IH]; intros st st' Hpools Hrun; cbn [for_each] in Hrun.
  - inversion Hrun; subst. cbn [List.length]. split; [lia | auto].
  - inv_bind Hrun.
    destruct (search_predictor_count _ _ _ _ _ E) as (pool & Hin & Htc & Hac & Hlc).
    rewrite Forall_forall in Hpools. pose proof (pool_has_size _ _ (Hpools pool Hin)) as Hs.
    destruct (IH a st') as (Htc' & Hac' & Hlc'); [|exact Hrun|].
    + apply Forall_forall. unfold active_pools. rewrite Hac, Hlc. exact Hpools.
    + cbn [List.length]. split; [lia|]. split; congruence.
Qed.

Lemma propose_all_sizes (b len m : nat) :
  (forall calls request, pool_has b (predict_attempts calls request)) ->
  forall (k : nat) (st st' : SearchState) (news news' : list InstructionCompletions),
  forall d : nat,
  for_each (fun acc p_i => propose_candidates d (fst acc) (snd acc) p_i) (seq k m)
           (st, news)
  = Ok (st', news') ->
  (forall i pool, nth_error (all_candidates st) i = Some pool ->
                  pool_has (if i <? k then len + b else len) pool) ->
  Forall (pool_has b) news ->
  (forall i pool, nth_error (all_candidates st') i = Some pool ->
                  pool_has (if i <? k + m then len + b else len) pool)
  /\ Forall (pool_has b) news'
  /\ total_calls st' = total_calls st
  /\ List.length (all_candidates st') = List.length (all_candidates st).
Proof.
  intros Hattempts. induction m as [|m IH]; intros k st st' news news' d Hrun Hall Hnews;
    cbn [seq for_each] in Hrun.
  - inversion Hrun; subst. rewrite Nat.add_0_r. auto.
  - cbn [fst snd] in Hrun.
    destruct (propose_candidates d st news k) as [[st1 news1]|e] eqn:Hstep;
      cbn [bind] in Hrun; [|discriminate].
    unfold propose_candidates in Hstep.
    inv_bind Hstep. inv_bind Hstep. inv_bind Hstep.
    destruct (item (all_candidates st) k) as [pool0|e] eqn:Epool; cbn [bind] in Hstep;
      [|discriminate].
    match type of Hstep with
    | bind ?m _ = Ok _ => destruct m as [pools0|e] eqn:Eset; cbn [bind] in Hstep;
                          [|discriminate]
    end.
    inversion Hstep; subst st1 news1; clear Hstep.
    destruct (IH (S k) _ _ _ _ d Hrun) as (Hall' & Hnews' & Htc & Hlen).
    + cbn [all_candidates]. intros i pool Hpool.
      destruct (Nat.eq_dec i k) as [->|Hne].
      * rewrite (list_set_nth_same _ _ _ _ Eset) in Hpool. inversion Hpool; subst pool.
        replace (k <? S k) with true by (symmetry; apply Nat.ltb_lt; lia).
        apply item_Ok in Epool. specialize (Hall k pool0 Epool).
        rewrite Nat.ltb_irrefl in Hall. destruct Hall as [H1 H2].
        match goal with
        | |- context [predict_attempts ?calls ?request] =>
            destruct (Hattempts calls request) as [H3 H4]
        end.
        split; cbn [proposed_instruction proposed_prefix_for_output_field];
          rewrite length_app; lia.
      * rewrite (list_set_nth_other _ _ _ _ _ Eset Hne) in Hpool.
        specialize (Hall i pool Hpool).
        destruct (Nat.ltb_spec i k), (Nat.ltb_spec i (S k)); try lia; exact Hall.
    + rewrite Forall_app. split; [exact Hnews|]. constructor; [|constructor].
      apply Hattempts.
    + replace (k + S m) with (S k + m) by lia.
      split; [exact Hall'|]. split; [exact Hnews'|].
      cbn [total_calls all_candidates] in Htc, Hlen.
      split; [exact Htc|]. rewrite Hlen. eapply list_set_length; eauto.
Qed.

Lemma search_round_count (b n : nat) (st st' : SearchState) (d : nat) :
  (forall calls request, pool_has b (predict_attempts calls request)) ->
  d < self_depth ->
  total_calls st = evaluations_after n b d ->
  List.length (all_candidates st) = n ->
  Forall (pool_has (b * S d)) (all_candidates st) ->
  Forall (pool_has b) (latest_candidates st) ->
  search_round n st d = Ok st' ->
  total_calls st' = evaluations_after n b (S d)
  /\ (S d < self_depth ->
      List.length (all_candidates st') = n
      /\ Forall (pool_has (b * S (S d))) (all_candidates st')
      /\ Forall (pool_has b) (latest_candidates st')).
Proof.
  intros Hattempts Hd Htotal Hlen Hall Hlatest Hrun.
  unfold search_round in Hrun. inv_bind Hrun.
  destruct (search_predictors_count d n (if 1 <? n then b * S d else b) (seq 0 n)
              (start_round st) a)
    as (Htc & Hac & Hlc); [|exact E|].
  { unfold active_pools, start_round. cbn [all_candidates latest_candidates].
    destruct (1 <? n); assumption. }
  unfold start_round in Htc, Hac, Hlc.
  cbn [total_calls all_candidates latest_candidates] in Htc, Hac, Hlc.
  rewrite length_seq in Htc.
  assert (Htotal' : total_calls a = evaluations_after n b (S d)).
  { cbn [evaluations_after]. rewrite Htc, Htotal. reflexivity. }
  destruct (Nat.eqb_spec d (self_depth - 1)) as [Hlast|Hmore].
  - inversion Hrun; subst st'. split; [exact Htotal' | lia].
  - inv_bind Hrun. destruct a0 as [st1 new_candidates].
    inversion Hrun; subst st'; clear Hrun.
    cbn [total_calls all_candidates latest_candidates].
    destruct (propose_all_sizes b (b * S d) n Hattempts 0 a st1 [] new_candidates d E0)
      as (Hall1 & Hnews & Htc1 & Hlen1).
    + intros i pool Hpool. cbn [Nat.ltb Nat.leb]. rewrite Hac in Hpool.
      rewrite Forall_forall in Hall. apply Hall. eapply nth_error_In; eauto.
    + constructor.
    + split; [congruence|]. intros _.
      split; [congruence|]. split; [|exact Hnews].
      apply Forall_forall. intros pool Hpool. apply In_nth_error in Hpool.
      destruct Hpool as [i Hi]. specialize (Hall1 i pool Hi).
      assert (Hi' : i < n).
      { rewrite <- Hlen, <- Hac, <- Hlen1. apply nth_error_Some. congruence. }
      cbn [Nat.add] in Hall1.
      replace (i <? n) with true in Hall1 by (symmetry; apply Nat.ltb_lt; exact Hi').
      replace (b * S (S d)) with (b * S d + b) by lia. exact Hall1.
Qed.

Lemma evaluations_after_closed (n b d : nat) :
  evaluations_after n b d
  = if 1 <? n then n * b * (d * (d + 1) / 2) else n * b * d.
Proof.
  induction d as [|d IH]; cbn [evaluations_after].
  - destruct (1 <? n); cbn; lia.
  - rewrite IH. destruct (1 <? n).
    + replace (S d * (S d + 1)) with (d * (d + 1) + S d * 2) by lia.
      rewrite Nat.div_add by lia. lia.
    + lia.
Qed.

(** X20.  What a run of [compile] costs.  When the model answers every
    request for candidates with as many as asked for, the number of
    evaluations [compile] reports is, for a program of one predictor, the
    breadth times the depth; for a program of several predictors, every
    round evaluates for each predictor all the candidates made so far, and
    the number is the number of predictors times the breadth times
    1 + 2 + ... + depth. *)
Theorem compile_total_calls (student : Program) (devset_ evalset_ : list Row)
        (r : CompiledProgram) :
  let b := Z.to_nat self_breadth in
  let n := List.length student in
  (1 <= self_breadth)%Z ->
  (forall calls basic,
     pool_has (b - 1) (predict_basic calls basic (self_breadth - 1)%Z)) ->
  (forall calls request, pool_has b (predict_attempts calls request)) ->
  compile student devset_ evalset_ = Ok r ->
  compiled_total_calls r
  = if 1 <? n then n * b * (self_depth * (self_depth + 1) / 2)
    else n * b * self_depth.
Proof.
  intros b n Hb Hbasic Hattempts Hrun. unfold compile in Hrun.
  destruct (search student devset_ evalset_) as [st|e] eqn:Hsearch; cbn [bind] in Hrun;
    [|discriminate].
  assert (Hr : compiled_total_calls r = total_calls st).
  { unfold select_best in Hrun. inv_bind Hrun. destruct a as [gathered results].
    inv_bind Hrun. inv_bind Hrun. inversion Hrun; subst r. reflexivity. }
  rewrite Hr, <- evaluations_after_closed. clear Hrun Hr r.
  unfold search in Hsearch. inv_bind Hsearch. inv_bind Hsearch.
  destruct a0 as [w candidates].
  destruct (seed_candidates_sizes _ _ _ _ _ Hbasic E0) as [Hlen Hsizes].
  replace (S (b - 1)) with b in Hsizes by (subst b; lia).
  set (Inv := fun d s =>
         total_calls s = evaluations_after n b d
         /\ (d < self_depth ->
             List.length (all_candidates s) = n
             /\ Forall (pool_has (b * S d)) (all_candidates s)
             /\ Forall (pool_has b) (latest_candidates s))).
  assert (Hend : Inv (0 + self_depth) st).
  { eapply (for_each_seq_invariant Inv); [| |exact Hsearch].
    - intros d s s' Hd [Htotal Hpools] Hstep.
      destruct (Hpools ltac:(lia)) as (Hl & Ha & Hla).
      fold n in Hstep.
      apply (search_round_count b n s s' d Hattempts ltac:(lia) Htotal Hl Ha Hla Hstep).
    - split; [reflexivity|]. intros _. cbn [all_candidates latest_candidates].
      split; [exact Hlen|]. rewrite Nat.mul_1_r. split; exact Hsizes. }
  destruct Hend as [Htotal _]. exact Htotal.
Qed.

(** ** The metric of the GSM8K task *)

Lemma digit_not_space (c : ascii) : Text.is_digit c = true -> is_space c = false.
Proof.
  unfold Text.is_digit, is_space. intros H.
  apply andb_true_iff in H. destruct H as [H1 H2].
  apply Nat.leb_le in H1. apply Nat.leb_le in H2.
  apply orb_false_iff. split; apply andb_false_iff.
  - right. apply Nat.leb_gt. lia.
  - right. apply Nat.leb_gt. lia.
Qed.

Lemma digit_not_dot (c : ascii) : Text.is_digit c = true -> is_dot c = false.
Proof.
  unfold Text.is_digit, is_dot. intros H.
  apply andb_true_iff in H. destruct H as [H1 H2].
  apply Nat.leb_le in H1. apply Nat.eqb_neq. lia.
Qed.

Lemma all_digits_no_space (s : string) : all_digits s -> no_space s.
Proof.
  unfold all_digits, no_space. intros H. eapply Forall_impl; [|exact H].
  intros c. apply digit_not_space.
Qed.

Lemma all_digits_no_dot (s : string) : all_digits s -> no_dot s.
Proof.
  unfold all_digits, no_dot. intros H. eapply Forall_impl; [|exact H].
  intros c. apply digit_not_dot.
Qed.

(** Reading on through a token. *)
Lemma split_from_token (token rest : string) (word : list ascii) :
  no_space token ->
  split_from (token ++ rest) word
  = split_from rest (rev (list_ascii_of_string token) ++ word).
Proof.
  revert word. induction token as [|c token IH]; intros word Hns; [reflexivity|].
  inversion Hns as [|? ? Hc Hrest]; subst. cbn [append split_from]. rewrite Hc.
  rewrite IH by exact Hrest. cbn [list_ascii_of_string rev].
  rewrite <- app_assoc. reflexivity.
Qed.

(** White space ends the token being read. *)
Lemma split_from_space (s rest : string) (c : ascii) (word : list ascii) :
  is_space c = true ->
  split_from (s ++ String c rest) word = split_from s word ++ split_from rest [].
Proof.
  intros Hc. revert word. induction s as [|x s IH]; intros word.
  - cbn [append split_from]. rewrite Hc. destruct word; reflexivity.
  - cbn [append split_from]. destruct (is_space x).
    + destruct word; rewrite IH; reflexivity.
    + apply IH.
Qed.

Lemma split_from_characters (s : string) :
  forall (word : list ascii) (token : string) (c : ascii),
  In token (split_from s word) -> In c (list_ascii_of_string token) ->
  In c word \/ In c (list_ascii_of_string s).
Proof.
  induction s as [|x s IH]; intros word token c Htoken Hc; cbn [split_from] in Htoken.
  - destruct word as [|y word]; [destruct Htoken|].
    destruct Htoken as [<-|[]]. rewrite list_ascii_of_string_of_list_ascii in Hc.
    left. apply in_rev. exact Hc.
  - cbn [list_ascii_of_string].
    destruct (is_space x).
    + destruct word as [|y word].
      * destruct (IH _ _ _ Htoken Hc) as [[]|H]. right. right. exact H.
      * destruct Htoken as [<-|Htoken].
        -- rewrite list_ascii_of_string_of_list_ascii in Hc. left. apply in_rev. exact Hc.
        -- destruct (IH _ _ _ Htoken Hc) as [[]|H]. right. right. exact H.
    + destruct (IH _ _ _ Htoken Hc) as [[<-|H]|H].
      * right. left. reflexivity.
      * left. exact H.
      * right. right. exact H.
Qed.

Lemma no_digit_tokens (s : string) :
  no_digit s -> filter has_digit (split s) = [].
Proof.
  intros Hnd. apply filter_none. intros token Hin. unfold has_digit.
  destruct (existsb Text.is_digit (list_ascii_of_string token)) eqn:Hex; [|reflexivity].
  apply existsb_exists in Hex. destruct Hex as (c & Hc & Hdigit).
  destruct (split_from_characters s [] token c Hin Hc) as [[]|H].
  unfold no_digit in Hnd. rewrite Forall_forall in Hnd. rewrite (Hnd c H) in Hdigit.
  discriminate.
Qed.

Lemma before_dot_app (a b : string) :
  no_dot a -> before_dot (a ++ b) = (a ++ before_dot b)%string.
Proof.
  induction a as [|c a IH]; intros Hnd; [reflexivity|].
  inversion Hnd as [|? ? Hc Hrest]; subst. cbn [append before_dot]. rewrite Hc.
  rewrite IH by exact Hrest. reflexivity.
Qed.

Lemma digits_of_app (a b : string) :
  digits_of (a ++ b) = (digits_of a ++ digits_of b)%string.
Proof.
  unfold digits_of. rewrite list_ascii_of_string_app, filter_app.
  apply string_of_list_ascii_app.
Qed.

Lemma digits_of_no_digit (s : string) : no_digit s -> digits_of s = EmptyString.
Proof.
  intros H. unfold digits_of. rewrite filter_none; [reflexivity|].
  unfold no_digit in H. rewrite Forall_forall in H. exact H.
Qed.

Lemma digits_of_all_digits (s : string) : all_digits s -> digits_of s = s.
Proof.
  intros H. unfold digits_of.
  replace (filter Text.is_digit (list_ascii_of_string s)) with (list_ascii_of_string s).
  - apply string_of_list_ascii_of_string.
  - unfold all_digits in H. induction H as [|c l Hc _ IH]; [reflexivity|].
    cbn [filter]. rewrite Hc, <- IH. reflexivity.
Qed.

Lemma no_space_app (a b : string) : no_space a -> no_space b -> no_space (a ++ b).
Proof.
  unfold no_space. rewrite list_ascii_of_string_app, Forall_app. auto.
Qed.

(** The last token that holds a digit decides; what follows it without a
    digit does not count. *)
Lemma parse_integer_answer_last_token (s token t : string) :
  no_space token -> has_digit token = true -> no_digit t ->
  parse_integer_answer (s ++ " " ++ token ++ " " ++ t)
  = match int_of_text (digits_of (before_dot token)) with
    | Ok n => Ok n
    | Raise _ => Ok 0
    end.
Proof.
  intros Hns Hd Hnd. unfold parse_integer_answer, split.
  change (" " ++ ?x)%string with (String " " x).
  rewrite split_from_space by reflexivity.
  rewrite split_from_token by exact Hns.
  rewrite app_nil_r.
  assert (Hword : rev (list_ascii_of_string token) <> []).
  { destruct token as [|c token]; [discriminate|]. cbn [list_ascii_of_string rev].
    destruct (rev (list_ascii_of_string token)); discriminate. }
  rewrite (split_from_space EmptyString t " ") by reflexivity.
  cbn [split_from].
  destruct (rev (list_ascii_of_string token)) as [|y word] eqn:Hrev; [congruence|].
  rewrite <- Hrev, rev_involutive, string_of_list_ascii_of_string.
  cbn [app].
  rewrite filter_app. cbn [filter]. rewrite Hd.
  pose proof (no_digit_tokens t Hnd) as Hnone. unfold split in Hnone. rewrite Hnone.
  unfold last_item. rewrite rev_app_distr. cbn [rev app bind].
  unfold int_of_text.
  destruct (digits_of (before_dot token)); reflexivity.
Qed.

(** X21.  [parse_integer_answer] reads the last number of a text: the
    text may go on after it, as long as no digit follows; so a sentence
    that ends with its answer is read as that answer. *)
Theorem parse_integer_answer_reads_last_number (s t : string) (n : nat) :
  no_digit t ->
  parse_integer_answer (s ++ " " ++ Text.str_of_nat n ++ " " ++ t) = Ok n.
Proof.
  intros Hnd.
  pose proof (str_of_nat_digits n) as Hdigits.
  rewrite parse_integer_answer_last_token; [| | |exact Hnd].
  - rewrite <- (string_app_nil_r (Text.str_of_nat n)) at 1.
    rewrite before_dot_app by (apply all_digits_no_dot, Hdigits).
    cbn [before_dot]. rewrite string_app_nil_r.
    rewrite digits_of_all_digits by exact Hdigits.
    unfold int_of_text. destruct (Text.str_of_nat n) eqn:Hs;
      [exfalso; eapply str_of_nat_nonempty; eauto|].
    rewrite <- Hs. rewrite int_of_digits_str_of_nat. reflexivity.
  - apply all_digits_no_space, Hdigits.
  - unfold has_digit. unfold all_digits in Hdigits.
    destruct (list_ascii_of_string (Text.str_of_nat n)) as [|c l] eqn:Hl.
    + exfalso. apply (str_of_nat_nonempty n).
      rewrite <- (string_of_list_ascii_of_string (Text.str_of_nat n)), Hl. reflexivity.
    + inversion Hdigits; subst. cbn [existsb]. rewrite H1. reflexivity.
Qed.

Lemma parse_integer_answer_bare_token (token : string) :
  no_space token -> has_digit token = true ->
  parse_integer_answer token
  = match int_of_text (digits_of (before_dot token)) with
    | Ok n => Ok n
    | Raise _ => Ok 0
    end.
Proof.
  intros Hns Hd. unfold parse_integer_answer, split.
  rewrite <- (string_app_nil_r token) at 1.
  rewrite split_from_token by exact Hns. rewrite app_nil_r. cbn [split_from].
  destruct (rev (list_ascii_of_string token)) as [|y word] eqn:Hrev.
  - destruct token as [|c token]; [discriminate Hd|]. cbn [list_ascii_of_string rev] in Hrev.
    destruct (rev (list_ascii_of_string token)); discriminate.
  - rewrite <- Hrev, rev_involutive, string_of_list_ascii_of_string.
    cbn [filter]. rewrite Hd. cbn [last_item rev app bind].
    unfold int_of_text. destruct (digits_of (before_dot token)); reflexivity.
Qed.

Lemma has_digit_app (a b : string) :
  has_digit (a ++ b) = has_digit a || has_digit b.
Proof. unfold has_digit. rewrite list_ascii_of_string_app. apply existsb_app. Qed.

Lemma has_digit_str_of_nat (n : nat) : has_digit (Text.str_of_nat n) = true.
Proof.
  pose proof (str_of_nat_digits n) as Hdigits. unfold has_digit, all_digits in *.
  destruct (list_ascii_of_string (Text.str_of_nat n)) as [|c l] eqn:Hl.
  - exfalso. apply (str_of_nat_nonempty n).
    rewrite <- (string_of_list_ascii_of_string (Text.str_of_nat n)), Hl. reflexivity.
  - inversion Hdigits; subst. cbn [existsb]. rewrite H1. reflexivity.
Qed.

Lemma int_of_text_str_of_nat (n : nat) : int_of_text (Text.str_of_nat n) = Ok n.
Proof.
  unfold int_of_text. destruct (Text.str_of_nat n) eqn:Hs;
    [exfalso; eapply str_of_nat_nonempty; eauto|].
  rewrite <- Hs. rewrite int_of_digits_str_of_nat. reflexivity.
Qed.

(** The value read from a number that comes with a sign or a unit in
    front of it and a fraction behind it. *)
Lemma decorated_number_value (lead frac : string) (n : nat) :
  no_digit lead -> no_dot lead ->
  int_of_text (digits_of (before_dot (lead ++ Text.str_of_nat n ++ "." ++ frac))) = Ok n.
Proof.
  intros Hnd Hdot. pose proof (str_of_nat_digits n) as Hdigits.
  rewrite before_dot_app by exact Hdot.
  rewrite before_dot_app by (apply all_digits_no_dot, Hdigits).
  change (before_dot ("." ++ frac)) with EmptyString. rewrite string_app_nil_r.
  rewrite digits_of_app, (digits_of_no_digit lead Hnd),
    (digits_of_all_digits _ Hdigits).
  apply int_of_text_str_of_nat.
Qed.

(** X22.  The metric reads neither the sign nor the fraction of an
    answer: a predicted answer whose last number is [n] with a sign or a
    unit in front of it and any fraction behind it is judged right for
    the gold answer [n], and the chat model is not asked. *)
Theorem gsm8k_metric_ignores_sign_and_fraction (n : nat) (s lead frac t : string) :
  no_space lead -> no_digit lead -> no_dot lead -> no_space frac -> no_digit t ->
  gsm8k_metric (Text.str_of_nat n)
               (s ++ " " ++ lead ++ Text.str_of_nat n ++ "." ++ frac ++ " " ++ t)
  = Ok (true, []).
Proof.
  intros Hlead_space Hlead_digit Hlead_dot Hfrac Ht.
  pose proof (str_of_nat_digits n) as Hdigits.
  unfold gsm8k_metric.
  rewrite parse_integer_answer_bare_token;
    [|apply all_digits_no_space, Hdigits | apply has_digit_str_of_nat].
  rewrite <- (string_app_nil_r (Text.str_of_nat n)) at 1.
  rewrite before_dot_app by (apply all_digits_no_dot, Hdigits).
  cbn [before_dot]. rewrite string_app_nil_r, (digits_of_all_digits _ Hdigits).
  rewrite int_of_text_str_of_nat. cbn [bind].
  replace (s ++ " " ++ lead ++ Text.str_of_nat n ++ "." ++ frac ++ " " ++ t)%string
    with (s ++ " " ++ (lead ++ Text.str_of_nat n ++ "." ++ frac) ++ " " ++ t)%string
    by (rewrite !string_app_assoc; reflexivity).
  rewrite parse_integer_answer_last_token; [| | |exact Ht].
  - rewrite decorated_number_value by assumption. cbn [bind].
    rewrite Nat.eqb_refl. reflexivity.
  - apply no_space_app; [exact Hlead_space|].
    apply no_space_app; [apply all_digits_no_space, Hdigits|].
    apply no_space_app; [|exact Hfrac]. constructor; [reflexivity | constructor].
  - rewrite !has_digit_app, has_digit_str_of_nat. apply orb_true_iff. right. reflexivity.
Qed.

Lemma parse_integer_answer_returns (answer : string) :
  exists n, parse_integer_answer answer = Ok n.
Proof.
  unfold parse_integer_answer.
  destruct (last_item (filter has_digit (split answer))) as [token|e] eqn:Hlast;
    cbn [bind].
  - unfold int_of_text. destruct (digits_of (before_dot token)); eauto.
  - apply last_item_error in Hlast. subst e. eauto.
Qed.

Lemma parse_integer_answer_no_digit (answer : string) :
  no_digit answer -> parse_integer_answer answer = Ok 0.
Proof.
  intros Hnd. unfold parse_integer_answer. rewrite (no_digit_tokens _ Hnd). reflexivity.
Qed.

(** X23.  The metric always returns.  It asks the chat model at most
    once, and only about a predicted answer that contains the gold answer
    and was not read as the same number; the verdict is then the chat
    model's.  When it does not ask, the answer is judged right exactly
    when the two texts are read as the same number.  Two answers without
    any digit are both read as 0 and judged right without asking. *)
Theorem gsm8k_metric_verdict (gold_answer pred_answer : string) :
  exists correct asked,
    gsm8k_metric gold_answer pred_answer = Ok (correct, asked)
    /\ (asked = [] \/ asked = [(gold_answer, pred_answer)])
    /\ (asked = [(gold_answer, pred_answer)] ->
        correct = llm_check gold_answer pred_answer
        /\ Text.contains gold_answer pred_answer = true
        /\ parse_integer_answer gold_answer <> parse_integer_answer pred_answer)
    /\ (asked = [] ->
        (correct = true
         <-> parse_integer_answer gold_answer = parse_integer_answer pred_answer))
    /\ (no_digit gold_answer -> no_digit pred_answer -> correct = true /\ asked = []).
Proof.
  unfold gsm8k_metric.
  destruct (parse_integer_answer_returns gold_answer) as [g Hg].
  destruct (parse_integer_answer_returns pred_answer) as [p Hp].
  rewrite Hg, Hp. cbn [bind].
  destruct (Nat.eqb_spec g p) as [Heq|Hne]; cbn [negb andb].
  - exists true, []. split; [reflexivity|]. split; [left; reflexivity|].
    split; [discriminate|]. split.
    + intros _. split; [intros _; congruence | reflexivity].
    + intros _ _. split; reflexivity.
  - destruct (Text.contains gold_answer pred_answer) eqn:Hin.
    + exists (llm_check gold_answer pred_answer), [(gold_answer, pred_answer)].
      split; [reflexivity|]. split; [right; reflexivity|]. split; [|split].
      * intros _. split; [reflexivity|]. split; [reflexivity|]. congruence.
      * discriminate.
      * intros Hgd Hpd. exfalso. apply Hne.
        rewrite (parse_integer_answer_no_digit _ Hgd) in Hg.
        rewrite (parse_integer_answer_no_digit _ Hpd) in Hp. congruence.
    + exists false, []. split; [reflexivity|]. split; [left; reflexivity|].
      split; [discriminate|]. split.
      * intros _. split; [discriminate | intros Heq; exfalso; apply Hne; congruence].
      * intros Hgd Hpd. exfalso. apply Hne.
        rewrite (parse_integer_answer_no_digit _ Hgd) in Hg.
        rewrite (parse_integer_answer_no_digit _ Hpd) in Hp. congruence.
Qed.

(** ** The prompt a client is called with *)

Lemma is_dash_spec (c : ascii) : is_dash c = true <-> c = "-"%char.
Proof.
  unfold is_dash. rewrite Nat.eqb_eq. split.
  - intros H. rewrite <- (ascii_nat_embedding c), H. reflexivity.
  - intros ->. reflexivity.
Qed.

Lemma prefix_dashes (s : string) :
  String.prefix "---" s
  = match s with
    | String c (String c2 (String c3 _)) => is_dash c && is_dash c2 && is_dash c3
    | _ => false
    end.
Proof.
  assert (Hdec : forall c : ascii,
             (if ascii_dec "-" c then true else false) = is_dash c).
  { intros c. destruct (ascii_dec "-" c) as [<-|Hne]; [reflexivity|].
    symmetry. destruct (is_dash c) eqn:Hc; [|reflexivity].
    apply is_dash_spec in Hc. congruence. }
  destruct s as [|c [|c2 [|c3 rest]]]; cbn [String.prefix].
  - reflexivity.
  - destruct (ascii_dec "-" c); reflexivity.
  - destruct (ascii_dec "-" c); [|reflexivity]. destruct (ascii_dec "-" c2); reflexivity.
  - rewrite <- !Hdec.
    destruct (ascii_dec "-" c); [|reflexivity].
    destruct (ascii_dec "-" c2); [|reflexivity].
    destruct (ascii_dec "-" c3); [|reflexivity].
    destruct rest; reflexivity.
Qed.

Lemma concat_cons_first (sep : string) (c : ascii) (piece : string)
      (pieces : list string) :
  String.concat sep (String c piece :: pieces)
  = String c (String.concat sep (piece :: pieces)).
Proof. destruct pieces; reflexivity. Qed.

Lemma concat_snoc (sep : string) (pieces : list string) (x : string) :
  pieces <> [] ->
  String.concat sep (pieces ++ [x]) = (String.concat sep pieces ++ sep ++ x)%string.
Proof.
  induction pieces as [|p pieces IH]; intros Hne; [congruence|].
  destruct pieces as [|q pieces]; [reflexivity|].
  change (String.concat sep ((p :: q :: pieces) ++ [x]))
    with (p ++ sep ++ String.concat sep ((q :: pieces) ++ [x]))%string.
  rewrite IH by discriminate.
  change (String.concat sep (p :: q :: pieces))
    with (p ++ sep ++ String.concat sep (q :: pieces))%string.
  rewrite !string_app_assoc. reflexivity.
Qed.

(** What [split] and [join] do with the separator of the prompts. *)
Lemma split_dashes_spec (n : nat) :
  forall s, String.length s <= n ->
  split_dashes s <> []
  /\ Text.join "---" (split_dashes s) = s
  /\ Text.contains "---" (last (split_dashes s) EmptyString) = false
  /\ (Text.contains "---" s = false -> split_dashes s = [s]).
Proof.
  induction n as [|n IH]; intros s Hlen.
  - destruct s; [|cbn in Hlen; lia]. repeat split; try reflexivity. discriminate.
  - destruct s as [|c rest]; [repeat split; try reflexivity; discriminate|].
    cbn [String.length] in Hlen.
    assert (Hother :
      String.prefix "---" (String c rest) = false ->
      split_dashes (String c rest) = cons_first c (split_dashes rest) ->
      split_dashes (String c rest) <> []
      /\ Text.join "---" (split_dashes (String c rest)) = String c rest
      /\ Text.contains "---" (last (split_dashes (String c rest)) EmptyString) = false
      /\ (Text.contains "---" (String c rest) = false ->
          split_dashes (String c rest) = [String c rest])).
    { intros Hprefix Hsplit. rewrite Hsplit.
      destruct (IH rest ltac:(lia)) as (Hne & Hjoin & Hlast & Hnone).
      destruct (split_dashes rest) as [|piece pieces] eqn:Hpieces; [congruence|].
      cbn [cons_first]. split; [discriminate|].
      split; [unfold Text.join in *; rewrite concat_cons_first, Hjoin; reflexivity|].
      split.
      - destruct pieces as [|q pieces].
        + cbn [last] in *. unfold Text.join in Hjoin. cbn [String.concat] in Hjoin.
          subst piece. rewrite contains_cons, Hprefix, Hlast. reflexivity.
        + exact Hlast.
      - intros Hc. rewrite contains_cons in Hc. apply orb_false_iff in Hc.
        destruct Hc as [_ Hc]. specialize (Hnone Hc). inversion Hnone. reflexivity. }
    pose proof (prefix_dashes (String c rest)) as Hprefix.
    destruct rest as [|c2 [|c3 rest']]; try (apply Hother; [exact Hprefix | reflexivity]).
    cbn [split_dashes] in *.
    destruct (is_dash c && is_dash c2 && is_dash c3) eqn:Hdash;
      [|apply Hother; [exact Hprefix | reflexivity]].
    apply andb_true_iff in Hdash. destruct Hdash as [Hdash H3].
    apply andb_true_iff in Hdash. destruct Hdash as [H1 H2].
    apply is_dash_spec in H1. apply is_dash_spec in H2. apply is_dash_spec in H3.
    subst c c2 c3.
    cbn [String.length] in Hlen.
    destruct (IH rest' ltac:(lia)) as (Hne & Hjoin & Hlast & _).
    destruct (split_dashes rest') as [|piece pieces] eqn:Hpieces; [congruence|].
    split; [discriminate|]. split; [|split].
    + unfold Text.join in *.
      change (String.concat "---" (EmptyString :: piece :: pieces))
        with ("---" ++ String.concat "---" (piece :: pieces))%string.
      rewrite Hjoin. reflexivity.
    + exact Hlast.
    + rewrite contains_cons, Hprefix. discriminate.
Qed.

(** X24.  The three clients cut a prompt that holds the separator in two
    at the last separator found from the left: the request they make has
    a system part and a user part that, put together around a separator,
    give the prompt again, and the user part holds no separator.  The
    answer of the request is what the AnyScale and DeepInfra clients
    return, and what the Together client returns in a list of one. *)
Theorem clients_cut_prompt_at_last_separator (prompt : string) :
  Text.contains "---" prompt = true ->
  exists system_prompt user_prompt,
    prompt = (system_prompt ++ "---" ++ user_prompt)%string
    /\ Text.contains "---" user_prompt = false
    /\ AnyScaleApi_call prompt true false = basic_request system_prompt user_prompt
    /\ DeepInfraApi_call prompt true false = basic_request system_prompt user_prompt
    /\ TogetherApi_call prompt true false
       = match basic_request system_prompt user_prompt with
         | Returns response => Returns [response]
         | Raises e => Raises e
         end.
Proof.
  intros Hin.
  destruct (split_dashes_spec (String.length prompt) prompt (le_n _))
    as (Hne & Hjoin & Hlast & Hnone).
  set (pieces := split_dashes prompt) in *.
  exists (Text.join "---" (removelast pieces)), (last pieces EmptyString).
  assert (Hmany : removelast pieces <> []).
  { intros Hnil. pose proof (app_removelast_last EmptyString Hne) as Hsplit.
    fold pieces in Hsplit.
    rewrite Hnil in Hsplit. cbn [app] in Hsplit. rewrite Hsplit in Hjoin.
    unfold Text.join in Hjoin. cbn [String.concat] in Hjoin.
    rewrite Hjoin in Hlast. congruence. }
  split; [|split; [exact Hlast|]].
  - rewrite <- Hjoin at 1.
    rewrite (app_removelast_last EmptyString Hne) at 1. fold pieces.
    unfold Text.join. apply concat_snoc, Hmany.
  - unfold AnyScaleApi_call, DeepInfraApi_call, TogetherApi_call, request_of_prompt.
    rewrite Hin. cbn [negb]. fold pieces. repeat split; reflexivity.
Qed.

(** ** The statistics [compile] attaches *)

Lemma tracked_next (d : nat) (entry : Stats) (max_ min_ : Score)
      (average_ std_ : QArith_base.Q) :
  tracked d entry ->
  tracked (S d)
    {| stats_depth := stats_depth entry ++ [d];
       stats_max := stats_max entry ++ [max_];
       stats_average := stats_average entry ++ [average_];
       stats_min := stats_min entry ++ [min_];
       stats_std := stats_std entry ++ [std_] |}.
Proof.
  intros (Hdepth & Hmax & Havg & Hmin & Hstd). unfold tracked.
  cbn [stats_depth stats_max stats_average stats_min stats_std].
  rewrite !length_app, Hdepth, Hmax, Havg, Hmin, Hstd, seq_S. cbn [List.length Nat.add].
  repeat split; lia.
Qed.

(** One more entry for the predictor at [p_i], none for the others. *)
Lemma append_stats_tracked (results results' : list Stats) (p_i d : nat)
      (scores : list Score) (done : nat -> bool) :
  append_stats results p_i d scores = Ok results' ->
  done p_i = false ->
  (forall j entry, nth_error results j = Some entry ->
                   tracked (if done j then S d else d) entry) ->
  forall j entry, nth_error results' j = Some entry ->
                  tracked (if done j || (j =? p_i) then S d else d) entry.
Proof.
  unfold append_stats. intros Hrun Hfresh Hall j entry Hentry.
  inv_bind Hrun. inv_bind Hrun. inv_bind Hrun. inv_bind Hrun.
  apply item_Ok in E. destruct (Nat.eqb_spec j p_i) as [->|Hne].
  - rewrite (list_set_nth_same _ _ _ _ Hrun) in Hentry. inversion Hentry; subst entry.
    rewrite orb_true_r. apply tracked_next.
    specialize (Hall p_i a E). rewrite Hfresh in Hall. exact Hall.
  - rewrite (list_set_nth_other _ _ _ _ _ Hrun Hne) in Hentry.
    rewrite orb_false_r. apply Hall, Hentry.
Qed.

Lemma evaluate_candidates_keep_stats (d p_i n : nat)
      (cs : list (nat * (string * string))) (st st' : SearchState) :
  for_each (evaluate_candidate d p_i n) cs st = Ok st' ->
  results_best st' = results_best st /\ results_latest st' = results_latest st.
Proof.
  intros Hrun.
  apply (for_each_invariant
           (fun s => results_best s = results_best st
                     /\ results_latest s = results_latest st)
           (evaluate_candidate d p_i n) cs) with (st := st); [|auto|exact Hrun].
  intros s [c_i c] s' Hs Hstep. unfold evaluate_candidate in Hstep.
  inv_bind Hstep. inv_bind Hstep. inv_bind Hstep.
  destruct (evaluate (total_calls s) a1) as [score_ devset_annotated].
  inv_bind Hstep. inv_bind Hstep. inv_bind Hstep. inv_bind Hstep.
  inversion Hstep; subst s'. exact Hs.
Qed.

(** The loop of a round over the predictors notes the scores of the round
    once for each predictor, in the order of the predictors. *)
Lemma search_predictors_stats (d n m : nat) :
  self_track_stats = true ->
  forall (k : nat) (st st' : SearchState),
  for_each (search_predictor d n) (seq k m) st = Ok st' ->
  (forall j entry, nth_error (results_latest st) j = Some entry ->
                   tracked (if j <? k then S d else d) entry) ->
  results_best st' = results_best st
  /\ List.length (results_latest st') = List.length (results_latest st)
  /\ forall j entry, nth_error (results_latest st') j = Some entry ->
                     tracked (if j <? k + m then S d else d) entry.
Proof.
  intros Htrack. induction m as [|m IH]; intros k st st' Hrun Hall;
    cbn [seq for_each] in Hrun.
  - inversion Hrun; subst. rewrite Nat.add_0_r. auto.
  - inv_bind Hrun. unfold search_predictor in E.
    inv_bind E. inv_bind E.
    destruct (evaluate_candidates_keep_stats _ _ _ _ _ _ E1) as [Hbest Hlatest].
    rewrite Htrack in E.
    destruct (append_stats (results_latest a1) k d (latest_scores a1))
      as [results|e] eqn:Hstats; cbn [bind] in E; [|discriminate].
    inv_bind E. inv_bind E. inv_bind E. inv_bind E. inv_bind E.
    inversion E; subst a; clear E.
    destruct (IH (S k) _ _ Hrun) as (Hbest' & Hlen' & Hall').
    + cbn [results_latest]. intros j entry Hentry.
      pose proof (append_stats_tracked _ _ _ _ _ (fun j => j <? k) Hstats
                    (Nat.ltb_irrefl k)) as Hnext.
      rewrite Hlatest in Hnext. specialize (Hnext Hall j entry Hentry).
      cbn beta in Hnext.
      destruct (Nat.ltb_spec j k), (Nat.eqb_spec j k), (Nat.ltb_spec j (S k));
        cbn [orb] in Hnext; try lia; exact Hnext.
    + cbn [results_best results_latest] in Hbest', Hlen'.
      split; [congruence|]. split.
      * rewrite Hlen', (append_stats_length _ _ _ _ _ Hstats), Hlatest. reflexivity.
      * replace (k + S m) with (S k + m) by lia. exact Hall'.
Qed.

(** The loop that asks for new candidates notes the best scores so far
    once for each predictor. *)
Lemma propose_all_stats (d m : nat) :
  self_track_stats = true ->
  forall (k : nat) (st st' : SearchState) (news news' : list InstructionCompletions),
  for_each (fun acc p_i => propose_candidates d (fst acc) (snd acc) p_i) (seq k m)
           (st, news)
  = Ok (st', news') ->
  (forall j entry, nth_error (results_best st) j = Some entry ->
                   tracked (if j <? k then S d else d) entry) ->
  results_latest st' = results_latest st
  /\ List.length (results_best st') = List.length (results_best st)
  /\ forall j entry, nth_error (results_best st') j = Some entry ->
                     tracked (if j <? k + m then S d else d) entry.
Proof.
  intros Htrack. induction m as [|m IH]; intros k st st' news news' Hrun Hall;
    cbn [seq for_each] in Hrun.
  - inversion Hrun; subst. rewrite Nat.add_0_r. auto.
  - cbn [fst snd] in Hrun.
    destruct (propose_candidates d st news k) as [[st1 news1]|e] eqn:Hstep;
      cbn [bind] in Hrun; [|discriminate].
    unfold propose_candidates in Hstep. inv_bind Hstep. rewrite Htrack in Hstep.
    match type of Hstep with
    | bind ?m _ = Ok _ => destruct m as [results|e] eqn:Hstats; cbn [bind] in Hstep;
                          [|discriminate]
    end.
    inv_bind Hstep. inv_bind Hstep. inv_bind Hstep.
    inversion Hstep; subst st1 news1; clear Hstep.
    destruct (IH (S k) _ _ _ _ Hrun) as (Hlatest' & Hlen' & Hall').
    + cbn [results_best]. intros j entry Hentry.
      pose proof (append_stats_tracked _ _ _ _ _ (fun j => j <? k) Hstats
                    (Nat.ltb_irrefl k) Hall j entry Hentry) as Hnext.
      cbn beta in Hnext.
      destruct (Nat.ltb_spec j k), (Nat.eqb_spec j k), (Nat.ltb_spec j (S k));
        cbn [orb] in Hnext; try lia; exact Hnext.
    + cbn [results_best results_latest] in Hlatest', Hlen'.
      split; [exact Hlatest'|]. split.
      * rewrite Hlen'. eapply append_stats_length; eauto.
      * replace (k + S m) with (S k + m) by lia. exact Hall'.
Qed.

Lemma tracked_all (n d : nat) (results : list Stats) :
  List.length results = n ->
  (forall j entry, nth_error results j = Some entry ->
                   tracked (if j <? 0 + n then S d else d) entry) ->
  Forall (tracked (S d)) results.
Proof.
  intros Hlen Hall. apply Forall_forall. intros entry Hin.
  apply In_nth_error in Hin. destruct Hin as [j Hj].
  specialize (Hall j entry Hj).
  replace (j <? 0 + n) with true in Hall; [exact Hall|].
  symmetry. apply Nat.ltb_lt. rewrite <- Hlen. cbn [Nat.add].
  apply nth_error_Some. congruence.
Qed.

Lemma tracked_none (d : nat) (results : list Stats) :
  Forall (tracked d) results ->
  forall j entry, nth_error results j = Some entry ->
                  tracked (if j <? 0 then S d else d) entry.
Proof.
  intros Hall j entry Hj. cbn [Nat.ltb Nat.leb].
  rewrite Forall_forall in Hall. apply Hall. eapply nth_error_In; eauto.
Qed.

(** A turn of the loop over the depths leaves one more entry in the
    statistics of the round for every predictor, and one more in the
    statistics of the best scores unless it is the last turn. *)
Lemma search_round_stats (n : nat) (st st' : SearchState) (d : nat) :
  self_track_stats = true ->
  d < self_depth ->
  List.length (results_latest st) = n ->
  List.length (results_best st) = n ->
  Forall (tracked d) (results_latest st) ->
  Forall (tracked d) (results_best st) ->
  search_round n st d = Ok st' ->
  List.length (results_latest st') = n
  /\ List.length (results_best st') = n
  /\ Forall (tracked (S d)) (results_latest st')
  /\ Forall (tracked (if S d =? self_depth then d else S d)) (results_best st').
Proof.
  intros Htrack Hd Hlen_latest Hlen_best Hlatest Hbest Hrun.
  unfold search_round in Hrun. inv_bind Hrun.
  destruct (search_predictors_stats d n n Htrack 0 _ _ E (tracked_none d _ Hlatest))
    as (Hbest0 & Hlen0 & Hall0).
  unfold start_round in Hbest0, Hlen0. cbn [results_best results_latest] in Hbest0, Hlen0.
  assert (Hlatest0 : Forall (tracked (S d)) (results_latest a)).
  { apply (tracked_all n); [congruence | exact Hall0]. }
  destruct (Nat.eqb_spec d (self_depth - 1)) as [Hlast|Hmore].
  - inversion Hrun; subst st'.
    replace (S d =? self_depth) with true by (symmetry; apply Nat.eqb_eq; lia).
    rewrite Hbest0. split; [congruence|]. auto.
  - inv_bind Hrun. destruct a0 as [st1 new_candidates].
    inversion Hrun; subst st'; clear Hrun. cbn [results_best results_latest].
    replace (S d =? self_depth) with false by (symmetry; apply Nat.eqb_neq; lia).
    destruct (propose_all_stats d n Htrack 0 _ _ _ _ E0) as (Hlatest1 & Hlen1 & Hall1).
    { apply tracked_none. rewrite Hbest0. exact Hbest. }
    rewrite Hlatest1. split; [congruence|]. split; [congruence|].
    split; [exact Hlatest0|]. apply (tracked_all n); [congruence | exact Hall1].
Qed.

Lemma gather_candidates_needs_round (stores : list CandidateStore) (p_i : nat)
      (candidates : list EvaluationRecord) (results : list Stats)
      (gathered : list EvaluationRecord * list Stats) :
  self_track_stats = true -> stores <> [] ->
  gather_candidates stores p_i candidates results = Ok gathered ->
  1 <= self_depth.
Proof.
  intros Htrack Hne Hrun. destruct stores as [|store stores]; [congruence|].
  cbn [gather_candidates] in Hrun. rewrite Htrack in Hrun. unfold loop_variable_d in Hrun.
  destruct self_depth; [discriminate Hrun | lia].
Qed.

(** The last loop notes the best scores once more for every predictor. *)
Lemma gather_candidates_stats (d : nat) (stores : list CandidateStore) :
  self_track_stats = true -> self_depth = S d ->
  forall (p_i : nat) (candidates : list EvaluationRecord) (results : list Stats)
         (gathered : list EvaluationRecord * list Stats),
  gather_candidates stores p_i candidates results = Ok gathered ->
  (forall j entry, nth_error results j = Some entry ->
                   tracked (if j <? p_i then S d else d) entry) ->
  List.length (snd gathered) = List.length results
  /\ forall j entry, nth_error (snd gathered) j = Some entry ->
                     tracked (if j <? p_i + List.length stores then S d else d) entry.
Proof.
  intros Htrack Hdepth. induction stores as [|store stores IH];
    intros p_i candidates results gathered Hrun Hall; cbn [gather_candidates] in Hrun.
  - inversion Hrun; subst gathered. cbn [snd List.length]. rewrite Nat.add_0_r. auto.
  - rewrite Htrack in Hrun. unfold loop_variable_d in Hrun. rewrite Hdepth in Hrun.
    cbn [bind] in Hrun.
    match type of Hrun with
    | bind ?m _ = Ok _ => destruct m as [results'|e] eqn:Hstats; cbn [bind] in Hrun;
                          [|discriminate]
    end.
    destruct (IH _ _ _ _ Hrun) as (Hlen & Hall').
    + intros j entry Hentry.
      pose proof (append_stats_tracked _ _ _ _ _ (fun j => j <? p_i) Hstats
                    (Nat.ltb_irrefl p_i) Hall j entry Hentry) as Hnext.
      cbn beta in Hnext.
      destruct (Nat.ltb_spec j p_i), (Nat.eqb_spec j p_i), (Nat.ltb_spec j (S p_i));
        cbn [orb] in Hnext; try lia; exact Hnext.
    + split; [rewrite Hlen; eapply append_stats_length; eauto|].
      cbn [List.length]. replace (p_i + S (List.length stores))
        with (S p_i + List.length stores) by lia.
      exact Hall'.
Qed.

Lemma search_stats (student : Program) (devset_ evalset_ : list Row)
      (st : SearchState) :
  self_track_stats = true ->
  search student devset_ evalset_ = Ok st ->
  List.length (results_latest st) = List.length student
  /\ List.length (results_best st) = List.length student
  /\ Forall (tracked self_depth) (results_latest st)
  /\ Forall (tracked (self_depth - 1)) (results_best st).
Proof.
  intros Htrack Hrun. unfold search in Hrun. inv_bind Hrun. inv_bind Hrun.
  destruct a0 as [w candidates].
  set (n := List.length student) in *.
  set (Inv := fun d s =>
         List.length (results_latest s) = n
         /\ List.length (results_best s) = n
         /\ Forall (tracked d) (results_latest s)
         /\ Forall (tracked (if d =? self_depth then d - 1 else d)) (results_best s)).
  assert (Hend : Inv (0 + self_depth) st).
  { eapply (for_each_seq_invariant Inv); [| |exact Hrun].
    - intros d s s' Hd (Hl1 & Hl2 & Hlatest & Hbest) Hstep.
      replace (d =? self_depth) with false in Hbest
        by (symmetry; apply Nat.eqb_neq; lia).
      destruct (search_round_stats n s s' d Htrack ltac:(lia) Hl1 Hl2 Hlatest Hbest Hstep)
        as (Hl1' & Hl2' & Hlatest' & Hbest').
      unfold Inv. replace (S d - 1) with d by lia. auto.
    - unfold Inv. cbn [results_latest results_best]. rewrite !length_map.
      assert (Hnone : tracked 0 no_stats) by (repeat split).
      split; [reflexivity|]. split; [reflexivity|].
      split; [apply Forall_map, Forall_forall; intros p _; exact Hnone|].
      destruct (0 =? self_depth);
        apply Forall_map, Forall_forall; intros p _; exact Hnone. }
  destruct Hend as (Hl1 & Hl2 & Hlatest & Hbest). cbn [Nat.add] in Hbest.
  rewrite Nat.eqb_refl in Hbest. auto.
Qed.

(** X25.  The statistics [compile] attaches to the program it returns.
    With [track_stats] off it attaches none.  With [track_stats] on, both
    statistics hold an entry for every predictor of the program, and each
    of the five lists of an entry (depth, max, average, min, std) has one
    value for each depth of the search, the depths being 0, 1, ... in this
    order: the scores of a round are noted once in every round, and the
    best scores so far after every round but the last and once more in
    the last loop. *)
Theorem compile_statistics_per_depth (student : Program) (devset_ evalset_ : list Row)
        (r : CompiledProgram) :
  compile student devset_ evalset_ = Ok r ->
  if self_track_stats then
    exists best latest,
      compiled_results_best r = Some best
      /\ compiled_results_latest r = Some latest
      /\ List.length best = List.length student
      /\ List.length latest = List.length student
      /\ Forall (tracked self_depth) best
      /\ Forall (tracked self_depth) latest
  else compiled_results_best r = None /\ compiled_results_latest r = None.
Proof.
  intros Hrun. unfold compile in Hrun.
  destruct (search student devset_ evalset_) as [st|e] eqn:Hsearch; cbn [bind] in Hrun;
    [|discriminate].
  unfold select_best in Hrun.
  destruct (gather_candidates (evaluated_candidates st) 0 [] (results_best st))
    as [[candidates best]|e] eqn:Hgather; cbn [bind] in Hrun; [|discriminate].
  inv_bind Hrun. inv_bind Hrun. inversion Hrun; subst r; clear Hrun.
  cbn [compiled_results_best compiled_results_latest].
  destruct self_track_stats eqn:Htrack; [|split; reflexivity].
  destruct (search_stats student devset_ evalset_ st Htrack Hsearch)
    as (Hl1 & Hl2 & Hlatest & Hbest).
  destruct (search_sized student devset_ evalset_ st Hsearch) as [Hstores _].
  exists best, (results_latest st).
  split; [reflexivity|]. split; [reflexivity|].
  destruct (evaluated_candidates st) as [|store stores] eqn:Hlist.
  - cbn [gather_candidates] in Hgather. inversion Hgather; subst candidates best.
    split; [exact Hl2|]. split; [exact Hl1|]. split; [|exact Hlatest].
    cbn [List.length] in Hstores. rewrite <- Hstores in Hl2.
    destruct (results_best st); [constructor | discriminate Hl2].
  - assert (Hne : store :: stores <> []) by discriminate.
    pose proof (gather_candidates_needs_round _ _ _ _ _ Htrack Hne Hgather) as Hdepth.
    destruct self_depth as [|d] eqn:Hd; [lia|].
    replace (S d - 1) with d in Hbest by lia.
    destruct (gather_candidates_stats d (store :: stores) Htrack Hd 0 [] _ _ Hgather
                (tracked_none d _ Hbest)) as (Hlen & Hall).
    cbn [snd] in Hlen, Hall.
    split; [congruence|]. split; [exact Hl1|]. split; [|exact Hlatest].
    apply (tracked_all (List.length (store :: stores))); [congruence | exact Hall].
Qed.

End Optimizer.



(** * The statements on concrete inputs *)

Lemma update_metric_observations_keeps_used_witness :
  exists w' news,
    update_metric_observations first_seen comma_index sample_predict_reconcile
                               crowded_world = Ok w'
    /\ previous_generations_metric_observations_used (metric_observation_history w')
       = crowded_used ++ news
    /\ List.length crowded_used = 16
    /\ List.length news = 7
    /\ previous_generations_metric_observations_unused (metric_observation_history w')
       = crowded_used.
Proof.
  destruct (update_metric_observations first_seen comma_index sample_predict_reconcile
                                       crowded_world) as [w'|e] eqn:Hrun;
    [|vm_compute in Hrun; discriminate].
  destruct (update_metric_observations_keeps_used first_seen comma_index
              sample_predict_reconcile crowded_world w')
    as (news & Hused & Hlen & Hunused & _).
  - cbn. lia.
  - exact Hrun.
  - exists w', news. split; [reflexivity|]. split; [exact Hused|].
    split; [reflexivity|]. split; [exact Hlen | exact Hunused].
Defined.

Lemma update_metric_observations_overlaps_sets_witness :
  sets_disjoint crowded_world
  /\ exists w',
       update_metric_observations first_seen comma_index sample_predict_reconcile
                                  crowded_world = Ok w'
       /\ ~ sets_disjoint w'.
Proof.
  assert (Hbefore : sets_disjoint crowded_world).
  { split.
    - change (NoDup (seq 0 16)). apply seq_NoDup.
    - intros o Ho. change (In o (seq 0 16)) in Ho. apply in_seq in Ho.
      cbn [crowded_world next_oid]. lia. }
  split; [exact Hbefore|].
  destruct (update_metric_observations first_seen comma_index sample_predict_reconcile
                                       crowded_world) as [w'|e] eqn:Hrun;
    [|vm_compute in Hrun; discriminate].
  exists w'. split; [reflexivity|].
  apply (update_metric_observations_overlaps_sets first_seen comma_index
           sample_predict_reconcile crowded_world w' Hbefore); [cbn; lia | exact Hrun].
Defined.



Lemma propose_metric_observations_raises_on_sentinel_witness :
  budgeted_df_stringify byte_tokens plain_markdown [] 2000 = none_shown 0
  /\ propose_metric_observations byte_tokens plain_markdown sample_predict_propose
       sample_world "Answer the question." [] (sample_failed ++ sample_succeeded) []
     = Raise (ValueError "Exemplar parsing failed").
Proof.
  split; [reflexivity|].
  apply (propose_metric_observations_raises_on_sentinel byte_tokens plain_markdown
           sample_predict_propose sample_world "Answer the question." []
           (sample_failed ++ sample_succeeded) []).
  - reflexivity.
  - discriminate.
  - discriminate.
Defined.

Lemma record_candidate_keeps_best_witness :
  record_candidate
    (record_candidate (record_all sample_evaluations [])
                      "Answer." "Answer:" 3333%Z [] 2)
    "Answer." "Answer:" 3333%Z [] 2
  = record_candidate (record_all sample_evaluations []) "Answer." "Answer:" 3333%Z [] 2.
Proof.
  exact (proj1 (proj2 (proj2
           (record_candidate_keeps_best sample_evaluations "Answer." "Answer:"
                                        3333%Z [] 2)))).
Defined.

Lemma MetricObservation_str_leaves_out_last_row_witness :
  budgeted_df_stringify byte_tokens plain_markdown
    (failure_exemplars two_row_observation) 300
  = safely_markdownify plain_markdown [(0, ["q0"; "a0"]); (1, ["q1"; "a1"])]
  /\ MetricObservation_str byte_tokens plain_markdown two_row_observation
     = Ok ("Summary: units" ++ nl ++ "Failure Exemplars: "
           ++ safely_markdownify plain_markdown [(0, ["q0"; "a0"])])%string.
Proof.
  destruct (MetricObservation_str_leaves_out_last_row byte_tokens plain_markdown
              two_row_observation) as (_ & Hall & Hstr).
  - cbn. lia.
  - reflexivity.
  - split; [exact Hall | exact Hstr].
Defined.

Lemma compile_drops_duplicates_witness :
  exists r first rest,
    compile byte_tokens plain_markdown first_seen comma_index sample_predict_propose
      sample_predict_reconcile sample_predict_basic sample_predict_attempts 3 1 false
      "def metric(gold, pred): return gold.answer == pred.answer"
      sample_evaluate hundredths_repr sample_np_std sample_student sample_devset sample_devset = Ok r
    /\ candidate_programs r = first :: rest
    /\ best_program r = program first
    /\ NoDup (candidate_programs r).
Proof.
  assert (Hs : exists st,
             search byte_tokens plain_markdown first_seen comma_index
               sample_predict_propose sample_predict_reconcile sample_predict_basic
               sample_predict_attempts 3 1 false
               "def metric(gold, pred): return gold.answer == pred.answer"
               sample_evaluate hundredths_repr sample_np_std sample_student sample_devset sample_devset
             = Ok st
             /\ flat_map dict_values (evaluated_candidates st) <> []).
  { eexists. split; [vm_compute; reflexivity | vm_compute; discriminate]. }
  destruct Hs as (st & Hsearch & Hne).
  destruct (compile_drops_duplicates byte_tokens plain_markdown first_seen comma_index
              sample_predict_propose sample_predict_reconcile sample_predict_basic
              sample_predict_attempts 3 1 false
              "def metric(gold, pred): return gold.answer == pred.answer"
              sample_evaluate hundredths_repr sample_np_std sample_student
              sample_devset sample_devset st Hsearch) as (Hsound & Htotal).
  destruct Htotal as (r & Hrun).
  - intros p [<-|[<-|[]]]; eexists; reflexivity.
  - exact Hne.
  - destruct (Hsound r Hrun)
      as (first & rest & Hlist & Hbest & _ & _ & _ & _ & _ & _ & Hnodup & _).
    exists r, first, rest. auto.
Defined.

(** C8, as stated, fails at budget 0: a first row that costs no token (a
    single empty cell) fits in a budget of 0, so the row is rendered and
    the result is not the sentinel. *)
Lemma budgeted_df_stringify_zero_budget_free_row :
  token_count byte_tokens [""] = 0%Z
  /\ rows_to_keep byte_tokens [(0, [""])] 0 0 = 1
  /\ budgeted_df_stringify byte_tokens plain_markdown [(0, [""])] 0 <> none_shown 1.
Proof.
  split; [reflexivity|]. split; [reflexivity|]. vm_compute. discriminate.
Qed.

Lemma budgeted_df_stringify_monotone_greedy_witness :
  (10 <= 300)%Z
  /\ rows_to_keep byte_tokens sample_succeeded 0 10
     <= rows_to_keep byte_tokens sample_succeeded 0 300
  /\ budgeted_df_stringify byte_tokens plain_markdown sample_succeeded 300
     = ("EXAMPLE AT INDEX 0" ++ nl ++ "q0 a0" ++ nl ++ nl
        ++ "EXAMPLE AT INDEX 2" ++ nl ++ "q2 a2" ++ nl ++ nl)%string.
Proof.
  destruct (budgeted_df_stringify_monotone_greedy byte_tokens plain_markdown
              sample_succeeded 10 300) as (Hmono & Hgreedy & _ & Htext & _).
  - lia.
  - split; [lia|]. split; [exact Hmono|].
    rewrite (Htext 300%Z 2); [reflexivity|].
    split; [cbn; lia|]. split.
    + intros [|[|j]] Hj; [| |lia]; unfold fits; cbn; lia.
    + cbn. lia.
Defined.



Lemma MetricObservation_str_needs_a_row_witness :
  exists w' news,
    update_metric_observations first_seen comma_index sample_predict_orphans
                               crowded_world = Ok w'
    /\ previous_generations_metric_observations_used (metric_observation_history w')
       = crowded_used ++ news
    /\ List.length news = 2
    /\ forall mo, In mo news ->
         failure_exemplars mo = []
         /\ MetricObservation_str byte_tokens plain_markdown mo = Raise IndexError.
Proof.
  destruct (MetricObservation_str_needs_a_row byte_tokens plain_markdown first_seen
              comma_index sample_predict_orphans eq_refl) as (_ & _ & Hmade).
  apply (Hmade crowded_world).
  - vm_compute. lia.
  - reflexivity.
  - intros text j [<-|[<-|[]]] Hj; vm_compute in Hj.
    + destruct Hj.
    + destruct Hj as [<-|[<-|[]]]; vm_compute; lia.
Defined.


(** * The further properties on concrete inputs *)

Lemma compile_raises_without_examples_witness :
  compile byte_tokens plain_markdown first_seen comma_index sample_predict_propose
    sample_predict_reconcile sample_predict_basic sample_predict_attempts 3 1 false
    sample_metric_source sample_evaluate hundredths_repr sample_np_std sample_student [] sample_devset
  = Raise IndexError.
Proof.
  apply compile_raises_without_examples. left. reflexivity.
Defined.

Lemma compile_raises_without_evaluation_witness :
  compile byte_tokens plain_markdown first_seen comma_index sample_predict_propose
    sample_predict_reconcile sample_predict_basic sample_predict_attempts 3 0 true
    sample_metric_source sample_evaluate hundredths_repr sample_np_std sample_student
    sample_devset sample_devset
  = Raise UnboundLocalError.
Proof.
  destruct (compile_raises_without_evaluation byte_tokens plain_markdown first_seen
              comma_index sample_predict_propose sample_predict_reconcile
              sample_predict_basic sample_predict_attempts 3 0 true
              sample_metric_source sample_evaluate hundredths_repr sample_np_std
              sample_student sample_devset sample_devset)
    as (e & Hrun & _ & Hunbound).
  - left. reflexivity.
  - rewrite Hrun. f_equal. apply Hunbound.
    split; [reflexivity|]. split; [discriminate|].
    eexists. vm_compute. reflexivity.
Defined.

Lemma propose_metric_observations_rotates_generations_witness :
  exists w',
    propose_metric_observations byte_tokens plain_markdown sample_predict_propose
      sample_world "Answer the question." sample_failed sample_succeeded [] = Ok w'
    /\ map oid (current_generation_metric_observations (metric_observation_history w'))
       = [0; 1; 2]
    /\ next_oid w' = 3
    /\ lm_calls w' = 1.
Proof.
  destruct (propose_metric_observations byte_tokens plain_markdown sample_predict_propose
              sample_world "Answer the question." sample_failed sample_succeeded [])
    as [w'|e] eqn:Hrun; [|vm_compute in Hrun; discriminate].
  destruct (propose_metric_observations_rotates_generations byte_tokens plain_markdown
              sample_predict_propose sample_world w' "Answer the question."
              sample_failed sample_succeeded [] Hrun)
    as (_ & _ & Hoids & Hnext & Hcalls & _).
  exists w'. split; [reflexivity|]. split; [exact Hoids|]. split; [exact Hnext | exact Hcalls].
Defined.

Lemma propose_metric_observations_outcome_witness :
  exists w',
    propose_metric_observations byte_tokens plain_markdown sample_predict_propose
      sample_world "Answer the question." sample_failed sample_succeeded [] = Ok w'.
Proof.
  exact (propose_metric_observations_outcome byte_tokens plain_markdown
           sample_predict_propose sample_world "Answer the question."
           sample_failed sample_succeeded [] eq_refl eq_refl).
Defined.

Lemma update_metric_observations_returns_witness :
  exists w',
    update_metric_observations first_seen comma_index sample_predict_reconcile
                               crowded_world = Ok w'
    /\ history_backed (metric_observation_history w')
    /\ lm_calls w' = 1.
Proof.
  apply (update_metric_observations_returns first_seen comma_index
           sample_predict_reconcile crowded_world).
  - intros xs x Hx. unfold first_seen in Hx. apply nodup_In in Hx. exact Hx.
  - split; [reflexivity|]. vm_compute. repeat constructor.
  - reflexivity.
Defined.

Lemma search_keeps_history_backed_witness :
  exists st,
    search byte_tokens plain_markdown first_seen comma_index sample_predict_propose
      sample_predict_reconcile sample_predict_basic sample_predict_attempts 3 1 false
      sample_metric_source sample_evaluate hundredths_repr sample_np_std sample_student
      sample_devset sample_devset = Ok st
    /\ history_backed (metric_observation_history (world st)).
Proof.
  destruct (search byte_tokens plain_markdown first_seen comma_index
              sample_predict_propose sample_predict_reconcile sample_predict_basic
              sample_predict_attempts 3 1 false sample_metric_source sample_evaluate
              hundredths_repr sample_np_std sample_student sample_devset sample_devset)
    as [st|e] eqn:Hrun; [|vm_compute in Hrun; discriminate].
  exists st. split; [reflexivity|].
  apply (search_keeps_history_backed byte_tokens plain_markdown first_seen comma_index
           sample_predict_propose sample_predict_reconcile sample_predict_basic
           sample_predict_attempts 3 1 false sample_metric_source sample_evaluate
           hundredths_repr sample_np_std sample_student sample_devset sample_devset st).
  - intros xs x Hx. unfold first_seen in Hx. apply nodup_In in Hx. exact Hx.
  - exact Hrun.
Defined.

Lemma drop_duplicates_keeps_order_witness :
  _drop_duplicates sample_evaluations
  = Ok [sample_record 3333%Z "Answer." "Answer:" 0;
        sample_record 6667%Z "Think, then answer." "Answer:" 0]
  /\ _drop_duplicates [sample_record 3333%Z "Answer." "Answer:" 0;
                       sample_record 6667%Z "Think, then answer." "Answer:" 0]
     = Ok [sample_record 3333%Z "Answer." "Answer:" 0;
           sample_record 6667%Z "Think, then answer." "Answer:" 0].
Proof.
  assert (Hrun : _drop_duplicates sample_evaluations
                 = Ok [sample_record 3333%Z "Answer." "Answer:" 0;
                       sample_record 6667%Z "Think, then answer." "Answer:" 0]).
  { vm_compute. reflexivity. }
  split; [exact Hrun|].
  apply (drop_duplicates_keeps_order sample_evaluations _ Hrun).
Defined.

Lemma drop_duplicates_unchanged_when_scores_change_witness :
  _drop_duplicates [sample_record 3333%Z "Answer." "Answer:" 0;
                    sample_record 6667%Z "Think, then answer." "Answer:" 0;
                    sample_record 3333%Z "Answer." "Answer:" 0]
  = Ok [sample_record 3333%Z "Answer." "Answer:" 0;
        sample_record 6667%Z "Think, then answer." "Answer:" 0;
        sample_record 3333%Z "Answer." "Answer:" 0].
Proof.
  apply drop_duplicates_unchanged_when_scores_change.
  cbn. split; [discriminate|]. split; [discriminate | exact I].
Defined.

Lemma check_candidates_equal_on_one_signature_programs_witness :
  _check_candidates_equal
    (sample_record 3333%Z "Answer." "Answer:" 0)
    {| score := 3333%Z; program := sample_student;
       instruction := "Answer."; prefix := "Answer:"; depth := 0 |}
  = Ok true.
Proof.
  assert (Hone : forall instruction_ prefix_,
             comparable [sample_predictor instruction_ prefix_]).
  { intros instruction_ prefix_. constructor; [|constructor].
    eexists. eexists. split; reflexivity. }
  destruct (check_candidates_equal_on_one_signature_programs
              (sample_record 3333%Z "Answer." "Answer:" 0)
              (sample_record 6667%Z "Think, then answer." "Answer:" 0)
              (Hone _ _) (Hone _ _)) as (_ & _ & _ & Hmore).
  apply (Hmore _ [sample_predictor "Check." "Verdict:"]). reflexivity.
Defined.

Lemma MetricObservation_str_within_budget_witness :
  exists s n,
    MetricObservation_str byte_tokens plain_markdown two_row_observation = Ok s
    /\ n <= 2
    /\ (0 < n ->
        (tokens_sum byte_tokens (firstn n (failure_exemplars two_row_observation))
         <= 300)%Z).
Proof.
  destruct (MetricObservation_str byte_tokens plain_markdown two_row_observation)
    as [s|e] eqn:Hrun; [|vm_compute in Hrun; discriminate].
  destruct (MetricObservation_str_within_budget byte_tokens plain_markdown
              two_row_observation s Hrun) as (n & Hn & _ & Hshown & _).
  exists s, n. split; [reflexivity|]. split; [exact Hn|].
  intros Hpos. apply (Hshown Hpos).
Defined.

Lemma attempts_text_numbering_witness :
  attempts_text hundredths_repr 2
    [sample_record 6667%Z "Think, then answer." "Answer:" 0;
     sample_record 3333%Z "Answer." "Answer:" 0]
  = attempt_entry hundredths_repr 1 (sample_record 3333%Z "Answer." "Answer:" 0)
    ++ attempt_entry hundredths_repr 2
         (sample_record 6667%Z "Think, then answer." "Answer:" 0).
Proof.
  destruct (attempts_text_numbering hundredths_repr 2
              [sample_record 6667%Z "Think, then answer." "Answer:" 0;
               sample_record 3333%Z "Answer." "Answer:" 0]) as (Htext & _).
  - cbn. lia.
  - repeat constructor. unfold by_score_desc. cbn. lia.
  - exact Htext.
Defined.

Lemma parse_integer_answer_reads_last_number_witness :
  parse_integer_answer "The answer is 42 dollars" = Ok 42.
Proof.
  apply (parse_integer_answer_reads_last_number "The answer is" "dollars" 42).
  repeat constructor.
Defined.

Lemma gsm8k_metric_ignores_sign_and_fraction_witness :
  gsm8k_metric (fun _ _ => false) "3" "So it is -3.99 in all" = Ok (true, []).
Proof.
  apply (gsm8k_metric_ignores_sign_and_fraction (fun _ _ => false) 3
           "So it is" "-" "99" "in all"); repeat constructor.
Defined.

Lemma clients_cut_prompt_at_last_separator_witness :
  exists system_prompt user_prompt,
    "Be brief.---Be exact.---What is 2 + 2?"%string
    = (system_prompt ++ "---" ++ user_prompt)%string
    /\ Text.contains "---" user_prompt = false
    /\ TogetherApi_call (fun _ user_prompt_ => Returns user_prompt_)
         "Be brief.---Be exact.---What is 2 + 2?" true false
       = Returns [user_prompt].
Proof.
  destruct (clients_cut_prompt_at_last_separator
              (fun _ user_prompt_ => Returns user_prompt_)
              "Be brief.---Be exact.---What is 2 + 2?" eq_refl)
    as (system_prompt & user_prompt & Hcut & Hnone & _ & _ & Hlist).
  exists system_prompt, user_prompt. split; [exact Hcut|]. split; [exact Hnone | exact Hlist].
Defined.

Lemma search_records_describe_snapshots_witness :
  exists st store,
    search byte_tokens plain_markdown first_seen comma_index sample_predict_propose
      sample_predict_reconcile sample_predict_basic sample_predict_attempts 3 1 false
      sample_metric_source sample_evaluate hundredths_repr sample_np_std sample_student
      sample_devset sample_devset = Ok st
    /\ nth_error (evaluated_candidates st) 1 = Some store
    /\ store_describes_snapshots 1 store.
Proof.
  destruct (search byte_tokens plain_markdown first_seen comma_index
              sample_predict_propose sample_predict_reconcile sample_predict_basic
              sample_predict_attempts 3 1 false sample_metric_source sample_evaluate
              hundredths_repr sample_np_std sample_student sample_devset sample_devset)
    as [st|e] eqn:Hrun; [|vm_compute in Hrun; discriminate].
  destruct (nth_error (evaluated_candidates st) 1) as [store|] eqn:Hstore;
    [|vm_compute in Hrun; inversion Hrun; subst st; discriminate Hstore].
  exists st, store. split; [reflexivity|]. split; [exact Hstore|].
  apply (search_records_describe_snapshots byte_tokens plain_markdown first_seen
           comma_index sample_predict_propose sample_predict_reconcile
           sample_predict_basic sample_predict_attempts 3 1 false sample_metric_source
           sample_evaluate hundredths_repr sample_np_std sample_student sample_devset sample_devset
           st Hrun 1 store Hstore).
Defined.

Lemma compile_total_calls_witness :
  exists r,
    compile byte_tokens plain_markdown first_seen comma_index sample_predict_propose
      sample_predict_reconcile sample_predict_basic sample_predict_attempts 3 2 false
      sample_metric_source sample_evaluate hundredths_repr sample_np_std sample_student
      sample_devset sample_devset = Ok r
    /\ compiled_total_calls r = 18.
Proof.
  destruct (compile byte_tokens plain_markdown first_seen comma_index
              sample_predict_propose sample_predict_reconcile sample_predict_basic
              sample_predict_attempts 3 2 false sample_metric_source sample_evaluate
              hundredths_repr sample_np_std sample_student sample_devset sample_devset)
    as [r|e] eqn:Hrun; [|vm_compute in Hrun; discriminate].
  exists r. split; [reflexivity|].
  apply (compile_total_calls byte_tokens plain_markdown first_seen comma_index
           sample_predict_propose sample_predict_reconcile sample_predict_basic
           sample_predict_attempts 3 2 false sample_metric_source sample_evaluate
           hundredths_repr sample_np_std sample_student sample_devset sample_devset r).
  - lia.
  - intros calls basic. split; reflexivity.
  - intros calls request. split; reflexivity.
  - exact Hrun.
Defined.

Lemma propose_metric_observations_raises_on_sentinel_words_witness :
  propose_metric_observations byte_tokens plain_markdown sample_predict_propose
    sample_world "Answer the question." [(1, ["Why is None Shown here?"; "a1"])]
    sample_succeeded []
  = Raise (ValueError "Exemplar parsing failed").
Proof.
  apply (propose_metric_observations_raises_on_sentinel_words byte_tokens plain_markdown
           sample_predict_propose sample_world "Answer the question."
           [(1, ["Why is None Shown here?"; "a1"])] sample_succeeded []).
  - exists 1, ["Why is None Shown here?"; "a1"]. split; [left; reflexivity|].
    right. eexists. split; reflexivity.
  - discriminate.
  - discriminate.
Defined.

Lemma update_metric_observations_parents_witness :
  exists w' news,
    update_metric_observations first_seen comma_index sample_predict_echo crowded_world
    = Ok w'
    /\ previous_generations_metric_observations_used (metric_observation_history w')
       = crowded_used ++ news
    /\ map (fun mo => df_index (failure_exemplars mo)) news = [[0; 1]; [0; 1]].
Proof.
  destruct (update_metric_observations first_seen comma_index sample_predict_echo
                                       crowded_world) as [w'|e] eqn:Hrun;
    [|vm_compute in Hrun; discriminate].
  destruct (update_metric_observations_parents first_seen comma_index
              sample_predict_echo crowded_world w')
    as (news & Hused & _ & _); [cbn; lia | exact Hrun |].
  exists w', news. split; [reflexivity|]. split; [exact Hused|].
  assert (Hnews : exists news0,
             previous_generations_metric_observations_used (metric_observation_history w')
             = crowded_used ++ news0
             /\ map (fun mo => df_index (failure_exemplars mo)) news0 = [[0; 1]; [0; 1]]).
  { clear Hused. vm_compute in Hrun. inversion Hrun; subst w'. eexists.
    split; [cbv; reflexivity | reflexivity]. }
  destruct Hnews as (news0 & Hused0 & Hmap). rewrite Hused in Hused0.
  apply app_inv_head in Hused0. subst news0. exact Hmap.
Defined.

Lemma compile_statistics_per_depth_witness :
  exists r best latest,
    compile byte_tokens plain_markdown first_seen comma_index sample_predict_propose
      sample_predict_reconcile sample_predict_basic sample_predict_attempts 3 2 true
      sample_metric_source sample_evaluate hundredths_repr sample_np_std sample_student
      sample_devset sample_devset = Ok r
    /\ compiled_results_best r = Some best
    /\ compiled_results_latest r = Some latest
    /\ List.length best = 2
    /\ List.length latest = 2
    /\ Forall (fun s => stats_depth s = [0; 1]) best
    /\ Forall (fun s => stats_depth s = [0; 1]) latest.
Proof.
  destruct (compile byte_tokens plain_markdown first_seen comma_index
              sample_predict_propose sample_predict_reconcile sample_predict_basic
              sample_predict_attempts 3 2 true sample_metric_source sample_evaluate
              hundredths_repr sample_np_std sample_student sample_devset sample_devset)
    as [r|e] eqn:Hrun; [|vm_compute in Hrun; discriminate].
  pose proof (compile_statistics_per_depth byte_tokens plain_markdown first_seen
                comma_index sample_predict_propose sample_predict_reconcile
                sample_predict_basic sample_predict_attempts 3 2 true
                sample_metric_source sample_evaluate hundredths_repr sample_np_std
                sample_student sample_devset sample_devset r Hrun) as Hstats.
  cbv iota in Hstats.
  destruct Hstats as (best & latest & Hbest & Hlatest & Hl1 & Hl2 & Hall1 & Hall2).
  exists r, best, latest. split; [reflexivity|].
  split; [exact Hbest|]. split; [exact Hlatest|].
  split; [exact Hl1|]. split; [exact Hl2|].
  split; [eapply Forall_impl; [|exact Hall1] | eapply Forall_impl; [|exact Hall2]];
    intros entry [Hdepth _]; exact Hdepth.
Defined.
